(** * Stale-branch notifier: a shallow embedding of [src/index.ts]

    The action lists the non-protected branches of a repository, fetches the
    tip commit of each, keeps the branches whose last commit is at least
    [days-before-stale] days old, groups them by commit author, sorts each
    group by decreasing age and posts one message per author to a Slack
    webhook.

    The embedding follows the TypeScript source function by function.
    JavaScript numbers are modelled as exact rationals plus [NaN] (rounding of
    IEEE doubles is abstracted; the values the program handles are integers
    and quotients of millisecond counts far below 2^53).  Strings are byte
    strings.  Objects used as dictionaries are insertion-ordered association
    lists of own properties; reading a property of such an object also finds
    the members it inherits from [Object.prototype].  Network calls and the
    calls that read the configuration are functions of an explicit world or
    environment; logging, sleeping and posting are recorded in a trace of
    events. *)

From Stdlib Require Import ZArith QArith Qround Qreduction Qcanon String Ascii.
From Stdlib Require Import List Lia Lqa Bool Permutation Sorted DecimalString.
Import ListNotations.

Open Scope string_scope.
Open Scope Z_scope.

(** ** JavaScript values *)

Module JS.

(** A JavaScript number: [NaN] or a finite value.  Finite values are kept in
    lowest terms so that equal numbers are equal terms. *)
Inductive number : Type :=
| NaN
| Num (q : Q).

Definition of_Z (z : Z) : number := Num (inject_Z z).

(** [a - b] *)
Definition sub (a b : number) : number :=
  match a, b with
  | Num x, Num y => Num (Qred (x - y))
  | _, _ => NaN
  end.

(** [a * b] *)
Definition mul (a b : number) : number :=
  match a, b with
  | Num x, Num y => Num (Qred (x * y))
  | _, _ => NaN
  end.

(** [a / d] for a positive integer literal [d]. *)
Definition div (a : number) (d : positive) : number :=
  match a with
  | Num x => Num (Qred (x / inject_Z (Z.pos d)))
  | NaN => NaN
  end.

(** Rounding towards zero. *)
Definition Qtrunc (x : Q) : Z := Z.quot (Qnum x) (Z.pos (Qden x)).

(** [a % d] for a positive integer literal [d]: the remainder of the division
    truncated towards zero; it has the sign of [a]. *)
Definition rem (a : number) (d : positive) : number :=
  match a with
  | Num x =>
      let m := inject_Z (Z.pos d) in
      Num (Qred (x - m * inject_Z (Qtrunc (x / m))))
  | NaN => NaN
  end.

(** [a >= b]: false as soon as one side is [NaN]. *)
Definition ge (a b : number) : bool :=
  match a, b with
  | Num x, Num y => Qle_bool y x
  | _, _ => false
  end.

(** [Math.floor]: an integer, or [None] for [NaN]. *)
Definition Math_floor (a : number) : option Z :=
  match a with
  | Num x => Some (Qfloor x)
  | NaN => None
  end.

(** [i > k] on the result of [Math.floor]. *)
Definition gt (i : option Z) (k : Z) : bool :=
  match i with
  | Some z => k <? z
  | None => false
  end.

(** Decimal rendering of an integer, as a template literal prints it. *)
Definition Z_toString (z : Z) : string := NilZero.string_of_int (Z.to_int z).

(** [`${i}`] for the result of [Math.floor]. *)
Definition toString (i : option Z) : string :=
  match i with
  | Some z => Z_toString z
  | None => "NaN"
  end.

(** A value that may be [undefined], converted to a string by [+]. *)
Definition string_of_undefinable (v : option string) : string :=
  match v with
  | Some s => s
  | None => "undefined"
  end.

(** [a || b] on strings: the empty string is the only falsy string. *)
Definition or_else (a b : string) : string :=
  if String.eqb a "" then b else a.

(** [v || b] where [v] may be [undefined] or [null]. *)
Definition or_default (v : option string) (b : string) : string :=
  match v with
  | Some s => or_else s b
  | None => b
  end.

(** [s.split(sep)] for a one-character separator. *)
Fixpoint split (sep : ascii) (s : string) : list string :=
  match s with
  | EmptyString => [EmptyString]
  | String c s' =>
      if Ascii.eqb c sep then EmptyString :: split sep s'
      else match split sep s' with
           | [] => [String c EmptyString]
           | h :: t => String c h :: t
           end
  end.

Definition is_whitespace (c : ascii) : bool :=
  let n := N_of_ascii c in
  ((9 <=? n) && (n <=? 13) || (n =? 32))%N.

Fixpoint trimStart (s : string) : string :=
  match s with
  | EmptyString => EmptyString
  | String c s' => if is_whitespace c then trimStart s' else s
  end.

Fixpoint trimEnd (s : string) : string :=
  match s with
  | EmptyString => EmptyString
  | String c s' =>
      match trimEnd s' with
      | EmptyString => if is_whitespace c then EmptyString else String c EmptyString
      | t => String c t
      end
  end.

(** [s.trim()] *)
Definition trim (s : string) : string := trimEnd (trimStart s).

(** *** Objects used as dictionaries *)

(** Own properties in insertion order. *)
Definition object (V : Type) : Type := list (string * V).

(** The own property [k] of [o], if there is one. *)
Fixpoint get {V : Type} (o : object V) (k : string) : option V :=
  match o with
  | [] => None
  | (k', v) :: o' => if String.eqb k' k then Some v else get o' k
  end.

(** [o[k] = v] on own properties: an existing key keeps its place, a new
    key goes last. *)
Fixpoint set {V : Type} (o : object V) (k : string) (v : V) : object V :=
  match o with
  | [] => [(k, v)]
  | (k', v') :: o' =>
      if String.eqb k' k then (k', v) :: o' else (k', v') :: set o' k v
  end.

(** [Object.fromEntries] *)
Definition fromEntries {V : Type} (entries : list (string * V)) : object V :=
  fold_left (fun o kv => set o (fst kv) (snd kv)) entries [].

Definition keys {V : Type} (o : object V) : list string := map fst o.

(** A property key is an array index when it is the decimal form of an
    integer below 2^32 - 1. *)
Definition digit_value (c : ascii) : option N :=
  let n := N_of_ascii c in
  if ((48 <=? n) && (n <=? 57))%N then Some (n - 48)%N else None.

Fixpoint digits_value (acc : N) (s : string) : option N :=
  match s with
  | EmptyString => Some acc
  | String c s' =>
      match digit_value c with
      | Some d => digits_value (10 * acc + d)%N s'
      | None => None
      end
  end.

Definition array_index (k : string) : option N :=
  match k with
  | EmptyString => None
  | String c k' =>
      match digits_value 0 k with
      | Some n =>
          if (Ascii.eqb c "0" && negb (String.eqb k' ""))%bool then None
          else if (n <? 4294967295)%N then Some n else None
      | None => None
      end
  end.

Fixpoint insert_index (k : N * string) (l : list (N * string)) : list (N * string) :=
  match l with
  | [] => [k]
  | h :: t => if (fst k <=? fst h)%N then k :: l else h :: insert_index k t
  end.

Definition index_keys (ks : list string) : list (N * string) :=
  fold_right
    (fun k acc => match array_index k with
                  | Some n => insert_index (n, k) acc
                  | None => acc
                  end) [] ks.

Definition is_index (k : string) : bool :=
  match array_index k with Some _ => true | None => false end.

(** The keys a [for ... in] loop visits: array indices in increasing numeric
    order, then the other keys in insertion order. *)
Definition for_in_keys {V : Type} (o : object V) : list string :=
  map snd (index_keys (keys o)) ++ filter (fun k => negb (is_index k)) (keys o).

(** *** Plain objects

    An object made by [{}] or by [Object.fromEntries] has the prototype
    [Object.prototype]: [o[k]] answers the own property [k] when there is
    one, else the member [k] of [Object.prototype] when there is one, else
    [undefined].  The members are not enumerable: a [for ... in] loop does
    not visit them, and none of them is an array. *)

(** How a built-in function reads when it is converted to a string. *)
Definition native_function (name : string) : string :=
  "function " ++ name ++ "() { [native code] }".

(** The members of [Object.prototype], each with what it reads as when it is
    converted to a string; [__proto__] answers [Object.prototype] itself. *)
Definition Object_prototype : object string :=
  [("constructor", native_function "Object");
   ("__defineGetter__", native_function "__defineGetter__");
   ("__defineSetter__", native_function "__defineSetter__");
   ("hasOwnProperty", native_function "hasOwnProperty");
   ("__lookupGetter__", native_function "__lookupGetter__");
   ("__lookupSetter__", native_function "__lookupSetter__");
   ("isPrototypeOf", native_function "isPrototypeOf");
   ("propertyIsEnumerable", native_function "propertyIsEnumerable");
   ("toString", native_function "toString");
   ("valueOf", native_function "valueOf");
   ("__proto__", "[object Object]");
   ("toLocaleString", native_function "toLocaleString")].

(** [k] names a member of [Object.prototype]. *)
Definition inherited (k : string) : bool :=
  match get Object_prototype k with
  | Some _ => true
  | None => false
  end.

(** What [o[k]] finds. *)
Inductive property (V : Type) : Type :=
| Own (v : V)
| Inherited (member : string)
| Undefined.

Arguments Own {V} v.
Arguments Inherited {V} member.
Arguments Undefined {V}.

(** [o[k]] on a plain object. *)
Definition index {V : Type} (o : object V) (k : string) : property V :=
  match get o k with
  | Some v => Own v
  | None =>
      match get Object_prototype k with
      | Some member => Inherited member
      | None => Undefined
      end
  end.

(** *** [JSON.stringify] of a string *)

Definition dquote : ascii := ascii_of_N 34.
Definition backslash : ascii := ascii_of_N 92.

Definition hex_digit (n : N) : ascii :=
  if (n <? 10)%N then ascii_of_N (48 + n) else ascii_of_N (87 + n).

Definition escape_char (c : ascii) : string :=
  let n := N_of_ascii c in
  if (n =? 34)%N then String backslash (String dquote EmptyString)
  else if (n =? 92)%N then String backslash (String backslash EmptyString)
  else if (n =? 8)%N then String backslash "b"
  else if (n =? 9)%N then String backslash "t"
  else if (n =? 10)%N then String backslash "n"
  else if (n =? 12)%N then String backslash "f"
  else if (n =? 13)%N then String backslash "r"
  else if (n <? 32)%N then
    String backslash ("u00" ++ String (hex_digit (n / 16)) (String (hex_digit (n mod 16)) EmptyString))
  else String c EmptyString.

Fixpoint escape (s : string) : string :=
  match s with
  | EmptyString => EmptyString
  | String c s' => escape_char c ++ escape s'
  end.

Definition quote (s : string) : string :=
  String dquote (escape s ++ String dquote EmptyString).

(** [JSON.stringify({ text: message })] *)
Definition stringify_text (message : string) : string :=
  "{" ++ quote "text" ++ ":" ++ quote message ++ "}".

End JS.

(** Line feed, the [\n] of the message templates. *)
Definition LF : string := String (ascii_of_N 10) EmptyString.

(** ** [getSlackUsername] and [parseTime] *)

(** [getSlackUsername]; [SLACK_USERS] is the environment variable, [None] when
    it is not set.  A mapping without a colon has the value [undefined].
    [Object.fromEntries] defines own properties, whatever the key. *)
Definition slackUsers (SLACK_USERS : option string) : JS.object (option string) :=
  JS.fromEntries
    (map (fun mapping =>
            let parts := JS.split ":" mapping in
            (hd "" parts, nth_error parts 1))
         (JS.split "," (JS.or_default SLACK_USERS ""))).

(** [slackUsers[gitUsername]] as [+] will convert it to a string; [None]
    stands for [undefined].  [slackUsers] is a plain object: for a login
    without mapping that names a member of [Object.prototype] the lookup
    answers that member. *)
Definition slackUsers_lookup (SLACK_USERS : option string) (gitUsername : string)
  : option string :=
  match JS.index (slackUsers SLACK_USERS) gitUsername with
  | JS.Own v => v
  | JS.Inherited member => Some member
  | JS.Undefined => None
  end.

(** [+] binds tighter than [||]: the left operand of [||] is the whole
    concatenation. *)
Definition getSlackUsername (SLACK_USERS : option string) (gitUsername : string)
  : string :=
  JS.or_else
    (JS.string_of_undefinable (slackUsers_lookup SLACK_USERS gitUsername)
       ++ " (" ++ gitUsername ++ ")")
    ("@" ++ gitUsername).

Definition plural (i : option Z) : string := if JS.gt i 1 then "s" else "".

Definition parseTime (days : JS.number) : string :=
  let years := JS.Math_floor (JS.div days 365) in
  let months := JS.Math_floor (JS.div (JS.rem days 365) 30) in
  let remainingDays := JS.Math_floor (JS.rem days 30) in
  let timeFormat := "" in
  let timeFormat :=
    if JS.gt years 0
    then timeFormat ++ JS.toString years ++ " year" ++ plural years ++ " "
    else timeFormat in
  let timeFormat :=
    if JS.gt months 0
    then timeFormat ++ JS.toString months ++ " month" ++ plural months ++ " "
    else timeFormat in
  let timeFormat :=
    if JS.gt remainingDays 0
    then timeFormat ++ JS.toString remainingDays ++ " day" ++ plural remainingDays ++ " "
    else timeFormat in
  let timeFormat := if String.eqb timeFormat "" then "0 days" else timeFormat in
  JS.trim timeFormat.

(** The duration format of the specification: the positive components with
    their unit, in the plural above one, joined by spaces; ["0 days"] when
    there is none. *)
Definition component (n : Z) (unit : string) : string :=
  if 0 <? n
  then JS.Z_toString n ++ " " ++ unit ++ (if 1 <? n then "s" else "") ++ " "
  else "".

Definition formatDuration (years months days : Z) : string :=
  let s := component years "year" ++ component months "month" ++ component days "day" in
  JS.trim (if String.eqb s "" then "0 days" else s).

(** The decomposition of the specification: years, then months of the
    remainder, then the days of the final remainder. *)
Definition spec_parseTime (d : Z) : string :=
  formatDuration (d / 365) ((d mod 365) / 30) ((d mod 365) mod 30).

(** ** Data model *)

(** An element of the [listBranches] response: [name], [commit.sha],
    [protected]. *)
Record Branch : Type := mkBranch {
  name : string;
  sha : string;
  protected : bool
}.

(** The parts of the [getCommit] response the program reads:
    [data.commit.committer?.date] and [data.author?.login]. *)
Record CommitInfo : Type := mkCommitInfo {
  committer_date : option string;
  author_login : option string
}.

(** An element of an author's group. *)
Record StaleBranch : Type := mkStaleBranch {
  branchName : string;
  daysSinceLastCommit : JS.number
}.

(** [error.response]: the status and the [retry-after] header. *)
Record Response : Type := mkResponse {
  status : Z;
  retry_after : option string
}.

(** An error thrown by a network call. *)
Record Error : Type := mkError {
  error_name : string;
  message : string;
  response : option Response
}.

(** What [makeRequestWithRetry] throws: an error of the request, rethrown, or
    its own [new Error('Max retries exceeded')]. *)
Inductive failure : Type :=
| Rethrown (error : Error)
| MaxRetriesExceeded.

(** [`${error}`] *)
Definition Error_toString (e : Error) : string :=
  if String.eqb (message e) "" then error_name e
  else if String.eqb (error_name e) "" then message e
  else error_name e ++ ": " ++ message e.

Definition failure_toString (f : failure) : string :=
  match f with
  | Rethrown e => Error_toString e
  | MaxRetriesExceeded => "Error: Max retries exceeded"
  end.

(** Observable effects, in the order they happen. *)
Inductive event : Type :=
| Info (msg : string)                 (* core.info *)
| Warning (msg : string)              (* core.warning *)
| Sleep (ms : JS.number)              (* await setTimeout *)
| Post (url body : string)            (* axios.post *)
| SetFailed (msg : string).           (* core.setFailed *)

(** The parameters of a [listBranches] call. *)
Record ListBranchesParams : Type := mkParams {
  param_protected : bool;
  per_page : Z;
  page : Z
}.

(** ** [makeRequestWithRetry] *)

Section Retry.

Context {W T : Type}.

(** The global [parseInt]. *)
Variable parseInt : string -> JS.number.

(** One call of [request()], awaited: it changes the world and either
    returns or throws. *)
Variable request : W -> (Error + T) * W.

Variable maxRetries : Z.

(** [error.response?.status === 403] *)
Definition rate_limited (error : Error) : bool :=
  match response error with
  | Some r => status r =? 403
  | None => false
  end.

(** [error.response.headers['retry-after']], when it is truthy. *)
Definition retryAfter_hint (error : Error) : option string :=
  match response error with
  | Some r =>
      match retry_after r with
      | Some h => if String.eqb h "" then None else Some h
      | None => None
      end
  | None => None
  end.

(** The body of the [catch] block for an attempt that is not the last. *)
Definition backoff (attempt : Z) (error : Error) : list event :=
  match (if rate_limited error then retryAfter_hint error else None) with
  | Some retryAfter =>
      let waitTime := JS.mul (parseInt retryAfter) (JS.of_Z 1000) in
      [Info ("Rate limited. Waiting " ++ retryAfter ++ " seconds before retry...");
       Sleep waitTime]
  | None =>
      let waitTime := JS.mul (JS.of_Z (2 ^ attempt)) (JS.of_Z 1000) in
      [Info ("Request failed. Retrying in " ++ JS.Z_toString (2 ^ attempt) ++ " seconds...");
       Sleep waitTime]
  end.

(** The [for] loop from [attempt] on; [fuel] bounds the iterations left. *)
Fixpoint retry_loop (fuel : nat) (attempt : Z) (w : W)
  : (failure + T) * W * list event :=
  match fuel with
  | O => (inl MaxRetriesExceeded, w, [])
  | S fuel' =>
      if attempt <=? maxRetries then
        match request w with
        | (inr value, w') => (inr value, w', [])
        | (inl error, w') =>
            if attempt =? maxRetries then (inl (Rethrown error), w', [])
            else
              let '(r, w'', evs) := retry_loop fuel' (attempt + 1) w' in
              (r, w'', (backoff attempt error ++ evs)%list)
        end
      else (inl MaxRetriesExceeded, w, [])
  end.

(** Attempts [1 .. maxRetries]: the loop variable runs over at most
    [maxRetries] values, so this fuel never runs out before the loop
    condition fails. *)
Definition makeRequestWithRetry (w : W) : (failure + T) * W * list event :=
  retry_loop (Z.to_nat maxRetries) 1 w.

(** The state of the world after [n] calls of the request. *)
Fixpoint after_calls (n : nat) (w : W) : W :=
  match n with
  | O => w
  | S n' => after_calls n' (snd (request w))
  end.

(** The outcome of call number [n] (counted from 0). *)
Definition outcome (n : nat) (w : W) : Error + T :=
  fst (request (after_calls n w)).

(** The request fails with the given errors, one call after the other. *)
Fixpoint fails_with (errors : list Error) (w : W) : Prop :=
  match errors with
  | [] => True
  | e :: rest => fst (request w) = inl e /\ fails_with rest (snd (request w))
  end.

End Retry.

(** The default [maxRetries = 5]. *)
Definition defaultMaxRetries : Z := 5.

(** The waits in a trace. *)
Definition sleeps (evs : list event) : list JS.number :=
  flat_map (fun e => match e with Sleep ms => [ms] | _ => [] end) evs.

Definition warnings (evs : list event) : list string :=
  flat_map (fun e => match e with Warning m => [m] | _ => [] end) evs.

Definition posts (evs : list event) : list (string * string) :=
  flat_map (fun e => match e with Post u b => [(u, b)] | _ => [] end) evs.

(** The wait the specification prescribes after a failed attempt that is not
    the last: the hinted seconds in milliseconds for a 403 with a
    [retry-after] hint, [2^attempt] seconds otherwise. *)
Definition spec_wait (parseInt : string -> JS.number) (attempt : Z) (error : Error)
  : JS.number :=
  let exponential := JS.of_Z (2 ^ attempt * 1000) in
  match response error with
  | Some r =>
      match retry_after r with
      | Some hint =>
          if ((status r =? 403) && negb (String.eqb hint ""))%bool
          then JS.mul (parseInt hint) (JS.of_Z 1000)
          else exponential
      | None => exponential
      end
  | None => exponential
  end.

(** The waits after successive failed attempts, from [attempt] on. *)
Fixpoint spec_waits (parseInt : string -> JS.number) (attempt : Z) (errors : list Error)
  : list JS.number :=
  match errors with
  | [] => []
  | e :: rest => spec_wait parseInt attempt e :: spec_waits parseInt (attempt + 1) rest
  end.

(** ** [getAllBranches] *)

Section Enumerate.

Context {W : Type}.
Variable parseInt : string -> JS.number.

(** [octokit.rest.repos.listBranches] *)
Variable listBranches : ListBranchesParams -> W -> (Error + list Branch) * W.

Definition per_page_const : Z := 100.

(** One page, through the retrying wrapper. *)
Definition fetchPage (page : Z) (w : W)
  : (failure + list Branch) * W * list event :=
  makeRequestWithRetry parseInt
    (listBranches (mkParams false per_page_const page)) defaultMaxRetries w.

(** The [while (true)] loop inside the [try]: the branches pushed so far
    are kept when a fetch throws.  [None]: the loop has not ended within
    [fuel] iterations. *)
Fixpoint pages_loop (fuel : nat) (page : Z) (branches : list Branch) (w : W)
  : option ((failure + unit) * list Branch * W * list event) :=
  match fuel with
  | O => None
  | S fuel' =>
      match fetchPage page w with
      | (inr data, w', evs) =>
          let branches := (branches ++ data)%list in
          if Z.of_nat (length data) <? per_page_const
          then Some (inr tt, branches, w', evs)
          else
            match pages_loop fuel' (page + 1) branches w' with
            | Some (r, branches', w'', evs') => Some (r, branches', w'', (evs ++ evs')%list)
            | None => None
            end
      | (inl error, w', evs) => Some (inl error, branches, w', evs)
      end
  end.

(** [fullPages p w pages p' w' evs]: starting at page [p] in world [w], the
    pages [pages] are fetched one after the other, each with at least
    [per_page] items, and the next page to fetch is [p'] in world [w']. *)
Inductive fullPages : Z -> W -> list (list Branch) -> Z -> W -> list event -> Prop :=
| fullPages_nil (p : Z) (w : W) : fullPages p w [] p w []
| fullPages_cons (p : Z) (w : W) (data : list Branch) (w1 : W) (evs1 : list event)
    (rest : list (list Branch)) (p' : Z) (w' : W) (evs : list event) :
    fetchPage p w = (inr data, w1, evs1) ->
    per_page_const <= Z.of_nat (length data) ->
    fullPages (p + 1) w1 rest p' w' evs ->
    fullPages p w (data :: rest) p' w' (evs1 ++ evs)%list.

Definition getAllBranches (fuel : nat) (w : W)
  : option (list Branch * W * list event) :=
  match pages_loop fuel 1 [] w with
  | Some (inr _, branches, w', evs) => Some (branches, w', evs)
  | Some (inl error, branches, w', evs) =>
      Some (branches, w',
            (evs ++ [Warning ("Error fetching branches: " ++ failure_toString error)])%list)
  | None => None
  end.

End Enumerate.

(** ** [run] *)

(** [Array.prototype.sort] with the comparator
    [(a, b) => b.daysSinceLastCommit - a.daysSinceLastCommit].  The sort is
    stable and, for a consistent comparator, its result is the stable
    ordering; insertion from the right computes it.  A comparator result of
    [NaN] counts as zero. *)
Definition compareFn (a b : StaleBranch) : JS.number :=
  JS.sub (daysSinceLastCommit b) (daysSinceLastCommit a).

Definition not_after (a b : StaleBranch) : bool :=
  match compareFn a b with
  | JS.Num v => Qle_bool v 0
  | JS.NaN => true
  end.

Fixpoint sort_insert (x : StaleBranch) (l : list StaleBranch) : list StaleBranch :=
  match l with
  | [] => [x]
  | y :: l' => if not_after x y then x :: l else y :: sort_insert x l'
  end.

Fixpoint sort (l : list StaleBranch) : list StaleBranch :=
  match l with
  | [] => []
  | x :: l' => sort_insert x (sort l')
  end.

(** A number that is not [NaN]. *)
Definition finite (a : JS.number) : Prop :=
  match a with
  | JS.Num _ => True
  | JS.NaN => False
  end.

(** [x] is at least as stale as [y]. *)
Definition descending (x y : StaleBranch) : Prop :=
  JS.ge (daysSinceLastCommit x) (daysSinceLastCommit y) = true.

(** The keys of an author map are distinct and every group has a record. *)
Definition well_formed (o : JS.object (list StaleBranch)) : Prop :=
  NoDup (JS.keys o) /\ forall k g, JS.get o k = Some g -> g <> [].

(** [branches.slice(i, j)] *)
Definition slice {A : Type} (i j : nat) (l : list A) : list A :=
  firstn (j - i) (skipn i l).

(** The order in which the concurrent tasks of a batch complete is not fixed
    by the program.  A list of choices determines it: each task, from the
    last to the first, is placed at the chosen position among the tasks after
    it.  Every list of choices gives a rearrangement of the batch and every
    rearrangement arises from one; the empty list keeps the batch order. *)
Fixpoint insert_at {A : Type} (k : nat) (x : A) (l : list A) : list A :=
  match k, l with
  | S k', y :: l' => y :: insert_at k' x l'
  | _, _ => x :: l
  end.

Fixpoint arrange {A : Type} (choices : list nat) (l : list A) : list A :=
  match l with
  | [] => []
  | x :: l' => insert_at (hd 0%nat choices) x (arrange (tl choices) l')
  end.

(** [new Date(s).getTime()]: [NaN] for the empty string and for any string
    the engine's date parser rejects, else milliseconds since the epoch. *)
Definition getTime (Date_parse : string -> option Z) (s : string) : JS.number :=
  if String.eqb s "" then JS.NaN
  else match Date_parse s with
       | Some ms => JS.of_Z ms
       | None => JS.NaN
       end.

Definition batchSize : nat := 10.

(** The errors of line 54, with the messages of the engine of the action's
    runtime: [push] called on a value that has none, and on [undefined]. *)
Definition push_is_not_a_function : Error :=
  mkError "TypeError" "staleBranchesByAuthor[author].push is not a function" None.

Definition push_of_undefined : Error :=
  mkError "TypeError" "Cannot read properties of undefined (reading 'push')" None.

Definition msPerDay : positive := 86400000.

Definition separator : string :=
  LF ++ LF ++ "====================" ++ LF ++ LF.

Section Run.

Context {W : Type}.

(** The environment of a run. *)
Variable parseInt : string -> JS.number.
Variable Date_parse : string -> option Z.
(** [Date.now()] *)
Variable now : Z.
(** [octokit.rest.repos.getCommit] for a ref: the outcome of each successive
    call.  The tasks of a batch run concurrently; the outcome of a call
    depends on the ref and on how many calls were made for it. *)
Variable getCommit : string -> nat -> Error + CommitInfo.
(** The completion order of the batch that starts at a given index. *)
Variable completion : nat -> list nat.
(** [axios.default.post] *)
Variable post : string -> string -> W -> (Error + unit) * W.

(** The threshold and the webhook URL the setup has read, and the
    environment variable of the mentions. *)
Variable daysBeforeStale : JS.number.
Variable slackWebhookUrl : string.
Variable SLACK_USERS : option string.

(** The retried [getCommit] of a branch. *)
Definition fetchCommit (branch : Branch) : (failure + CommitInfo) * list event :=
  let '(r, _, evs) :=
    makeRequestWithRetry parseInt
      (fun calls : nat => (getCommit (sha branch) calls, S calls))
      defaultMaxRetries 0%nat in
  (r, evs).

(** Lines 44-45. *)
Definition daysSince (commitInfo : CommitInfo) : JS.number :=
  let commitDate := getTime Date_parse (JS.or_default (committer_date commitInfo) "") in
  JS.div (JS.sub (JS.of_Z now) commitDate) msPerDay.

Definition authorOf (commitInfo : CommitInfo) : string :=
  JS.or_default (author_login commitInfo) "UNKNOWN".

(** Lines 50-57.  [staleBranchesByAuthor] is a plain object, created by [{}]
    at line 25.  The test of line 50 creates the author's array only when
    [staleBranchesByAuthor[author]] is falsy, that is [undefined]: an array
    and a member of [Object.prototype] are truthy.  Line 54 then calls [push]
    on what the lookup finds: on the author's array, or, for an author named
    like a member of [Object.prototype], on that member, which has no [push],
    so that the call throws a [TypeError]. *)
Definition pushStale (o : JS.object (list StaleBranch)) (author : string)
           (r : StaleBranch) : Error + JS.object (list StaleBranch) :=
  let o := match JS.index o author with
           | JS.Undefined => JS.set o author []
           | _ => o
           end in
  match JS.index o author with
  | JS.Own group => inr (JS.set o author (group ++ [r])%list)
  | JS.Inherited _ => inl push_is_not_a_function
  | JS.Undefined => inl push_of_undefined
  end.

(** The task of one branch, from the moment its request settles: the [try]
    block of lines 36-58 and the [catch] of lines 59-61, which receives the
    error of the retried fetch and the error of the push alike. *)
Definition processBranch (st : JS.object (list StaleBranch) * list event)
           (branch : Branch) : JS.object (list StaleBranch) * list event :=
  let '(staleBranchesByAuthor, log) := st in
  match fetchCommit branch with
  | (inr commitInfo, evs) =>
      let daysSinceLastCommit := daysSince commitInfo in
      if JS.ge daysSinceLastCommit daysBeforeStale then
        let author := authorOf commitInfo in
        match pushStale staleBranchesByAuthor author
                (mkStaleBranch (name branch) daysSinceLastCommit) with
        | inr staleBranchesByAuthor' => (staleBranchesByAuthor', (log ++ evs)%list)
        | inl error =>
            (staleBranchesByAuthor,
             (log ++ evs ++
                [Warning ("Failed to process branch " ++ name branch ++ ": "
                          ++ Error_toString error)])%list)
        end
      else (staleBranchesByAuthor, (log ++ evs)%list)
  | (inl error, evs) =>
      (staleBranchesByAuthor,
       (log ++ evs ++
          [Warning ("Failed to process branch " ++ name branch ++ ": "
                    ++ failure_toString error)])%list)
  end.

(** The author map after a push into the author's own array, created first
    when there is none. *)
Definition pushOwn (o : JS.object (list StaleBranch)) (author : string)
           (r : StaleBranch) : JS.object (list StaleBranch) :=
  match JS.get o author with
  | Some group => JS.set o author (group ++ [r])%list
  | None => JS.set o author [r]
  end.

(** No own key of the author map names a member of [Object.prototype]: the
    map starts empty and line 51 creates a key only when the lookup finds
    nothing. *)
Definition plain_keys (o : JS.object (list StaleBranch)) : Prop :=
  forall k, In k (JS.keys o) -> JS.inherited k = false.

(** What a branch adds to the group of an author and to the log, whatever
    the state its task finds, as long as the keys of the author map are
    plain: a record, when the commit was fetched, meets the threshold and
    its author does not name a member of [Object.prototype]. *)
Definition recordsOf (author : string) (branch : Branch) : list StaleBranch :=
  match fetchCommit branch with
  | (inr commitInfo, _) =>
      if (JS.ge (daysSince commitInfo) daysBeforeStale
          && String.eqb (authorOf commitInfo) author
          && negb (JS.inherited author))%bool
      then [mkStaleBranch (name branch) (daysSince commitInfo)]
      else []
  | (inl _, _) => []
  end.

Definition eventsOf (branch : Branch) : list event :=
  match fetchCommit branch with
  | (inr commitInfo, evs) =>
      if (JS.ge (daysSince commitInfo) daysBeforeStale
          && JS.inherited (authorOf commitInfo))%bool
      then (evs ++ [Warning ("Failed to process branch " ++ name branch ++ ": "
                             ++ Error_toString push_is_not_a_function)])%list
      else evs
  | (inl error, evs) =>
      (evs ++ [Warning ("Failed to process branch " ++ name branch ++ ": "
                        ++ failure_toString error)])%list
  end.

(** The batch loop, lines 30-64.  The index advances by [batchSize], so the
    loop ends within [length branches] iterations. *)
Fixpoint batches_loop (fuel : nat) (i : nat) (branches : list Branch)
         (st : JS.object (list StaleBranch) * list event)
  : JS.object (list StaleBranch) * list event :=
  match fuel with
  | O => st
  | S fuel' =>
      if (i <? length branches)%nat then
        let batchBranches := slice i (i + batchSize) branches in
        batches_loop fuel' (i + batchSize) branches
          (fold_left processBranch (arrange (completion i) batchBranches) st)
      else st
  end.

Definition classify (branches : list Branch)
  : JS.object (list StaleBranch) * list event :=
  batches_loop (length branches) 0 branches ([], []).

(** Lines 66-68: every group sorted in place. *)
Definition sortGroups (o : JS.object (list StaleBranch))
  : JS.object (list StaleBranch) :=
  map (fun kv => (fst kv, sort (snd kv))) o.

(** The author groups after sorting. *)
Definition digest (branches : list Branch) : JS.object (list StaleBranch) :=
  sortGroups (fst (classify branches)).

(** The author's own array, as the loops of lines 66-79 read it for the keys
    they visit; the empty list when the author has none. *)
Definition group (o : JS.object (list StaleBranch)) (author : string)
  : list StaleBranch :=
  match JS.get o author with
  | Some g => g
  | None => []
  end.

(** Lines 71-75. *)
Definition formatMessage (author : string) (staleBranches : list StaleBranch)
  : string :=
  let message :=
    getSlackUsername SLACK_USERS author ++ " you have "
      ++ JS.Z_toString (Z.of_nat (length staleBranches)) ++ " stale branches:" ++ LF in
  let message :=
    fold_left
      (fun message staleBranch =>
         message ++ "`" ++ branchName staleBranch ++ "` - stale by "
           ++ parseTime (daysSinceLastCommit staleBranch) ++ LF)
      staleBranches message in
  message ++ separator.

Definition payloadFor (o : JS.object (list StaleBranch)) (author : string) : string :=
  JS.stringify_text (formatMessage author (group o author)).

(** Lines 70-79: one POST per key; a POST that throws ends the loop. *)
Fixpoint notify (authors : list string) (o : JS.object (list StaleBranch)) (w : W)
  : (Error + unit) * W * list event :=
  match authors with
  | [] => (inr tt, w, [])
  | author :: rest =>
      let payload := payloadFor o author in
      match post slackWebhookUrl payload w with
      | (inr _, w') =>
          let '(r, w'', evs) := notify rest o w' in
          (r, w'', Post slackWebhookUrl payload :: evs)
      | (inl error, w') => (inl error, w', [Post slackWebhookUrl payload])
      end
  end.

(** The part of [run] after the branches are known. *)
Definition notifyStale (branches : list Branch) (w : W) : W * list event :=
  let '(staleBranchesByAuthor, log) := classify branches in
  let staleBranchesByAuthor := sortGroups staleBranchesByAuthor in
  match notify (JS.for_in_keys staleBranchesByAuthor) staleBranchesByAuthor w with
  | (inr _, w', evs) => (w', (log ++ evs)%list)
  | (inl error, w', evs) => (w', (log ++ evs ++ [SetFailed (message error)])%list)
  end.

End Run.

(** The error of line 18. *)
Definition token_not_defined : Error :=
  mkError "Error" "STALE_BRANCH_TOKEN environment variable is not defined" None.

(** What lines 11-21 read, in the order they read it; each step can throw:
    the two required inputs, the token, the client built from the token and
    the repository of the workflow. *)
Section Setup.

(** [core.getInput(name, { required: true })]: the value of the input, or the
    error thrown when the input is not supplied. *)
Variable getInput : string -> Error + string.
(** [github.getOctokit(token)]: the error thrown when no client can be built
    from the token.  The client itself is used through [listBranches] and
    [getCommit]. *)
Variable getOctokit : string -> Error + unit.
(** [github.context.repo]: the error thrown when the repository of the
    workflow is not known. *)
Variable context_repo : Error + unit.

(** The raw value of [days-before-stale] and the webhook URL. *)
Definition setup (STALE_BRANCH_TOKEN : option string) : Error + string * string :=
  match getInput "days-before-stale" with
  | inl error => inl error
  | inr days =>
      match getInput "slack-webhook-url" with
      | inl error => inl error
      | inr slackWebhookUrl =>
          match STALE_BRANCH_TOKEN with
          | None => inl token_not_defined
          | Some token =>
              match getOctokit token with
              | inl error => inl error
              | inr _ =>
                  match context_repo with
                  | inl error => inl error
                  | inr _ => inr (days, slackWebhookUrl)
                  end
              end
          end
      end
  end.

End Setup.

Section Main.

Context {W : Type}.
Variable parseInt : string -> JS.number.
Variable Date_parse : string -> option Z.
Variable now : Z.
Variable listBranches : ListBranchesParams -> W -> (Error + list Branch) * W.
Variable getCommit : string -> nat -> Error + CommitInfo.
Variable completion : nat -> list nat.
Variable post : string -> string -> W -> (Error + unit) * W.
Variable getInput : string -> Error + string.
Variable getOctokit : string -> Error + unit.
Variable context_repo : Error + unit.
Variable SLACK_USERS : option string.

(** [run]: an error of the setup or of a POST reaches the [catch] of line 80.
    [None]: the enumeration has not ended within [fuel] pages. *)
Definition run (STALE_BRANCH_TOKEN : option string) (fuel : nat) (w : W)
  : option (W * list event) :=
  match setup getInput getOctokit context_repo STALE_BRANCH_TOKEN with
  | inl error => Some (w, [SetFailed (message error)])
  | inr (days, slackWebhookUrl) =>
      let daysBeforeStale := parseInt days in
      match getAllBranches parseInt listBranches fuel w with
      | Some (branches, w', evs) =>
          let '(w'', evs') :=
            notifyStale parseInt Date_parse now getCommit completion post
              daysBeforeStale slackWebhookUrl SLACK_USERS branches w' in
          Some (w'', (evs ++ evs')%list)
      | None => None
      end
  end.

End Main.

(** ** The earlier revision of the action

    The repository also carries the revision that precedes the retrying
    wrapper: pages are fetched in a [do ... while] loop without a [catch], and
    the age of a branch is computed by [getDaysSinceLastCommit], which answers
    [-1] when the commit has no committer date. *)

Module Legacy.

Section Legacy.

Context {W : Type}.
Variable listBranches : ListBranchesParams -> W -> (Error + list Branch) * W.
Variable Date_parse : string -> option Z.
Variable now : Z.

(** [do { ... } while (response.data.length === 100)]; an error of a page
    propagates. *)
Fixpoint pages_loop (fuel : nat) (page : Z) (branches : list Branch) (w : W)
  : option ((Error + list Branch) * W) :=
  match fuel with
  | O => None
  | S fuel' =>
      match listBranches (mkParams false 100 page) w with
      | (inr data, w') =>
          let branches := (branches ++ data)%list in
          if Z.of_nat (length data) =? 100
          then pages_loop fuel' (page + 1) branches w'
          else Some (inr branches, w')
      | (inl error, w') => Some (inl error, w')
      end
  end.

Definition getAllBranches (fuel : nat) (w : W)
  : option ((Error + list Branch) * W) :=
  pages_loop fuel 1 [] w.

(** [getDaysSinceLastCommit], from the response of [getCommit] on. *)
Definition getDaysSinceLastCommit (commitInfo : CommitInfo) : JS.number :=
  match committer_date commitInfo with
  | None => JS.of_Z (-1)
  | Some date =>
      JS.div (JS.sub (JS.of_Z now) (getTime Date_parse date)) msPerDay
  end.

(** The filter of line 37. *)
Definition isStale (daysBeforeStale : JS.number) (commitInfo : CommitInfo) : bool :=
  JS.ge (getDaysSinceLastCommit commitInfo) daysBeforeStale.

End Legacy.

End Legacy.

(** ** A repository server and sample data

    The branch listing of the hosting service, as the enumeration sees it:
    the non-protected branches of the repository, cut into pages of the
    requested size.  The world is the list of the requests received. *)

Definition served (repository : list Branch) (params : ListBranchesParams)
  : list Branch :=
  let visible :=
    if param_protected params then filter protected repository
    else filter (fun b => negb (protected b)) repository in
  let size := Z.to_nat (per_page params) in
  slice ((Z.to_nat (page params) - 1) * size) (Z.to_nat (page params) * size) visible.

(** The branches a listing with [protected: false] shows. *)
Definition visible (repository : list Branch) : list Branch :=
  filter (fun b => negb (protected b)) repository.

(** The request for a page, as [getAllBranches] builds it. *)
Definition pageRequest (p : nat) : ListBranchesParams :=
  mkParams false 100 (Z.of_nat p).

Definition pagedServer (repository : list Branch) (params : ListBranchesParams)
           (requests : list ListBranchesParams)
  : (Error + list Branch) * list ListBranchesParams :=
  (inr (served repository params), (requests ++ [params])%list).

(** A repository of [n] branches [b0 .. b(n-1)]. *)
Definition sampleBranch (i : nat) : Branch :=
  mkBranch ("b" ++ JS.Z_toString (Z.of_nat i)) ("sha" ++ JS.Z_toString (Z.of_nat i)) false.

Definition sampleRepository (n : nat) : list Branch := map sampleBranch (seq 0 n).

(** A date parser that knows a few ISO dates. *)
Definition sampleDates : list (string * Z) :=
  [("2024-01-01T00:00:00Z", 1704067200000);
   ("2024-01-06T00:00:00Z", 1704499200000);
   ("2024-02-03T00:00:00Z", 1706918400000);
   ("2024-02-05T00:00:00Z", 1707091200000);
   ("2024-02-10T00:00:00Z", 1707523200000)].

Definition sampleDate_parse (s : string) : option Z := JS.get sampleDates s.

(** 2024-02-15T00:00:00Z *)
Definition sampleNow : Z := 1707955200000.

Definition sample_parseInt (s : string) : JS.number :=
  match JS.digits_value 0 s with
  | Some n => if String.eqb s "" then JS.NaN else JS.of_Z (Z.of_N n)
  | None => JS.NaN
  end.

Definition notFound : Error := mkError "HttpError" "Not Found" (Some (mkResponse 404 None)).

Definition rateLimited (hint : string) : Error :=
  mkError "HttpError" "API rate limit exceeded" (Some (mkResponse 403 (Some hint))).

Definition serverError : Error :=
  mkError "HttpError" "Server Error" (Some (mkResponse 500 None)).

(** Commits by ref; an unknown ref is not found, at every call. *)
Definition sampleCommits : list (string * CommitInfo) :=
  [("sha-young", mkCommitInfo (Some "2024-02-05T00:00:00Z") (Some "carol"));
   ("sha-old", mkCommitInfo (Some "2024-01-01T00:00:00Z") (Some "carol"));
   ("sha-5", mkCommitInfo (Some "2024-02-10T00:00:00Z") (Some "dave"));
   ("sha-40", mkCommitInfo (Some "2024-01-06T00:00:00Z") (Some "dave"));
   ("sha-12", mkCommitInfo (Some "2024-02-03T00:00:00Z") (Some "dave"));
   ("sha-nodate", mkCommitInfo None (Some "erin"));
   ("sha-baddate", mkCommitInfo (Some "yesterday") (Some "erin"));
   ("sha-anon", mkCommitInfo (Some "2024-01-01T00:00:00Z") None);
   ("sha-ctor", mkCommitInfo (Some "2024-01-01T00:00:00Z") (Some "constructor"))].

Definition sample_getCommit (ref : string) (calls : nat) : Error + CommitInfo :=
  match JS.get sampleCommits ref with
  | Some c => inr c
  | None => inl notFound
  end.

(** A webhook that accepts every message, and one that rejects every
    message. *)
Definition acceptingWebhook {W : Type} (url payload : string) (w : W)
  : (Error + unit) * W :=
  (inr tt, w).


(** A request that fails [n] times with the given errors, then succeeds. *)
Definition flaky {T : Type} (errors : list Error) (value : T) (calls : nat)
  : (Error + T) * nat :=
  (match nth_error errors calls with
   | Some e => inl e
   | None => inr value
   end, S calls).

(** A server that serves the first [good] pages and fails on the others. *)
Definition brokenServer (repository : list Branch) (good : Z)
           (params : ListBranchesParams) (requests : list ListBranchesParams)
  : (Error + list Branch) * list ListBranchesParams :=
  if page params <=? good then pagedServer repository params requests
  else (inl serverError, (requests ++ [params])%list).

Definition no_listBranches (params : ListBranchesParams) (w : nat)
  : (Error + list Branch) * nat := (inr [], w).

Definition twoBranches : list Branch :=
  [mkBranch "young" "sha-young" false; mkBranch "old" "sha-old" false].

Definition threeBranches : list Branch :=
  [mkBranch "five" "sha-5" false; mkBranch "forty" "sha-40" false;
   mkBranch "twelve" "sha-12" false].

(** A branch whose last commit, 45 days old, is by the user ["constructor"],
    beside one by ["carol"]. *)
Definition inheritedAuthor : list Branch :=
  [mkBranch "old" "sha-old" false; mkBranch "legacy-api" "sha-ctor" false].

Definition sequential (i : nat) : list nat := [].

(** The inputs of a workflow that supplies both, and a client that is built
    from every token but the empty one. *)
Definition sampleInputs (days url : string) (name : string) : Error + string :=
  if String.eqb name "days-before-stale" then inr days
  else if String.eqb name "slack-webhook-url" then inr url
  else inl (mkError "Error" ("Input required and not supplied: " ++ name) None).

(** The inputs of a workflow that supplies none. *)
Definition noInputs (name : string) : Error + string :=
  inl (mkError "Error" ("Input required and not supplied: " ++ name) None).

Definition sample_getOctokit (token : string) : Error + unit :=
  if String.eqb token ""
  then inl (mkError "Error" "Parameter token or opts.auth is required" None)
  else inr tt.

(** ** Further sample data *)

(** A [SLACK_USERS] value: the mappings [login:handle] joined by commas. *)
Fixpoint joinMappings (entries : list (string * string)) : string :=
  match entries with
  | [] => ""
  | [(login, handle)] => login ++ ":" ++ handle
  | (login, handle) :: rest => login ++ ":" ++ handle ++ "," ++ joinMappings rest
  end.

(** The character does not occur in the string. *)
Fixpoint free_of (c : ascii) (s : string) : bool :=
  match s with
  | EmptyString => true
  | String x s' => negb (Ascii.eqb x c) && free_of c s'
  end.

(** A login or a handle that can stand in a mapping: no comma, no colon. *)
Definition plain (s : string) : bool := free_of "," s && free_of ":" s.

(** The number of requests for a page among the requests received. *)
Definition requestsFor (p : Z) (requests : list ListBranchesParams) : nat :=
  length (filter (fun r => page r =? p) requests).

(** A paged server with transient failures: the first [failures p] requests
    for page [p] are answered with an error, the later ones with the page. *)
Definition flakyServer (repository : list Branch) (failures : Z -> nat)
           (params : ListBranchesParams) (requests : list ListBranchesParams)
  : (Error + list Branch) * list ListBranchesParams :=
  (if (requestsFor (page params) requests <? failures (page params))%nat
   then inl serverError
   else inr (served repository params),
   (requests ++ [params])%list).

(** A repository with a protected branch. *)
Definition mixedRepository : list Branch :=
  [mkBranch "main" "sha-main" true; mkBranch "old" "sha-old" false;
   mkBranch "young" "sha-young" false].

(** Page 2 fails three times before it is served. *)
Definition sampleFailures (p : Z) : nat := if p =? 2 then 3%nat else 0%nat.

(** An event of the retrying wrapper: a log line or a wait. *)
Definition quiet (e : event) : Prop :=
  match e with
  | Info _ | Sleep _ => True
  | _ => False
  end.

(** The record a branch contributes to the digest, whoever the author: one
    when its commit was fetched, meets the threshold and has an author that
    names no member of [Object.prototype], none otherwise. *)
Definition staleRecords (parseInt : string -> JS.number)
           (Date_parse : string -> option Z) (now : Z)
           (getCommit : string -> nat -> Error + CommitInfo)
           (daysBeforeStale : JS.number) (branch : Branch) : list StaleBranch :=
  match fetchCommit parseInt getCommit branch with
  | (inr commitInfo, _) =>
      if (JS.ge (daysSince Date_parse now commitInfo) daysBeforeStale
          && negb (JS.inherited (authorOf commitInfo)))%bool
      then [mkStaleBranch (name branch) (daysSince Date_parse now commitInfo)]
      else []
  | (inl _, _) => []
  end.

(** The warning a branch causes: one when its retried fetch throws, with
    the error of the fetch, and one when its commit meets the threshold and
    the author names a member of [Object.prototype], with the error of the
    push. *)
Definition warningOf (parseInt : string -> JS.number)
           (Date_parse : string -> option Z) (now : Z)
           (getCommit : string -> nat -> Error + CommitInfo)
           (daysBeforeStale : JS.number) (branch : Branch)
  : list string :=
  match fetchCommit parseInt getCommit branch with
  | (inl error, _) =>
      ["Failed to process branch " ++ name branch ++ ": " ++ failure_toString error]
  | (inr commitInfo, _) =>
      if (JS.ge (daysSince Date_parse now commitInfo) daysBeforeStale
          && JS.inherited (authorOf commitInfo))%bool
      then ["Failed to process branch " ++ name branch ++ ": "
            ++ Error_toString push_is_not_a_function]
      else []
  end.

(** ** [run] of the earlier revision

    The commits of all branches are fetched concurrently under one
    [Promise.all], without retry and without a [catch] per branch; the owner
    of each stale branch is then looked up with [getBranch], one branch after
    the other.  Any error reaches the [catch] of [run]. *)

Module LegacyRun.

(** [Promise.all]: rejected with the reason of the first promise to reject,
    else fulfilled with the values in the order of the promises. *)
Fixpoint firstRejection {A : Type} (settled : list (Error + A)) : option Error :=
  match settled with
  | [] => None
  | inl e :: _ => Some e
  | inr _ :: rest => firstRejection rest
  end.

Fixpoint values {A : Type} (settled : list (Error + A)) : list A :=
  match settled with
  | [] => []
  | inl _ :: rest => values rest
  | inr a :: rest => a :: values rest
  end.

(** [settle] gives the order in which the promises settle. *)
Definition Promise_all {A : Type} (settle : list nat) (promises : list (Error + A))
  : Error + list A :=
  match firstRejection (arrange settle promises) with
  | Some e => inl e
  | None => inr (values promises)
  end.

Section LegacyRun.

Context {W : Type}.
Variable Date_parse : string -> option Z.
(** [Date.now()] in the task of a ref. *)
Variable nowAt : string -> Z.
Variable listBranches : ListBranchesParams -> W -> (Error + list Branch) * W.
(** [getCommit] for a ref, called once. *)
Variable getCommit : string -> Error + CommitInfo.
Variable settle : list nat.
(** [getBranch] for a branch name: [data.commit.author?.login]. *)
Variable getBranch : string -> W -> (Error + option string) * W.
Variable post : string -> string -> W -> (Error + unit) * W.
Variable daysBeforeStale : JS.number.
Variable SLACK_USERS : option string.

(** Lines 29-35: the task of one branch. *)
Definition task (branch : Branch) : Error + (Branch * JS.number) :=
  match getCommit (sha branch) with
  | inl e => inl e
  | inr commitInfo =>
      inr (branch,
           Legacy.getDaysSinceLastCommit Date_parse (nowAt (sha branch)) commitInfo)
  end.

(** Lines 28-38. *)
Definition staleBranches (branches : list Branch)
  : Error + list (Branch * JS.number) :=
  match Promise_all settle (map task branches) with
  | inl e => inl e
  | inr all => inr (filter (fun b => JS.ge (snd b) daysBeforeStale) all)
  end.

(** Lines 40-60; the push of line 56 is the one of the later revision, and
    its error is not caught here. *)
Fixpoint groupByOwner (stale : list (Branch * JS.number))
         (staleBranchesByAuthor : JS.object (list StaleBranch)) (w : W)
  : (Error + JS.object (list StaleBranch)) * W :=
  match stale with
  | [] => (inr staleBranchesByAuthor, w)
  | (branch, days) :: rest =>
      match getBranch (name branch) w with
      | (inl e, w') => (inl e, w')
      | (inr login, w') =>
          let branchOwner := JS.or_default login "UNKNOWN" in
          match pushStale staleBranchesByAuthor branchOwner
                  (mkStaleBranch (name branch) days) with
          | inl e => (inl e, w')
          | inr staleBranchesByAuthor' => groupByOwner rest staleBranchesByAuthor' w'
          end
      end
  end.

(** The part of [run] after the setup, with the webhook URL it read. *)
Definition main (slackWebhookUrl : string) (fuel : nat) (w : W)
  : option (W * list event) :=
  match Legacy.getAllBranches listBranches fuel w with
  | None => None
  | Some (inl e, w1) => Some (w1, [SetFailed (message e)])
  | Some (inr branches, w1) =>
      match staleBranches branches with
      | inl e => Some (w1, [SetFailed (message e)])
      | inr stale =>
          match groupByOwner stale [] w1 with
          | (inl e, w2) => Some (w2, [SetFailed (message e)])
          | (inr staleBranchesByAuthor, w2) =>
              let staleBranchesByAuthor := sortGroups staleBranchesByAuthor in
              match notify post slackWebhookUrl SLACK_USERS
                      (JS.for_in_keys staleBranchesByAuthor)
                      staleBranchesByAuthor w2 with
              | (inr _, w3, evs) => Some (w3, evs)
              | (inl e, w3, evs) =>
                  Some (w3, (evs ++ [SetFailed (message e)])%list)
              end
          end
      end
  end.

End LegacyRun.

Section LegacyMain.

Context {W : Type}.
Variable parseInt : string -> JS.number.
Variable Date_parse : string -> option Z.
Variable nowAt : string -> Z.
Variable listBranches : ListBranchesParams -> W -> (Error + list Branch) * W.
Variable getCommit : string -> Error + CommitInfo.
Variable settle : list nat.
Variable getBranch : string -> W -> (Error + option string) * W.
Variable post : string -> string -> W -> (Error + unit) * W.
Variable getInput : string -> Error + string.
Variable getOctokit : string -> Error + unit.
Variable context_repo : Error + unit.
Variable SLACK_USERS : option string.

(** [run]: lines 12-22 are those of the later revision. *)
Definition run (STALE_BRANCH_TOKEN : option string) (fuel : nat) (w : W)
  : option (W * list event) :=
  match setup getInput getOctokit context_repo STALE_BRANCH_TOKEN with
  | inl error => Some (w, [SetFailed (message error)])
  | inr (days, slackWebhookUrl) =>
      main Date_parse nowAt listBranches getCommit settle getBranch post
        (parseInt days) SLACK_USERS slackWebhookUrl fuel w
  end.

End LegacyMain.

End LegacyRun.

(** Commits by ref for the earlier revision; an unknown ref is not found. *)
Definition legacy_getCommit (ref : string) : Error + CommitInfo :=
  match JS.get sampleCommits ref with
  | Some c => inr c
  | None => inl notFound
  end.

Definition legacy_getBranch {W : Type} (branchName : string) (w : W)
  : (Error + option string) * W :=
  (inr (Some "carol"), w).

Definition withGhost : list Branch :=
  [mkBranch "young" "sha-young" false; mkBranch "ghost" "sha-unknown" false;
   mkBranch "old" "sha-old" false].

(** An event other than [core.setFailed]. *)
Definition not_failed (e : event) : Prop :=
  match e with
  | SetFailed _ => False
  | _ => True
  end.

(** In the earlier revision: from page [p] in world [w] the pages [pages] are
    served one after the other, each with exactly 100 items, and the next page
    to request is [p'] in world [w']. *)
Inductive legacyFullPages {W : Type}
          (listBranches : ListBranchesParams -> W -> (Error + list Branch) * W)
  : Z -> W -> list (list Branch) -> Z -> W -> Prop :=
| legacyFullPages_nil (p : Z) (w : W) : legacyFullPages listBranches p w [] p w
| legacyFullPages_cons (p : Z) (w : W) (data : list Branch) (w1 : W)
    (rest : list (list Branch)) (p' : Z) (w' : W) :
    listBranches (mkParams false 100 p) w = (inr data, w1) ->
    length data = 100%nat ->
    legacyFullPages listBranches (p + 1) w1 rest p' w' ->
    legacyFullPages listBranches p w (data :: rest) p' w'.

(** Commits by ref behind two failed calls. *)
Definition recovering_getCommit (ref : string) (calls : nat) : Error + CommitInfo :=
  if (calls <? 2)%nat then inl serverError else sample_getCommit ref calls.

(** * Properties *)

(** ** Numbers *)

Lemma Qred_of_Z (q : Q) (z : Z) : q == inject_Z z -> Qred q = inject_Z z.
Proof.
  intros H. rewrite (Qred_complete _ _ H).
  apply Qred_identity. simpl. apply Z.gcd_1_r.
Qed.

Lemma mul_of_Z (a b : Z) : JS.mul (JS.of_Z a) (JS.of_Z b) = JS.of_Z (a * b).
Proof.
  unfold JS.mul, JS.of_Z. f_equal. apply Qred_of_Z.
  unfold Qeq, inject_Z, Qmult; simpl. reflexivity.
Qed.

(** ** Strings *)

Lemma append_assoc (a b c : string) : (a ++ b) ++ c = a ++ b ++ c.
Proof. induction a as [|x a IH]; simpl; [|rewrite IH]; reflexivity. Qed.

Lemma append_nil_r (a : string) : a ++ "" = a.
Proof. induction a as [|x a IH]; simpl; [|rewrite IH]; reflexivity. Qed.

Lemma free_of_app (c : ascii) (a b : string) :
  free_of c (a ++ b) = (free_of c a && free_of c b)%bool.
Proof.
  induction a as [|x a IH]; simpl; [reflexivity|].
  rewrite IH. destruct (Ascii.eqb x c); reflexivity.
Qed.

(** ** The retrying wrapper *)

Lemma sleeps_app (a b : list event) : sleeps (a ++ b) = (sleeps a ++ sleeps b)%list.
Proof. apply flat_map_app. Qed.

Lemma warnings_app (a b : list event) :
  warnings (a ++ b) = (warnings a ++ warnings b)%list.
Proof. apply flat_map_app. Qed.

Lemma posts_app (a b : list event) : posts (a ++ b) = (posts a ++ posts b)%list.
Proof. apply flat_map_app. Qed.

Section RetryFacts.

Context {W T : Type}.
Variable parseInt : string -> JS.number.
Variable request : W -> (Error + T) * W.
Variable maxRetries : Z.

(** The [catch] block waits once, for the prescribed time. *)
Lemma sleeps_backoff (attempt : Z) (error : Error) :
  sleeps (backoff parseInt attempt error) = [spec_wait parseInt attempt error].
Proof.
  unfold backoff, spec_wait, rate_limited, retryAfter_hint.
  cbv zeta. rewrite mul_of_Z.
  destruct (response error) as [r|]; [|reflexivity].
  destruct (status r =? 403), (retry_after r) as [h|]; try reflexivity.
  destruct (String.eqb h ""); reflexivity.
Qed.

Lemma after_calls_S (n : nat) (w : W) :
  after_calls request (S n) w = snd (request (after_calls request n w)).
Proof.
  revert w. induction n as [|n IH]; intros w; [reflexivity|].
  change (after_calls request (S (S n)) w)
    with (after_calls request (S n) (snd (request w))).
  rewrite IH. reflexivity.
Qed.

(** Failed attempts that are not the last each wait and go on. *)
Lemma retry_loop_fails_with (errors : list Error) :
  forall (fuel : nat) (attempt : Z) (w : W),
    fails_with request errors w ->
    attempt + Z.of_nat (length errors) <= maxRetries ->
    exists evs,
      sleeps evs = spec_waits parseInt attempt errors /\
      retry_loop parseInt request maxRetries (length errors + fuel) attempt w =
        (let '(r, w', evs') :=
           retry_loop parseInt request maxRetries fuel
             (attempt + Z.of_nat (length errors))
             (after_calls request (length errors) w) in
         (r, w', (evs ++ evs')%list)).
Proof.
  induction errors as [|e errors IH]; intros fuel attempt w Hf Hle.
  - exists []. split; [reflexivity|]. simpl. rewrite Z.add_0_r.
    destruct (retry_loop _ _ _ _ _ _) as [[r w'] evs']. reflexivity.
  - destruct Hf as [He Hrest].
    simpl length in *. rewrite Nat2Z.inj_succ in Hle.
    destruct (IH fuel (attempt + 1) (snd (request w)) Hrest ltac:(lia))
      as (evs & Hs & Hloop).
    exists (backoff parseInt attempt e ++ evs)%list. split.
    + rewrite sleeps_app, sleeps_backoff, Hs. reflexivity.
    + change (S (length errors) + fuel)%nat with (S (length errors + fuel)).
      cbn [retry_loop].
      replace (attempt <=? maxRetries) with true by (symmetry; apply Z.leb_le; lia).
      destruct (request w) as [o w1] eqn:Hreq. simpl in He, Hloop, Hrest. subst o.
      replace (attempt =? maxRetries) with false by (symmetry; apply Z.eqb_neq; lia).
      rewrite Hloop. clear Hloop.
      replace (attempt + 1 + Z.of_nat (length errors))
        with (attempt + Z.of_nat (S (length errors))) by lia.
      cbn [after_calls]. rewrite Hreq. cbn [snd].
      destruct (retry_loop _ _ _ _ _ _) as [[r w'] evs'].
      rewrite <- app_assoc. reflexivity.
Qed.

(** Failures followed by a success within the budget. *)
Lemma retry_loop_succeeds (errors : list Error) (v : T) (w : W) :
  fails_with request errors w ->
  outcome request (length errors) w = inr v ->
  Z.of_nat (length errors) < maxRetries ->
  exists evs,
    makeRequestWithRetry parseInt request maxRetries w =
      (inr v, after_calls request (S (length errors)) w, evs) /\
    sleeps evs = spec_waits parseInt 1 errors.
Proof.
  intros Hf Hv Hlt. unfold makeRequestWithRetry.
  destruct (retry_loop_fails_with errors
              (Z.to_nat maxRetries - length errors) 1 w Hf ltac:(lia))
    as (evs & Hs & Hloop).
  replace (length errors + (Z.to_nat maxRetries - length errors))%nat
    with (Z.to_nat maxRetries) in Hloop by lia.
  exists evs. split; [|exact Hs]. rewrite Hloop.
  destruct (Z.to_nat maxRetries - length errors)%nat as [|fuel'] eqn:Hfuel; [lia|].
  cbn [retry_loop].
  replace (1 + Z.of_nat (length errors) <=? maxRetries) with true
    by (symmetry; apply Z.leb_le; lia).
  unfold outcome in Hv. rewrite after_calls_S.
  destruct (request (after_calls request (length errors) w)) as [o w1].
  simpl in Hv. subst o. rewrite app_nil_r. reflexivity.
Qed.

(** Every attempt of the budget fails: the last error is rethrown. *)
Lemma retry_loop_exhausts (errors : list Error) (e : Error) (w : W) :
  fails_with request (errors ++ [e]) w ->
  Z.of_nat (length errors) + 1 = maxRetries ->
  exists evs,
    makeRequestWithRetry parseInt request maxRetries w =
      (inl (Rethrown e), after_calls request (S (length errors)) w, evs) /\
    sleeps evs = spec_waits parseInt 1 errors.
Proof.
  intros Hf Hmax. unfold makeRequestWithRetry.
  assert (Hsplit : fails_with request errors w /\
                   outcome request (length errors) w = inl e).
  { clear Hmax. revert w Hf. induction errors as [|e' errors IH]; intros w Hf.
    - destruct Hf as [He _]. split; [exact I | exact He].
    - destruct Hf as [He Hrest]. destruct (IH _ Hrest) as [H1 H2].
      split; [split; assumption | exact H2]. }
  destruct Hsplit as [Hf' He].
  destruct (retry_loop_fails_with errors 1 1 w Hf' ltac:(lia))
    as (evs & Hs & Hloop).
  replace (length errors + 1)%nat with (Z.to_nat maxRetries) in Hloop by lia.
  exists evs. split; [|exact Hs]. rewrite Hloop.
  cbn [retry_loop].
  replace (1 + Z.of_nat (length errors) <=? maxRetries) with true
    by (symmetry; apply Z.leb_le; lia).
  unfold outcome in He. rewrite after_calls_S.
  destruct (request (after_calls request (length errors) w)) as [o w1].
  simpl in He. subst o.
  replace (1 + Z.of_nat (length errors) =? maxRetries) with true
    by (symmetry; apply Z.eqb_eq; lia).
  rewrite app_nil_r. reflexivity.
Qed.

(** The result of the loop is an outcome of the request. *)
Lemma retry_loop_outcome :
  forall (fuel : nat) (attempt : Z) (w : W),
    Z.of_nat fuel = maxRetries + 1 - attempt ->
    (1 <= fuel)%nat ->
    exists n, (n < fuel)%nat /\
      match fst (fst (retry_loop parseInt request maxRetries fuel attempt w)) with
      | inr v => outcome request n w = inr v
      | inl (Rethrown e) => outcome request n w = inl e /\ n = (fuel - 1)%nat
      | inl MaxRetriesExceeded => False
      end.
Proof.
  induction fuel as [|fuel IH]; intros attempt w Hfuel Hpos; [lia|].
  cbn [retry_loop].
  replace (attempt <=? maxRetries) with true by (symmetry; apply Z.leb_le; lia).
  destruct (request w) as [[e|v] w1] eqn:Hreq.
  - destruct (attempt =? maxRetries) eqn:Hlast.
    + apply Z.eqb_eq in Hlast. exists 0%nat. simpl.
      unfold outcome. simpl. rewrite Hreq. repeat split; lia.
    + apply Z.eqb_neq in Hlast.
      destruct (IH (attempt + 1) w1 ltac:(lia) ltac:(lia)) as (n & Hn & Hres).
      exists (S n). split; [lia|].
      destruct (retry_loop _ _ _ _ _ _) as [[r w'] evs]. simpl in *.
      unfold outcome in *. cbn [after_calls]. rewrite Hreq. cbn [snd].
      destruct r as [[e'|]|v]; [|exact Hres|exact Hres].
      destruct Hres as [H1 H2]. split; [exact H1|lia].
  - exists 0%nat. simpl. unfold outcome. simpl. rewrite Hreq. split; [lia|reflexivity].
Qed.

(** Without a budget the loop body never runs. *)
Lemma makeRequestWithRetry_no_budget (w : W) :
  maxRetries < 1 ->
  makeRequestWithRetry parseInt request maxRetries w = (inl MaxRetriesExceeded, w, []).
Proof.
  intros H. unfold makeRequestWithRetry.
  replace (Z.to_nat maxRetries) with 0%nat by lia. reflexivity.
Qed.

End RetryFacts.

(** C4.  The retrying wrapper takes an operation and a maximum number of
    attempts.  (1) An operation that fails on its first two attempts and
    succeeds on the third, with a budget of at least three attempts (the
    default is five), returns the success value after exactly two waits.
    (2) When every attempt of the budget fails, the error of the last attempt
    is the one thrown to the caller.  (3) After each failed attempt that is
    not the last, the wrapper waits: the hinted number of seconds, in
    milliseconds, when the failure carries status 403 and a retry-after hint,
    and [2^attempt] seconds otherwise. *)
Theorem makeRequestWithRetry_contract :
  forall (W T : Type) (parseInt : string -> JS.number)
         (request : W -> (Error + T) * W) (w : W),
    (forall (e1 e2 : Error) (v : T) (maxRetries : Z),
        3 <= maxRetries ->
        fails_with request [e1; e2] w ->
        outcome request 2 w = inr v ->
        exists evs,
          makeRequestWithRetry parseInt request maxRetries w =
            (inr v, after_calls request 3 w, evs) /\
          sleeps evs = [spec_wait parseInt 1 e1; spec_wait parseInt 2 e2] /\
          length (sleeps evs) = 2%nat) /\
    (forall (errors : list Error) (e : Error) (maxRetries : Z),
        Z.of_nat (length errors) + 1 = maxRetries ->
        fails_with request (errors ++ [e]) w ->
        exists evs,
          makeRequestWithRetry parseInt request maxRetries w =
            (inl (Rethrown e), after_calls request (S (length errors)) w, evs)) /\
    (forall (errors : list Error) (maxRetries : Z),
        Z.of_nat (length errors) < maxRetries ->
        fails_with request errors w ->
        exists later,
          sleeps (snd (makeRequestWithRetry parseInt request maxRetries w)) =
            (spec_waits parseInt 1 errors ++ later)%list).
Proof.
  intros W T parseInt request w. repeat split.
  - intros e1 e2 v maxRetries Hmax Hf Hv.
    destruct (retry_loop_succeeds parseInt request maxRetries [e1; e2] v w Hf Hv)
      as (evs & Hres & Hs); [simpl; lia|].
    exists evs. repeat split; [exact Hres | exact Hs | rewrite Hs; reflexivity].
  - intros errors e maxRetries Hmax Hf.
    destruct (retry_loop_exhausts parseInt request maxRetries errors e w Hf Hmax)
      as (evs & Hres & _).
    exists evs. exact Hres.
  - intros errors maxRetries Hlt Hf.
    destruct (retry_loop_fails_with parseInt request maxRetries errors
                (Z.to_nat maxRetries - length errors) 1 w Hf ltac:(lia))
      as (evs & Hs & Hloop).
    replace (length errors + (Z.to_nat maxRetries - length errors))%nat
      with (Z.to_nat maxRetries) in Hloop by lia.
    unfold makeRequestWithRetry. rewrite Hloop. clear Hloop.
    destruct (retry_loop _ _ _ _ _ _) as [[r w'] evs'].
    exists (sleeps evs'). cbv beta iota zeta. cbn [snd].
    rewrite sleeps_app, Hs. reflexivity.
Qed.

Lemma makeRequestWithRetry_contract_witness :
  (exists evs,
      makeRequestWithRetry sample_parseInt (flaky [serverError; rateLimited "7"] 42)
        defaultMaxRetries 0%nat = (inr 42, 3%nat, evs) /\
      sleeps evs = [JS.of_Z 2000; JS.of_Z 7000] /\
      length (sleeps evs) = 2%nat) /\
  (exists evs,
      makeRequestWithRetry sample_parseInt
        (flaky [serverError; rateLimited "7"; notFound] 42) 3 0%nat =
        (inl (Rethrown notFound), 3%nat, evs)).
Proof.
  exact (conj
           (proj1 (makeRequestWithRetry_contract nat Z sample_parseInt
                     (flaky [serverError; rateLimited "7"] 42) 0%nat)
              serverError (rateLimited "7") 42 defaultMaxRetries
              ltac:(vm_compute; discriminate)
              (conj eq_refl (conj eq_refl I)) eq_refl)
           (proj1 (proj2 (makeRequestWithRetry_contract nat Z sample_parseInt
                            (flaky [serverError; rateLimited "7"; notFound] 42) 0%nat))
              [serverError; rateLimited "7"] notFound 3 eq_refl
              (conj eq_refl (conj eq_refl (conj eq_refl I))))).
Defined.

(** C10.  With a budget of at least one attempt, the wrapper either returns a
    value the operation returned or rethrows an error the operation threw (the
    error of the last attempt of the budget); its own "Max retries exceeded"
    error after the loop is never thrown. *)
Theorem makeRequestWithRetry_result_is_outcome :
  forall (W T : Type) (parseInt : string -> JS.number)
         (request : W -> (Error + T) * W) (maxRetries : Z) (w : W),
    1 <= maxRetries ->
    exists n, (n < Z.to_nat maxRetries)%nat /\
      match fst (fst (makeRequestWithRetry parseInt request maxRetries w)) with
      | inr v => outcome request n w = inr v
      | inl (Rethrown e) =>
          outcome request n w = inl e /\ n = (Z.to_nat maxRetries - 1)%nat
      | inl MaxRetriesExceeded => False
      end.
Proof.
  intros W T parseInt request maxRetries w Hmax.
  apply retry_loop_outcome; lia.
Qed.

Lemma makeRequestWithRetry_result_is_outcome_witness :
  exists n, (n < Z.to_nat 3)%nat /\
    match fst (fst (makeRequestWithRetry sample_parseInt
                      (flaky [serverError; rateLimited "7"; notFound] 42) 3 0%nat)) with
    | inr v =>
        outcome (flaky [serverError; rateLimited "7"; notFound] 42) n 0%nat = inr v
    | inl (Rethrown e) =>
        outcome (flaky [serverError; rateLimited "7"; notFound] 42) n 0%nat = inl e
        /\ n = (Z.to_nat 3 - 1)%nat
    | inl MaxRetriesExceeded => False
    end.
Proof.
  exact (makeRequestWithRetry_result_is_outcome nat Z sample_parseInt
           (flaky [serverError; rateLimited "7"; notFound] 42) 3 0%nat
           ltac:(vm_compute; discriminate)).
Defined.

(** ** Branch enumeration *)

Lemma firstn_firstn_skipn {A : Type} (a b : nat) (l : list A) :
  (firstn a l ++ firstn b (skipn a l))%list = firstn (a + b) l.
Proof.
  revert l. induction a as [|a IH]; intros l; [reflexivity|].
  destruct l as [|x l]; simpl.
  - rewrite firstn_nil. reflexivity.
  - rewrite IH. reflexivity.
Qed.

Section EnumerateFacts.

Context {W : Type}.
Variable parseInt : string -> JS.number.
Variable listBranches : ListBranchesParams -> W -> (Error + list Branch) * W.

Local Abbreviation fetch := (fetchPage parseInt listBranches).
Local Abbreviation loop := (pages_loop parseInt listBranches).
Local Abbreviation full := (fullPages parseInt listBranches).

(** Full pages are accumulated and the loop goes on with the next page. *)
Lemma pages_loop_full_pages (p : Z) (w : W) (pages : list (list Branch))
      (p' : Z) (w' : W) (evs : list event) :
  full p w pages p' w' evs ->
  forall (fuel : nat) (branches : list Branch),
    loop (length pages + fuel) p branches w =
      match loop fuel p' (branches ++ concat pages) w' with
      | Some (r, branches', w'', evs') => Some (r, branches', w'', (evs ++ evs')%list)
      | None => None
      end.
Proof.
  induction 1 as [p w | p w data w1 evs1 rest p' w' evs Hfetch Hfull _ IH];
    intros fuel branches.
  - simpl. rewrite app_nil_r.
    destruct (loop fuel p branches w) as [[[[r b] w''] evs']|]; reflexivity.
  - cbn [length Nat.add pages_loop]. rewrite Hfetch.
    replace (Z.of_nat (length data) <? per_page_const) with false
      by (symmetry; apply Z.ltb_ge; exact Hfull).
    rewrite IH. cbn [concat]. rewrite app_assoc.
    destruct (loop fuel p' _ w') as [[[[r b] w''] evs']|]; [|reflexivity].
    rewrite app_assoc. reflexivity.
Qed.

(** While only full pages have come, the loop has not ended. *)
Lemma pages_loop_not_ended (p : Z) (w : W) (pages : list (list Branch))
      (p' : Z) (w' : W) (evs : list event) :
  full p w pages p' w' evs ->
  forall (fuel : nat) (branches : list Branch),
    (fuel <= length pages)%nat ->
    loop fuel p branches w = None.
Proof.
  induction 1 as [p w | p w data w1 evs1 rest p' w' evs Hfetch Hfull _ IH];
    intros fuel branches Hfuel.
  - simpl in Hfuel. replace fuel with 0%nat by lia. reflexivity.
  - destruct fuel as [|fuel]; [reflexivity|].
    cbn [pages_loop]. rewrite Hfetch.
    replace (Z.of_nat (length data) <? per_page_const) with false
      by (symmetry; apply Z.ltb_ge; exact Hfull).
    rewrite IH by (simpl in Hfuel; lia). reflexivity.
Qed.

(** The loop stops at the first short page. *)
Lemma getAllBranches_short_page (w : W) (pages : list (list Branch)) (p' : Z)
      (w' : W) (evs : list event) (data : list Branch) (w'' : W) (evs' : list event)
      (fuel : nat) :
  full 1 w pages p' w' evs ->
  fetch p' w' = (inr data, w'', evs') ->
  Z.of_nat (length data) < per_page_const ->
  (length pages < fuel)%nat ->
  getAllBranches parseInt listBranches fuel w =
    Some ((concat pages ++ data)%list, w'', (evs ++ evs')%list).
Proof.
  intros Hfull Hfetch Hshort Hfuel. unfold getAllBranches.
  replace fuel with (length pages + S (fuel - S (length pages)))%nat by lia.
  rewrite (pages_loop_full_pages _ _ _ _ _ _ Hfull).
  cbn [pages_loop]. rewrite Hfetch.
  replace (Z.of_nat (length data) <? per_page_const) with true
    by (symmetry; apply Z.ltb_lt; exact Hshort).
  reflexivity.
Qed.

(** A page whose fetch throws ends the loop with the branches so far. *)
Lemma getAllBranches_failed_page (w : W) (pages : list (list Branch)) (p' : Z)
      (w' : W) (evs : list event) (error : failure) (w'' : W) (evs' : list event)
      (fuel : nat) :
  full 1 w pages p' w' evs ->
  fetch p' w' = (inl error, w'', evs') ->
  (length pages < fuel)%nat ->
  getAllBranches parseInt listBranches fuel w =
    Some (concat pages, w'',
          (evs ++ evs' ++
             [Warning ("Error fetching branches: " ++ failure_toString error)])%list).
Proof.
  intros Hfull Hfetch Hfuel. unfold getAllBranches.
  replace fuel with (length pages + S (fuel - S (length pages)))%nat by lia.
  rewrite (pages_loop_full_pages _ _ _ _ _ _ Hfull).
  cbn [pages_loop]. rewrite Hfetch.
  rewrite <- app_assoc. reflexivity.
Qed.

End EnumerateFacts.

(** *** Enumeration against the paged server *)

Section PagedServer.

Variable parseInt : string -> JS.number.
Variable repository : list Branch.

Lemma fetchPage_pagedServer (p : Z) (requests : list ListBranchesParams) :
  fetchPage parseInt (pagedServer repository) p requests =
    (inr (served repository (mkParams false 100 p)),
     (requests ++ [mkParams false 100 p])%list, []).
Proof. reflexivity. Qed.

Lemma served_page (k : nat) :
  served repository (pageRequest (S k)) =
    firstn 100 (skipn (100 * k) (visible repository)).
Proof.
  unfold served, pageRequest, slice, visible. cbn [param_protected per_page page].
  rewrite Nat2Z.id. change (Z.to_nat 100) with 100%nat.
  f_equal; [|f_equal]; lia.
Qed.

Lemma length_served_page (k : nat) :
  length (served repository (pageRequest (S k))) =
    Nat.min 100 (length (visible repository) - 100 * k).
Proof. rewrite served_page, length_firstn, length_skipn. reflexivity. Qed.

(** From page [k + 1] on, with the first [k] pages accumulated, the loop
    fetches the [j + 1] pages that remain and returns every branch. *)
Lemma pages_loop_pagedServer (j : nat) :
  forall (k fuel : nat) (requests : list ListBranchesParams),
    (length (visible repository) / 100 = k + j)%nat ->
    pages_loop parseInt (pagedServer repository) (S j + fuel) (Z.of_nat (S k))
      (firstn (100 * k) (visible repository)) requests =
      Some (inr tt, visible repository,
            (requests ++ map pageRequest (seq (S k) (S j)))%list, []).
Proof.
  induction j as [|j IH]; intros k fuel requests Hpages.
  - cbn [Nat.add pages_loop]. rewrite fetchPage_pagedServer.
    change (mkParams false 100 (Z.of_nat (S k))) with (pageRequest (S k)).
    assert (Hlen := length_served_page k).
    assert (Hshort : (length (visible repository) - 100 * k < 100)%nat).
    { assert (H := Nat.div_mod_eq (length (visible repository)) 100).
      assert (H' := Nat.mod_upper_bound (length (visible repository)) 100).
      lia. }
    replace (Z.of_nat (length (served repository (pageRequest (S k)))) <? per_page_const)
      with true by (symmetry; apply Z.ltb_lt; unfold per_page_const; lia).
    rewrite served_page, firstn_firstn_skipn, firstn_all2 by lia.
    reflexivity.
  - change (S (S j) + fuel)%nat with (S (S j + fuel)).
    cbn [pages_loop]. rewrite fetchPage_pagedServer.
    change (mkParams false 100 (Z.of_nat (S k))) with (pageRequest (S k)).
    assert (Hlen := length_served_page k).
    assert (Hfull : (100 <= length (visible repository) - 100 * k)%nat).
    { assert (H := Nat.div_mod_eq (length (visible repository)) 100). lia. }
    replace (Z.of_nat (length (served repository (pageRequest (S k)))) <? per_page_const)
      with false by (symmetry; apply Z.ltb_ge; unfold per_page_const; lia).
    rewrite served_page, firstn_firstn_skipn.
    replace (100 * k + 100)%nat with (100 * S k)%nat by lia.
    replace (Z.of_nat (S k) + 1) with (Z.of_nat (S (S k))) by lia.
    rewrite IH by lia.
    rewrite <- app_assoc. reflexivity.
Qed.

(** Against the paged server the enumeration returns every non-protected
    branch, in order, and requests the pages [1 .. n / 100 + 1]. *)
Lemma getAllBranches_pagedServer (fuel : nat) :
  (length (visible repository) / 100 < fuel)%nat ->
  getAllBranches parseInt (pagedServer repository) fuel [] =
    Some (visible repository,
          map pageRequest (seq 1 (S (length (visible repository) / 100))), []).
Proof.
  intros Hfuel. unfold getAllBranches.
  replace fuel with (S (length (visible repository) / 100)
                     + (fuel - S (length (visible repository) / 100)))%nat by lia.
  rewrite (pages_loop_pagedServer _ 0 _ []) by reflexivity.
  reflexivity.
Qed.

End PagedServer.

(** C5.  The enumeration fetches the non-protected branches in pages of 100
    from page 1 on, stops at the first page with fewer than 100 items and not
    before, and returns the concatenation of the pages in page order.
    Against a repository of 250 non-protected branches it fetches exactly the
    pages 1, 2 and 3, of 100, 100 and 50 items, and returns the 250
    branches. *)
Theorem getAllBranches_pagination :
  forall (W : Type) (parseInt : string -> JS.number)
         (listBranches : ListBranchesParams -> W -> (Error + list Branch) * W) (w : W),
    (forall (pages : list (list Branch)) (p' : Z) (w' : W) (evs : list event)
            (data : list Branch) (w'' : W) (evs' : list event) (fuel : nat),
        fullPages parseInt listBranches 1 w pages p' w' evs ->
        fetchPage parseInt listBranches p' w' = (inr data, w'', evs') ->
        Z.of_nat (length data) < 100 ->
        ((length pages < fuel)%nat ->
         getAllBranches parseInt listBranches fuel w =
           Some ((concat pages ++ data)%list, w'', (evs ++ evs')%list)) /\
        ((fuel <= length pages)%nat ->
         getAllBranches parseInt listBranches fuel w = None)) /\
    (forall (repository : list Branch) (fuel : nat),
        length (visible repository) = 250%nat ->
        (3 <= fuel)%nat ->
        getAllBranches parseInt (pagedServer repository) fuel [] =
          Some (visible repository, [pageRequest 1; pageRequest 2; pageRequest 3], []) /\
        map (fun p => length (served repository p))
            [pageRequest 1; pageRequest 2; pageRequest 3] = [100; 100; 50]%nat).
Proof.
  intros W parseInt listBranches w. split.
  - intros pages p' w' evs data w'' evs' fuel Hfull Hfetch Hshort. split.
    + intros Hfuel.
      apply (getAllBranches_short_page parseInt listBranches w pages p' w' evs);
        assumption.
    + intros Hfuel. unfold getAllBranches.
      rewrite (pages_loop_not_ended parseInt listBranches _ _ _ _ _ _ Hfull) by exact Hfuel.
      reflexivity.
  - intros repository fuel Hlen Hfuel. split.
    + rewrite getAllBranches_pagedServer by (rewrite Hlen; simpl; lia).
      rewrite Hlen. reflexivity.
    + cbn [map]. rewrite !length_served_page, Hlen. reflexivity.
Qed.

Lemma getAllBranches_pagination_witness :
  (getAllBranches sample_parseInt (pagedServer (sampleRepository 250)) 3 [] =
     Some (visible (sampleRepository 250),
           [pageRequest 1; pageRequest 2; pageRequest 3], []) /\
   map (fun p => length (served (sampleRepository 250) p))
       [pageRequest 1; pageRequest 2; pageRequest 3] = [100; 100; 50]%nat) /\
  getAllBranches sample_parseInt (pagedServer (sampleRepository 250)) 2 [] = None.
Proof.
  exact (conj
           (proj2 (getAllBranches_pagination (list ListBranchesParams) sample_parseInt
                     (pagedServer (sampleRepository 250)) [])
              (sampleRepository 250) 3%nat
              ltac:(vm_compute; reflexivity) ltac:(vm_compute; repeat constructor))
           (proj2
              (proj1 (getAllBranches_pagination (list ListBranchesParams)
                        sample_parseInt (pagedServer (sampleRepository 250)) [])
                 [served (sampleRepository 250) (pageRequest 1);
                  served (sampleRepository 250) (pageRequest 2)]
                 3 [pageRequest 1; pageRequest 2] []
                 (served (sampleRepository 250) (pageRequest 3))
                 [pageRequest 1; pageRequest 2; pageRequest 3] [] 2%nat
                 (fullPages_cons sample_parseInt (pagedServer (sampleRepository 250))
                    1 [] (served (sampleRepository 250) (pageRequest 1))
                    [pageRequest 1] []
                    [served (sampleRepository 250) (pageRequest 2)]
                    3 [pageRequest 1; pageRequest 2] []
                    eq_refl ltac:(vm_compute; discriminate)
                    (fullPages_cons sample_parseInt
                       (pagedServer (sampleRepository 250))
                       2 [pageRequest 1] (served (sampleRepository 250) (pageRequest 2))
                       [pageRequest 1; pageRequest 2] [] [] 3
                       [pageRequest 1; pageRequest 2] []
                       eq_refl ltac:(vm_compute; discriminate)
                       (fullPages_nil sample_parseInt
                          (pagedServer (sampleRepository 250))
                          3 [pageRequest 1; pageRequest 2])))
                 eq_refl ltac:(vm_compute; reflexivity))
              ltac:(vm_compute; repeat constructor))).
Defined.

(** C6.  When, after some full pages, every attempt of the retrying wrapper
    for the next page fails, the enumeration does not throw: it logs a
    warning and returns exactly the branches of the pages fetched before, and
    the run, once its setup has succeeded, goes on with them. *)
Theorem getAllBranches_partial_on_failure :
  forall (W : Type) (parseInt : string -> JS.number)
         (listBranches : ListBranchesParams -> W -> (Error + list Branch) * W)
         (w : W) (pages : list (list Branch)) (p' : Z) (w' : W) (evs : list event)
         (errors : list Error) (e : Error) (fuel : nat),
    fullPages parseInt listBranches 1 w pages p' w' evs ->
    Z.of_nat (length errors) + 1 = defaultMaxRetries ->
    fails_with (listBranches (mkParams false 100 p')) (errors ++ [e]) w' ->
    (length pages < fuel)%nat ->
    exists (w'' : W) (evs' : list event),
      getAllBranches parseInt listBranches fuel w =
        Some (concat pages, w'',
              (evs ++ evs' ++
                 [Warning ("Error fetching branches: " ++ Error_toString e)])%list) /\
      forall (Date_parse : string -> option Z) (now : Z)
             (getCommit : string -> nat -> Error + CommitInfo)
             (completion : nat -> list nat)
             (post : string -> string -> W -> (Error + unit) * W)
             (getInput : string -> Error + string)
             (getOctokit : string -> Error + unit) (context_repo : Error + unit)
             (days slackWebhookUrl : string)
             (SLACK_USERS : option string) (token : string),
        setup getInput getOctokit context_repo (Some token) =
          inr (days, slackWebhookUrl) ->
        run parseInt Date_parse now listBranches getCommit completion post
            getInput getOctokit context_repo SLACK_USERS (Some token) fuel w =
          (let '(w3, evs3) :=
             notifyStale parseInt Date_parse now getCommit completion post
               (parseInt days) slackWebhookUrl SLACK_USERS (concat pages) w'' in
           Some (w3,
                 ((evs ++ evs' ++
                     [Warning ("Error fetching branches: " ++ Error_toString e)])
                    ++ evs3)%list)).
Proof.
  intros W parseInt listBranches w pages p' w' evs errors e fuel
         Hfull Hbudget Hfails Hfuel.
  destruct (retry_loop_exhausts parseInt (listBranches (mkParams false 100 p'))
              defaultMaxRetries errors e w' Hfails Hbudget) as (evs' & Hfetch & _).
  exists (after_calls (listBranches (mkParams false 100 p')) (S (length errors)) w'), evs'.
  assert (Henum := getAllBranches_failed_page parseInt listBranches w pages p' w' evs
                     (Rethrown e) _ evs' fuel Hfull Hfetch Hfuel).
  split; [exact Henum|].
  intros Date_parse now getCommit completion post getInput getOctokit context_repo
         days slackWebhookUrl SLACK_USERS token Hsetup.
  unfold run. rewrite Hsetup, Henum. reflexivity.
Qed.

Lemma getAllBranches_partial_on_failure_witness :
  exists (w'' : list ListBranchesParams) (evs' : list event),
    getAllBranches sample_parseInt (brokenServer (sampleRepository 250) 1) 2 [] =
      Some (concat [served (sampleRepository 250) (pageRequest 1)], w'',
            ([] ++ evs' ++
               [Warning ("Error fetching branches: " ++ Error_toString serverError)])%list) /\
    forall (Date_parse : string -> option Z) (now : Z)
           (getCommit : string -> nat -> Error + CommitInfo)
           (completion : nat -> list nat)
           (post : string -> string -> list ListBranchesParams
                   -> (Error + unit) * list ListBranchesParams)
           (getInput : string -> Error + string)
           (getOctokit : string -> Error + unit) (context_repo : Error + unit)
           (days slackWebhookUrl : string)
           (SLACK_USERS : option string) (token : string),
      setup getInput getOctokit context_repo (Some token) =
        inr (days, slackWebhookUrl) ->
      run sample_parseInt Date_parse now (brokenServer (sampleRepository 250) 1)
          getCommit completion post getInput getOctokit context_repo SLACK_USERS
          (Some token) 2 [] =
        (let '(w3, evs3) :=
           notifyStale sample_parseInt Date_parse now getCommit completion post
             (sample_parseInt days) slackWebhookUrl SLACK_USERS
             (concat [served (sampleRepository 250) (pageRequest 1)]) w'' in
         Some (w3,
               (([] ++ evs' ++
                   [Warning ("Error fetching branches: " ++ Error_toString serverError)])
                  ++ evs3)%list)).
Proof.
  exact (getAllBranches_partial_on_failure (list ListBranchesParams) sample_parseInt
           (brokenServer (sampleRepository 250) 1) []
           [served (sampleRepository 250) (pageRequest 1)] 2 [pageRequest 1] []
           [serverError; serverError; serverError; serverError] serverError 2%nat
           (fullPages_cons sample_parseInt (brokenServer (sampleRepository 250) 1)
              1 [] (served (sampleRepository 250) (pageRequest 1)) [pageRequest 1] []
              [] 2 [pageRequest 1] []
              eq_refl ltac:(vm_compute; discriminate)
              (fullPages_nil sample_parseInt (brokenServer (sampleRepository 250) 1)
                 2 [pageRequest 1]))
           eq_refl
           (conj eq_refl (conj eq_refl (conj eq_refl (conj eq_refl (conj eq_refl I)))))
           ltac:(vm_compute; repeat constructor)).
Defined.

(** ** Mentions and durations *)

(** The left operand of [||] in [getSlackUsername] is never empty: the
    fallback ["@" + gitUsername] is never taken. *)
Lemma getSlackUsername_no_fallback (SLACK_USERS : option string) (gitUsername : string) :
  getSlackUsername SLACK_USERS gitUsername =
    JS.string_of_undefinable (slackUsers_lookup SLACK_USERS gitUsername)
      ++ " (" ++ gitUsername ++ ")".
Proof.
  unfold getSlackUsername, JS.or_else.
  destruct (JS.string_of_undefinable _) as [|c x]; reflexivity.
Qed.

(** C3.  A login with an entry in the mapping is rendered as the mapped
    handle followed by the login in parentheses: ["alice"] with the mapping
    ["alice:@al"] gives ["@al (alice)"].  A login without an entry should be
    rendered as ["@" + login]; the code renders ["undefined (bob)"] for
    ["bob"], with that mapping and with no mapping at all. *)
Theorem getSlackUsername_examples :
  getSlackUsername (Some "alice:@al") "alice" = "@al (alice)" /\
  getSlackUsername (Some "alice:@al") "bob" = "undefined (bob)" /\
  getSlackUsername None "bob" = "undefined (bob)" /\
  String.eqb (getSlackUsername (Some "alice:@al") "bob") "@bob" = false.
Proof. repeat split; reflexivity. Qed.

Lemma Math_floor_div_of_Z (d : Z) (k : positive) :
  JS.Math_floor (JS.div (JS.of_Z d) k) = Some (d / Z.pos k).
Proof.
  unfold JS.Math_floor, JS.div, JS.of_Z. f_equal.
  rewrite (Qfloor_comp _ _ (Qred_correct _)).
  symmetry. apply Zdiv_Qdiv.
Qed.

Lemma rem_of_Z (d : Z) (k : positive) :
  JS.rem (JS.of_Z d) k = JS.of_Z (Z.rem d (Z.pos k)).
Proof.
  unfold JS.rem, JS.of_Z. f_equal. apply Qred_of_Z.
  unfold JS.Qtrunc, Qeq, inject_Z, Qdiv, Qinv, Qmult, Qminus, Qplus, Qopp.
  cbn [Qnum Qden Pos.mul]. rewrite !Z.mul_1_r.
  assert (H := Z.quot_rem' d (Z.pos k)). lia.
Qed.

Lemma Math_floor_of_Z (d : Z) : JS.Math_floor (JS.of_Z d) = Some d.
Proof. unfold JS.Math_floor, JS.of_Z. f_equal. apply Qfloor_Z. Qed.

(** What [parseTime] computes on a whole, non-negative number of days: the
    days component is the remainder of the total by 30. *)
Lemma parseTime_of_Z (d : Z) :
  0 <= d ->
  parseTime (JS.of_Z d) = formatDuration (d / 365) ((d mod 365) / 30) (d mod 30).
Proof.
  intros Hd. unfold parseTime.
  rewrite !rem_of_Z, !Math_floor_div_of_Z, Math_floor_of_Z.
  rewrite !Z.rem_mod_nonneg by lia.
  unfold formatDuration, component, plural, JS.gt, JS.toString.
  destruct (0 <? d / 365), (1 <? d / 365), (0 <? d mod 365 / 30),
    (1 <? d mod 365 / 30), (0 <? d mod 30), (1 <? d mod 30);
    cbn [append]; rewrite ?append_assoc, ?append_nil_r; reflexivity.
Qed.

(** Below one year the two decompositions agree. *)
Lemma parseTime_below_a_year (d : Z) :
  0 <= d < 365 -> parseTime (JS.of_Z d) = spec_parseTime d.
Proof.
  intros Hd. rewrite parseTime_of_Z by lia. unfold spec_parseTime.
  rewrite (Z.mod_small d 365) by lia. reflexivity.
Qed.

(** C2.  The formatter maps 0 days to ["0 days"], 1 day to ["1 day"] and 30
    days to ["1 month"], as the decomposition into years, months of the
    remainder and days of the final remainder prescribes.  For 400 days that
    decomposition gives ["1 year 1 month 5 days"]; the code answers
    ["1 year 1 month 10 days"], because it takes the days component from the
    total ([days % 30]) and not from the remainder. *)
Theorem parseTime_examples :
  parseTime (JS.of_Z 0) = "0 days" /\
  parseTime (JS.of_Z 1) = "1 day" /\
  parseTime (JS.of_Z 30) = "1 month" /\
  parseTime (JS.of_Z 400) = "1 year 1 month 10 days" /\
  spec_parseTime 400 = "1 year 1 month 5 days".
Proof. repeat split; vm_compute; reflexivity. Qed.

(** ** Objects *)

Lemma get_set {V : Type} (o : JS.object V) (k k' : string) (v : V) :
  JS.get (JS.set o k v) k' = if String.eqb k k' then Some v else JS.get o k'.
Proof.
  induction o as [|[k0 v0] o IH]; simpl.
  - destruct (String.eqb k k'); reflexivity.
  - destruct (String.eqb k0 k) eqn:E0; simpl.
    + apply String.eqb_eq in E0. subst k0.
      destruct (String.eqb k k'); reflexivity.
    + destruct (String.eqb k0 k') eqn:E1.
      * apply String.eqb_eq in E1. subst k0.
        rewrite String.eqb_sym, E0. reflexivity.
      * exact IH.
Qed.

Lemma keys_set {V : Type} (o : JS.object V) (k : string) (v : V) :
  JS.keys (JS.set o k v) =
    match JS.get o k with
    | Some _ => JS.keys o
    | None => (JS.keys o ++ [k])%list
    end.
Proof.
  unfold JS.keys. induction o as [|[k0 v0] o IH]; simpl; [reflexivity|].
  destruct (String.eqb k0 k); simpl; [reflexivity|].
  rewrite IH. destruct (JS.get o k); reflexivity.
Qed.

Lemma get_None_keys {V : Type} (o : JS.object V) (k : string) :
  JS.get o k = None <-> ~ In k (JS.keys o).
Proof.
  unfold JS.keys. induction o as [|[k0 v0] o IH]; simpl.
  - tauto.
  - destruct (String.eqb k0 k) eqn:E.
    + apply String.eqb_eq in E. split; [discriminate | tauto].
    + apply String.eqb_neq in E. tauto.
Qed.

Lemma get_map_snd {V V' : Type} (f : V -> V') (o : JS.object V) (k : string) :
  JS.get (map (fun kv => (fst kv, f (snd kv))) o) k = option_map f (JS.get o k).
Proof.
  induction o as [|[k0 v0] o IH]; simpl; [reflexivity|].
  destruct (String.eqb k0 k); [reflexivity | exact IH].
Qed.

Lemma keys_map_snd {V V' : Type} (f : V -> V') (o : JS.object V) :
  JS.keys (map (fun kv => (fst kv, f (snd kv))) o) = JS.keys o.
Proof. unfold JS.keys. rewrite map_map. reflexivity. Qed.





(** ** Completion orders *)

Lemma Permutation_insert_at {A : Type} (k : nat) (x : A) (l : list A) :
  Permutation (insert_at k x l) (x :: l).
Proof.
  revert k. induction l as [|y l IH]; intros [|k]; simpl; try reflexivity.
  rewrite IH. constructor.
Qed.

Lemma Permutation_arrange {A : Type} (choices : list nat) (l : list A) :
  Permutation (arrange choices l) l.
Proof.
  revert choices. induction l as [|x l IH]; intros choices; simpl; [constructor|].
  rewrite Permutation_insert_at. constructor. apply IH.
Qed.

Lemma insert_at_nil {A : Type} (k : nat) (x : A) : insert_at k x [] = [x].
Proof. destruct k; reflexivity. Qed.

(** The six orders in which three tasks can complete. *)
Lemma arrange_three {A : Type} (choices : list nat) (a b c : A) :
  In (arrange choices [a; b; c])
     [[a; b; c]; [b; a; c]; [b; c; a]; [a; c; b]; [c; a; b]; [c; b; a]].
Proof.
  destruct choices as [|c0 [|c1 [|c2 rest]]]; cbn [arrange hd tl];
    rewrite ?insert_at_nil;
    try destruct c1 as [|c1]; cbn [insert_at]; rewrite ?insert_at_nil;
    try destruct c0 as [|[|c0]]; cbn [insert_at]; rewrite ?insert_at_nil;
    cbn [In]; tauto.
Qed.


Lemma arrange_nil {A : Type} (l : list A) : arrange [] l = l.
Proof. induction l as [|x l IH]; simpl; [|rewrite IH]; reflexivity. Qed.

(** Every order of completion is the arrangement of some choices. *)
Lemma arrange_complete {A : Type} (l l' : list A) :
  Permutation l' l -> exists choices, arrange choices l = l'.
Proof.
  revert l'. induction l as [|x l IH]; intros l' Hperm.
  - apply Permutation_sym, Permutation_nil in Hperm. subst. exists []. reflexivity.
  - destruct (in_split x l') as (l1 & l2 & ->).
    { apply (Permutation_in x (Permutation_sym Hperm)). left. reflexivity. }
    apply Permutation_sym, Permutation_cons_app_inv, Permutation_sym in Hperm.
    destruct (IH _ Hperm) as (choices & Hc).
    exists (length l1 :: choices). simpl. rewrite Hc.
    clear. induction l1 as [|y l1 IH1]; simpl.
    + destruct l2; reflexivity.
    + rewrite IH1. reflexivity.
Qed.

(** ** Sorting *)

Lemma ge_finite (a b : JS.number) : JS.ge a b = true -> finite a /\ finite b.
Proof. destruct a, b; simpl; intros H; try discriminate; split; exact I. Qed.

Lemma ge_trans (a b c : JS.number) :
  JS.ge a b = true -> JS.ge b c = true -> JS.ge a c = true.
Proof.
  destruct a as [|x], b as [|y], c as [|z]; simpl; try discriminate.
  rewrite !Qle_bool_iff. intros H1 H2. lra.
Qed.

Lemma ge_total (a b : JS.number) :
  finite a -> finite b -> JS.ge a b = false -> JS.ge b a = true.
Proof.
  destruct a as [|x], b as [|y]; simpl; try contradiction.
  intros _ _ H. apply Qle_bool_iff.
  destruct (Qlt_le_dec x y) as [Hlt|Hle].
  - lra.
  - apply Qle_bool_iff in Hle. congruence.
Qed.

(** On finite ages the comparator puts the staler record first. *)
Lemma not_after_ge (x y : StaleBranch) :
  finite (daysSinceLastCommit x) -> finite (daysSinceLastCommit y) ->
  not_after x y = JS.ge (daysSinceLastCommit x) (daysSinceLastCommit y).
Proof.
  unfold not_after, compareFn.
  destruct (daysSinceLastCommit x) as [|qx], (daysSinceLastCommit y) as [|qy];
    cbn [JS.sub JS.ge finite]; try contradiction.
  intros _ _. rewrite (Qleb_comp _ _ (Qred_correct _) 0%Q 0%Q (Qeq_refl 0%Q)).
  destruct (Qle_bool qy qx) eqn:E.
  - apply Qle_bool_iff in E. apply Qle_bool_iff. lra.
  - destruct (Qle_bool (qy - qx) 0%Q) eqn:E'; [|reflexivity].
    apply Qle_bool_iff in E'.
    assert (H : (qy <= qx)%Q) by lra.
    apply Qle_bool_iff in H. congruence.
Qed.

Lemma Permutation_sort_insert (x : StaleBranch) (l : list StaleBranch) :
  Permutation (sort_insert x l) (x :: l).
Proof.
  induction l as [|y l IH]; simpl; [reflexivity|].
  destruct (not_after x y); [reflexivity|].
  rewrite IH. constructor.
Qed.

Lemma Permutation_sort (l : list StaleBranch) : Permutation (sort l) l.
Proof.
  induction l as [|x l IH]; simpl; [constructor|].
  rewrite Permutation_sort_insert. constructor. exact IH.
Qed.

Lemma sort_insert_sorted (x : StaleBranch) (l : list StaleBranch) :
  finite (daysSinceLastCommit x) ->
  Forall (fun y => finite (daysSinceLastCommit y)) l ->
  StronglySorted descending l ->
  StronglySorted descending (sort_insert x l).
Proof.
  intros Hx Hfin Hsorted. induction Hsorted as [|y l Hl IH Hy]; simpl.
  - constructor; constructor.
  - inversion Hfin as [|? ? Hfy Hfl]; subst.
    rewrite (not_after_ge x y Hx Hfy).
    destruct (JS.ge (daysSinceLastCommit x) (daysSinceLastCommit y)) eqn:E.
    + constructor; [constructor; assumption|].
      constructor; [exact E|].
      apply Forall_forall. intros z Hz.
      rewrite Forall_forall in Hy. specialize (Hy z Hz).
      unfold descending in *. eapply ge_trans; eassumption.
    + constructor; [apply IH; exact Hfl|].
      apply (Permutation_Forall (Permutation_sym (Permutation_sort_insert x l))).
      constructor; [|exact Hy].
      apply ge_total; assumption.
Qed.

(** Sorting a group of finite ages leaves it in non-increasing order. *)
Lemma sort_sorted (l : list StaleBranch) :
  Forall (fun y => finite (daysSinceLastCommit y)) l ->
  StronglySorted descending (sort l).
Proof.
  induction 1 as [|x l Hx Hl IH]; simpl; [constructor|].
  apply sort_insert_sorted; [exact Hx| |exact IH].
  apply (Permutation_Forall (Permutation_sym (Permutation_sort l))). exact Hl.
Qed.

(** ** Classification *)

Lemma get_Some_keys {V : Type} (o : JS.object V) (k : string) (v : V) :
  JS.get o k = Some v -> In k (JS.keys o).
Proof.
  intros H. destruct (in_dec string_dec k (JS.keys o)) as [Hin|Hin]; [exact Hin|].
  apply get_None_keys in Hin. congruence.
Qed.

Lemma set_set {V : Type} (o : JS.object V) (k : string) (v v' : V) :
  JS.set (JS.set o k v) k v' = JS.set o k v'.
Proof.
  induction o as [|[k0 v0] o IH]; simpl.
  - rewrite String.eqb_refl. reflexivity.
  - destruct (String.eqb k0 k) eqn:E; simpl; rewrite E; [reflexivity|].
    rewrite IH. reflexivity.
Qed.

Lemma inherited_index {V : Type} (o : JS.object V) (k : string) :
  JS.inherited k = false ->
  JS.index o k = match JS.get o k with
                 | Some v => JS.Own v
                 | None => JS.Undefined
                 end.
Proof.
  unfold JS.inherited, JS.index. intros H.
  destruct (JS.get o k); [reflexivity|].
  destruct (JS.get JS.Object_prototype k); [discriminate | reflexivity].
Qed.

(** For an author that names no member of [Object.prototype] the push
    succeeds, whatever the author map. *)
Lemma pushStale_own (o : JS.object (list StaleBranch)) (author : string)
      (r : StaleBranch) :
  JS.inherited author = false ->
  pushStale o author r = inr (pushOwn o author r).
Proof.
  intros H. unfold pushStale, pushOwn. rewrite (inherited_index o author H).
  destruct (JS.get o author) as [g|] eqn:Hget.
  - rewrite (inherited_index o author H), Hget. reflexivity.
  - rewrite (inherited_index _ author H), get_set, String.eqb_refl, set_set.
    reflexivity.
Qed.

(** For an author that names a member of [Object.prototype] the push throws,
    as long as the keys of the author map are plain. *)
Lemma pushStale_inherited (o : JS.object (list StaleBranch)) (author : string)
      (r : StaleBranch) :
  plain_keys o ->
  JS.inherited author = true ->
  pushStale o author r = inl push_is_not_a_function.
Proof.
  intros Hplain H. unfold pushStale, JS.index.
  destruct (JS.get o author) as [g|] eqn:Hget.
  - apply get_Some_keys, Hplain in Hget. congruence.
  - unfold JS.inherited in H.
    destruct (JS.get JS.Object_prototype author); [|discriminate].
    rewrite Hget. reflexivity.
Qed.

Lemma group_pushOwn (o : JS.object (list StaleBranch)) (author author' : string)
      (r : StaleBranch) :
  group (pushOwn o author r) author' =
    if String.eqb author author' then (group o author' ++ [r])%list
    else group o author'.
Proof.
  unfold pushOwn, group.
  destruct (JS.get o author) as [g|] eqn:Hget; rewrite get_set;
    (destruct (String.eqb author author') eqn:E; [|reflexivity]);
    apply String.eqb_eq in E; subst author'; rewrite Hget; reflexivity.
Qed.

(** Pushing keeps the keys distinct and every group non-empty. *)
Lemma well_formed_pushOwn (o : JS.object (list StaleBranch)) (author : string)
      (r : StaleBranch) :
  well_formed o -> well_formed (pushOwn o author r).
Proof.
  intros [Hnodup Hgroups]. unfold pushOwn.
  destruct (JS.get o author) as [g|] eqn:Hget.
  - split.
    + rewrite keys_set, Hget. exact Hnodup.
    + intros k g'. rewrite get_set.
      destruct (String.eqb author k).
      * intros [= <-]. destruct g; discriminate.
      * apply Hgroups.
  - split.
    + rewrite keys_set, Hget.
      apply NoDup_app; [exact Hnodup | repeat constructor; intros [] |].
      intros x Hx [<-|[]]. apply get_None_keys in Hget. contradiction.
    + intros k g'. rewrite get_set.
      destruct (String.eqb author k).
      * intros [= <-]. discriminate.
      * apply Hgroups.
Qed.

Lemma plain_keys_pushOwn (o : JS.object (list StaleBranch)) (author : string)
      (r : StaleBranch) :
  JS.inherited author = false -> plain_keys o -> plain_keys (pushOwn o author r).
Proof.
  intros H Hplain k. unfold pushOwn.
  destruct (JS.get o author) as [g|] eqn:Hget; rewrite keys_set, Hget.
  - apply Hplain.
  - intros Hin. apply in_app_or in Hin.
    destruct Hin as [Hin|[<-|[]]]; [exact (Hplain k Hin) | exact H].
Qed.

Lemma plain_keys_nil : plain_keys [].
Proof. intros k []. Qed.

Section RunFacts.

Variable parseInt : string -> JS.number.
Variable Date_parse : string -> option Z.
Variable now : Z.
Variable getCommit : string -> nat -> Error + CommitInfo.
Variable daysBeforeStale : JS.number.

Local Abbreviation fetch := (fetchCommit parseInt getCommit).
Local Abbreviation age := (daysSince Date_parse now).
Local Abbreviation process :=
  (processBranch parseInt Date_parse now getCommit daysBeforeStale).
Local Abbreviation records :=
  (recordsOf parseInt Date_parse now getCommit daysBeforeStale).
Local Abbreviation events :=
  (eventsOf parseInt Date_parse now getCommit daysBeforeStale).

(** The task of a branch, by cases: the fetch throws; the commit does not
    meet the threshold; the author names a member of [Object.prototype] and
    the push throws; the record is pushed. *)
Lemma processBranch_cases (o : JS.object (list StaleBranch)) (log : list event)
      (branch : Branch) :
  plain_keys o ->
  process (o, log) branch =
    match fetch branch with
    | (inl error, evs) =>
        (o, (log ++ evs ++
               [Warning ("Failed to process branch " ++ name branch ++ ": "
                         ++ failure_toString error)])%list)
    | (inr commitInfo, evs) =>
        if JS.ge (age commitInfo) daysBeforeStale then
          if JS.inherited (authorOf commitInfo) then
            (o, (log ++ evs ++
                   [Warning ("Failed to process branch " ++ name branch ++ ": "
                             ++ Error_toString push_is_not_a_function)])%list)
          else
            (pushOwn o (authorOf commitInfo)
               (mkStaleBranch (name branch) (age commitInfo)),
             (log ++ evs)%list)
        else (o, (log ++ evs)%list)
    end.
Proof.
  intros Hplain. unfold processBranch.
  destruct (fetch branch) as [[error|commitInfo] evs]; [reflexivity|].
  destruct (JS.ge (age commitInfo) daysBeforeStale); [|reflexivity].
  destruct (JS.inherited (authorOf commitInfo)) eqn:Hin.
  - rewrite pushStale_inherited by assumption. reflexivity.
  - rewrite pushStale_own by assumption. reflexivity.
Qed.

Lemma processBranch_plain_keys (st : JS.object (list StaleBranch) * list event)
      (branch : Branch) :
  plain_keys (fst st) -> plain_keys (fst (process st branch)).
Proof.
  destruct st as [o log]. cbn [fst]. intros Hplain.
  rewrite processBranch_cases by exact Hplain.
  destruct (fetch branch) as [[error|commitInfo] evs]; cbn [fst]; [exact Hplain|].
  destruct (JS.ge (age commitInfo) daysBeforeStale); cbn [fst]; [|exact Hplain].
  destruct (JS.inherited (authorOf commitInfo)) eqn:Hin; cbn [fst]; [exact Hplain|].
  apply plain_keys_pushOwn; assumption.
Qed.

Lemma processBranch_group (st : JS.object (list StaleBranch) * list event)
      (branch : Branch) (author : string) :
  plain_keys (fst st) ->
  group (fst (process st branch)) author =
    (group (fst st) author ++ records author branch)%list.
Proof.
  destruct st as [o log]. cbn [fst]. intros Hplain.
  rewrite processBranch_cases by exact Hplain. unfold recordsOf.
  destruct (fetch branch) as [[error|commitInfo] evs]; cbn [fst].
  - rewrite app_nil_r. reflexivity.
  - destruct (JS.ge (age commitInfo) daysBeforeStale); cbn [fst andb].
    + destruct (String.eqb (authorOf commitInfo) author) eqn:Ha.
      * apply String.eqb_eq in Ha. subst author.
        destruct (JS.inherited (authorOf commitInfo)); cbn [fst negb].
        -- rewrite app_nil_r. reflexivity.
        -- rewrite group_pushOwn, String.eqb_refl. reflexivity.
      * cbn [andb]. rewrite app_nil_r.
        destruct (JS.inherited (authorOf commitInfo)); cbn [fst]; [reflexivity|].
        rewrite group_pushOwn, Ha. reflexivity.
    + rewrite app_nil_r. reflexivity.
Qed.

Lemma processBranch_log (st : JS.object (list StaleBranch) * list event)
      (branch : Branch) :
  plain_keys (fst st) ->
  snd (process st branch) = (snd st ++ events branch)%list.
Proof.
  destruct st as [o log]. cbn [fst snd]. intros Hplain.
  rewrite processBranch_cases by exact Hplain. unfold eventsOf.
  destruct (fetch branch) as [[error|commitInfo] evs]; cbn [snd]; [reflexivity|].
  destruct (JS.ge (age commitInfo) daysBeforeStale); cbn [andb]; [|reflexivity].
  destruct (JS.inherited (authorOf commitInfo)); reflexivity.
Qed.

Lemma processBranch_well_formed (st : JS.object (list StaleBranch) * list event)
      (branch : Branch) :
  plain_keys (fst st) ->
  well_formed (fst st) -> well_formed (fst (process st branch)).
Proof.
  destruct st as [o log]. cbn [fst]. intros Hplain.
  rewrite processBranch_cases by exact Hplain.
  destruct (fetch branch) as [[error|commitInfo] evs]; cbn [fst]; [tauto|].
  destruct (JS.ge (age commitInfo) daysBeforeStale); cbn [fst]; [|tauto].
  destruct (JS.inherited (authorOf commitInfo)); cbn [fst]; [tauto|].
  apply well_formed_pushOwn.
Qed.

Lemma fold_left_plain_keys (branches : list Branch)
      (st : JS.object (list StaleBranch) * list event) :
  plain_keys (fst st) -> plain_keys (fst (fold_left process branches st)).
Proof.
  revert st. induction branches as [|b branches IH]; intros st H; simpl; [exact H|].
  apply IH, processBranch_plain_keys, H.
Qed.

(** The loop over the batches, seen through a projection of the state to
    which every task appends. *)
Section Appending.

Variable completion : nat -> list nat.
Context {X : Type}.
Variable project : JS.object (list StaleBranch) * list event -> list X.
Variable added : Branch -> list X.
Hypothesis process_appends :
  forall st branch,
    plain_keys (fst st) ->
    project (process st branch) = (project st ++ added branch)%list.

Local Abbreviation loop :=
  (batches_loop parseInt Date_parse now getCommit completion daysBeforeStale).

Lemma fold_left_appends (branches : list Branch)
      (st : JS.object (list StaleBranch) * list event) :
  plain_keys (fst st) ->
  project (fold_left process branches st) =
    (project st ++ flat_map added branches)%list.
Proof.
  revert st. induction branches as [|b branches IH]; intros st Hplain; simpl.
  - rewrite app_nil_r. reflexivity.
  - rewrite IH by (apply processBranch_plain_keys, Hplain).
    rewrite process_appends, <- app_assoc by exact Hplain. reflexivity.
Qed.

Lemma batches_loop_appends (branches : list Branch) :
  forall (fuel i : nat) (st : JS.object (list StaleBranch) * list event),
    plain_keys (fst st) ->
    (length branches <= i + fuel * batchSize)%nat ->
    Permutation (project (loop fuel i branches st))
                (project st ++ flat_map added (skipn i branches)).
Proof.
  induction fuel as [|fuel IH]; intros i st Hplain Hfuel.
  - simpl. rewrite skipn_all2 by (simpl in Hfuel; lia).
    rewrite app_nil_r. reflexivity.
  - cbn [batches_loop].
    destruct (i <? length branches)%nat eqn:Hi.
    + rewrite IH by (try apply fold_left_plain_keys; try exact Hplain;
                     unfold batchSize in *; lia).
      rewrite fold_left_appends, <- app_assoc by exact Hplain.
      apply Permutation_app_head.
      assert (Hsplit : skipn i branches =
                       (slice i (i + batchSize) branches
                          ++ skipn (i + batchSize) branches)%list).
      { unfold slice. replace (i + batchSize - i)%nat with batchSize by lia.
        replace (i + batchSize)%nat with (batchSize + i)%nat by lia.
        rewrite <- skipn_skipn. symmetry. apply firstn_skipn. }
      rewrite Hsplit, flat_map_app.
      apply Permutation_app_tail, Permutation_flat_map, Permutation_arrange.
    + apply Nat.ltb_ge in Hi. rewrite skipn_all2 by lia.
      rewrite app_nil_r. reflexivity.
Qed.

End Appending.

Section Classified.

Variable completion : nat -> list nat.

Local Abbreviation loop :=
  (batches_loop parseInt Date_parse now getCommit completion daysBeforeStale).
Local Abbreviation classified :=
  (classify parseInt Date_parse now getCommit completion daysBeforeStale).
Local Abbreviation digested :=
  (digest parseInt Date_parse now getCommit completion daysBeforeStale).

(** The group of an author holds the records of the author's stale
    branches, whatever the order of completion. *)
Lemma classify_group (branches : list Branch) (author : string) :
  Permutation (group (fst (classified branches)) author)
              (flat_map (records author) branches).
Proof.
  unfold classify.
  rewrite (batches_loop_appends completion
             (fun st => group (fst st) author) (records author)
             (fun st b => processBranch_group st b author)
             branches (length branches) 0 ([], []))
    by (try exact plain_keys_nil; unfold batchSize; lia).
  reflexivity.
Qed.

(** The log holds the events of every branch. *)
Lemma classify_log (branches : list Branch) :
  Permutation (snd (classified branches)) (flat_map events branches).
Proof.
  unfold classify.
  rewrite (batches_loop_appends completion snd events processBranch_log
             branches (length branches) 0 ([], []))
    by (try exact plain_keys_nil; unfold batchSize; lia).
  reflexivity.
Qed.

Lemma fold_left_well_formed (branches : list Branch)
      (st : JS.object (list StaleBranch) * list event) :
  plain_keys (fst st) ->
  well_formed (fst st) -> well_formed (fst (fold_left process branches st)).
Proof.
  revert st. induction branches as [|b branches IH]; intros st Hp H; simpl;
    [exact H|].
  apply IH; [apply processBranch_plain_keys, Hp |].
  apply processBranch_well_formed; assumption.
Qed.

Lemma classify_well_formed (branches : list Branch) :
  well_formed (fst (classified branches)) /\ plain_keys (fst (classified branches)).
Proof.
  unfold classify.
  assert (H : forall fuel i st,
             well_formed (fst st) /\ plain_keys (fst st) ->
             well_formed (fst (loop fuel i branches st)) /\
             plain_keys (fst (loop fuel i branches st))).
  { induction fuel as [|fuel IH]; intros i st Hst; simpl; [exact Hst|].
    destruct (i <? length branches)%nat; [|exact Hst].
    apply IH. destruct Hst as [Hwf Hp]. split.
    - apply fold_left_well_formed; assumption.
    - apply fold_left_plain_keys, Hp. }
  apply H. split; [split; [constructor | discriminate] | exact plain_keys_nil].
Qed.

Lemma group_sortGroups (o : JS.object (list StaleBranch)) (author : string) :
  group (sortGroups o) author = sort (group o author).
Proof.
  unfold group, sortGroups. rewrite get_map_snd.
  destruct (JS.get o author); reflexivity.
Qed.

(** The digest of an author, up to order. *)
Lemma digest_group (branches : list Branch) (author : string) :
  Permutation (group (digested branches) author)
              (flat_map (records author) branches).
Proof.
  unfold digest. rewrite group_sortGroups, Permutation_sort.
  apply classify_group.
Qed.

Lemma in_records (author : string) (branches : list Branch) (r : StaleBranch) :
  In r (flat_map (records author) branches) <->
  exists branch commitInfo evs,
    In branch branches /\
    fetch branch = (inr commitInfo, evs) /\
    JS.ge (age commitInfo) daysBeforeStale = true /\
    authorOf commitInfo = author /\
    JS.inherited author = false /\
    r = mkStaleBranch (name branch) (age commitInfo).
Proof.
  rewrite in_flat_map. unfold recordsOf. split.
  - intros (branch & Hin & Hr).
    destruct (fetch branch) as [[error|commitInfo] evs] eqn:Hfetch; [destruct Hr|].
    destruct (JS.ge (age commitInfo) daysBeforeStale) eqn:Hge; [|destruct Hr].
    destruct (String.eqb (authorOf commitInfo) author) eqn:Ha; [|destruct Hr].
    destruct (JS.inherited author) eqn:Hi; [destruct Hr|].
    destruct Hr as [<-|[]]. apply String.eqb_eq in Ha.
    exists branch, commitInfo, evs. repeat split; assumption.
  - intros (branch & commitInfo & evs & Hin & Hfetch & Hge & Ha & Hi & ->).
    exists branch. split; [exact Hin|].
    rewrite Hfetch, Hge, Hi. subst author. rewrite String.eqb_refl.
    left. reflexivity.
Qed.

(** Every record of the digest meets the threshold. *)
Lemma digest_threshold (branches : list Branch) (author : string) (r : StaleBranch) :
  In r (group (digested branches) author) ->
  JS.ge (daysSinceLastCommit r) daysBeforeStale = true.
Proof.
  intros Hin. apply (Permutation_in _ (digest_group branches author)) in Hin.
  apply in_records in Hin.
  destruct Hin as (branch & commitInfo & evs & _ & _ & Hge & _ & _ & ->). exact Hge.
Qed.

Lemma digest_plain_keys (branches : list Branch) :
  plain_keys (digested branches).
Proof.
  intros k. unfold digest, sortGroups. rewrite keys_map_snd.
  apply (proj2 (classify_well_formed branches)).
Qed.

Lemma digest_well_formed (branches : list Branch) :
  well_formed (digested branches).
Proof.
  destruct (classify_well_formed branches) as [[Hnodup Hgroups] _].
  unfold digest, sortGroups. split.
  - rewrite keys_map_snd. exact Hnodup.
  - intros k g. rewrite get_map_snd.
    destruct (JS.get (fst (classified branches)) k) as [g0|] eqn:Hget; [|discriminate].
    intros [= <-] Hnil. apply (Hgroups k g0 Hget).
    apply Permutation_nil. rewrite <- Hnil. apply Permutation_sort.
Qed.


End Classified.

End RunFacts.

(** ** The digest *)

(** Without a committer date that parses, the age is [NaN]. *)
Lemma daysSince_unknown (Date_parse : string -> option Z) (now : Z)
      (commitInfo : CommitInfo) :
  committer_date commitInfo = None \/
  committer_date commitInfo = Some "" \/
  (exists s, committer_date commitInfo = Some s /\ Date_parse s = None) ->
  daysSince Date_parse now commitInfo = JS.NaN.
Proof.
  unfold daysSince.
  intros [H | [H | (s & H & Hs)]]; rewrite H; try reflexivity.
  unfold JS.or_default, JS.or_else.
  destruct (String.eqb s "") eqn:E; [reflexivity|].
  unfold getTime. rewrite E, Hs. reflexivity.
Qed.

Lemma firstRejection_none_iff {A : Type} (settled : list (Error + A)) :
  (forall e, ~ In (inl e) settled) -> LegacyRun.firstRejection settled = None.
Proof.
  induction settled as [|[e'|a] settled IH]; simpl; intros H; [reflexivity| |].
  - exfalso. apply (H e'). left. reflexivity.
  - apply IH. intros e He. apply (H e). right. exact He.
Qed.

(** Two listed branches with the same name are the same branch. *)
Lemma NoDup_map_eq {A B : Type} (f : A -> B) (l : list A) (a b : A) :
  NoDup (map f l) -> In a l -> In b l -> f a = f b -> a = b.
Proof.
  induction l as [|x l IH]; cbn [map]; intros Hnd Ha Hb Hf; [destruct Ha|].
  apply NoDup_cons_iff in Hnd. destruct Hnd as [Hx Hnd].
  destruct Ha as [<-|Ha], Hb as [<-|Hb].
  - reflexivity.
  - exfalso. apply Hx. rewrite Hf. apply in_map. exact Hb.
  - exfalso. apply Hx. rewrite <- Hf. apply in_map. exact Ha.
  - exact (IH Hnd Ha Hb Hf).
Qed.

(** The stale list of the earlier revision when every commit is fetched:
    the listing with the age of each branch, filtered by the threshold. *)
Lemma legacy_staleBranches_fetched (Date_parse : string -> option Z)
      (nowAt : string -> Z) (getCommit : string -> Error + CommitInfo)
      (settle : list nat) (daysBeforeStale : JS.number)
      (commitOf : Branch -> CommitInfo) (branches : list Branch) :
  (forall b, In b branches -> getCommit (sha b) = inr (commitOf b)) ->
  LegacyRun.staleBranches Date_parse nowAt getCommit settle daysBeforeStale branches =
    inr (filter (fun x => JS.ge (snd x) daysBeforeStale)
           (map (fun b =>
                   (b, Legacy.getDaysSinceLastCommit Date_parse (nowAt (sha b))
                         (commitOf b)))
                branches)).
Proof.
  intros Hall.
  assert (Htasks : map (LegacyRun.task Date_parse nowAt getCommit) branches =
                   map (fun b =>
                          inr (b, Legacy.getDaysSinceLastCommit Date_parse
                                    (nowAt (sha b)) (commitOf b)))
                       branches).
  { apply map_ext_in. intros b Hb. unfold LegacyRun.task.
    rewrite (Hall b Hb). reflexivity. }
  unfold LegacyRun.staleBranches, LegacyRun.Promise_all. rewrite Htasks.
  assert (Hnone : forall order,
             LegacyRun.firstRejection
               (arrange order
                  (map (fun b =>
                          @inr Error _
                            (b, Legacy.getDaysSinceLastCommit Date_parse
                                  (nowAt (sha b)) (commitOf b)))
                       branches)) = None).
  { intros order. apply firstRejection_none_iff. intros e He.
    apply (Permutation_in _ (Permutation_arrange _ _)) in He.
    apply in_map_iff in He. destruct He as (b & Hb & _). discriminate. }
  rewrite Hnone. do 2 f_equal.
  clear. induction branches as [|b bs IH]; [reflexivity|].
  cbn [map LegacyRun.values]. rewrite IH. reflexivity.
Qed.

(** C1.  For a listed branch whose commit was fetched, with age [A] and
    threshold [T] (branch names are distinct): a record of the branch is in
    the group of some author exactly when [A >= T], which excludes the
    unknown age [NaN], and the commit's author names no member of
    [Object.prototype]; the record is then in the group of the commit's
    author and carries the age [A].  A branch whose committer date is absent,
    empty or rejected by the date parser has the unknown age and no record in
    any group.  A branch with [A >= T] whose author is named like a member of
    [Object.prototype] (["constructor"], ["toString"], ...) should be in the
    group of that author; the code has no record of it in any group and logs
    the [TypeError] of the push as a warning.  In the earlier revision, when
    every commit is fetched, a branch is in the stale list exactly when its
    age meets the threshold, the age of a commit without committer date being
    [-1]. *)
Theorem stale_iff_threshold :
  forall (parseInt : string -> JS.number) (Date_parse : string -> option Z) (now : Z)
         (getCommit : string -> nat -> Error + CommitInfo)
         (completion : nat -> list nat) (daysBeforeStale : JS.number)
         (branches : list Branch) (branch : Branch) (commitInfo : CommitInfo)
         (evs : list event),
    NoDup (map name branches) ->
    In branch branches ->
    fetchCommit parseInt getCommit branch = (inr commitInfo, evs) ->
    let A := daysSince Date_parse now commitInfo in
    let D := digest parseInt Date_parse now getCommit completion daysBeforeStale
                    branches in
    let listed author :=
      exists r, In r (group D author) /\ branchName r = name branch in
    ((exists author, listed author) <->
     (JS.ge A daysBeforeStale = true /\ A <> JS.NaN /\
      JS.inherited (authorOf commitInfo) = false)) /\
    (forall author r,
        In r (group D author) -> branchName r = name branch ->
        author = authorOf commitInfo /\ r = mkStaleBranch (name branch) A) /\
    ((committer_date commitInfo = None \/
      committer_date commitInfo = Some "" \/
      (exists s, committer_date commitInfo = Some s /\ Date_parse s = None)) ->
     A = JS.NaN /\ forall author, ~ listed author) /\
    (JS.ge A daysBeforeStale = true ->
     JS.inherited (authorOf commitInfo) = true ->
     (forall author, ~ listed author) /\
     In (Warning ("Failed to process branch " ++ name branch ++ ": "
                  ++ Error_toString push_is_not_a_function))
        (snd (classify parseInt Date_parse now getCommit completion daysBeforeStale
                branches))) /\
    (forall (nowAt : string -> Z) (getCommit0 : string -> Error + CommitInfo)
            (settle : list nat) (commitOf : Branch -> CommitInfo),
        (forall b, In b branches -> getCommit0 (sha b) = inr (commitOf b)) ->
        let A' := Legacy.getDaysSinceLastCommit Date_parse (nowAt (sha branch))
                    (commitOf branch) in
        exists stale,
          LegacyRun.staleBranches Date_parse nowAt getCommit0 settle
            daysBeforeStale branches = inr stale /\
          ((exists a, In (branch, a) stale) <-> JS.ge A' daysBeforeStale = true) /\
          (forall a, In (branch, a) stale -> a = A') /\
          (committer_date (commitOf branch) = None -> A' = JS.of_Z (-1))).
Proof.
  intros parseInt Date_parse now getCommit completion daysBeforeStale
         branches branch commitInfo evs Hnames Hin Hfetch A D listed.
  assert (Hrec : forall author r,
             In r (group D author) -> branchName r = name branch ->
             author = authorOf commitInfo /\ r = mkStaleBranch (name branch) A /\
             JS.ge A daysBeforeStale = true /\
             JS.inherited (authorOf commitInfo) = false).
  { intros author r Hr Hname.
    apply (Permutation_in _ (digest_group _ _ _ _ _ _ _ _)) in Hr.
    apply in_records in Hr.
    destruct Hr as (b' & c' & evs' & Hin' & Hf' & Hge' & Ha' & Hi' & ->).
    cbn [branchName] in Hname.
    assert (b' = branch) by exact (NoDup_map_eq name branches _ _ Hnames Hin' Hin Hname).
    subst b'. rewrite Hfetch in Hf'. injection Hf' as <- <-. subst author.
    repeat split; assumption. }
  assert (Hstale : JS.ge A daysBeforeStale = true ->
                   JS.inherited (authorOf commitInfo) = false ->
                   In (mkStaleBranch (name branch) A) (group D (authorOf commitInfo))).
  { intros Hge Hi.
    apply (Permutation_in _ (Permutation_sym (digest_group _ _ _ _ _ _ _ _))).
    apply in_records. exists branch, commitInfo, evs. repeat split; assumption. }
  split; [|split; [|split; [|split]]].
  - split.
    + intros (author & r & Hr & Hname).
      destruct (Hrec author r Hr Hname) as (_ & _ & Hge & Hi).
      split; [exact Hge|]. split; [|exact Hi].
      intros HNaN. rewrite HNaN in Hge. discriminate.
    + intros (Hge & _ & Hi). exists (authorOf commitInfo).
      exists (mkStaleBranch (name branch) A). split; [exact (Hstale Hge Hi)|].
      reflexivity.
  - intros author r Hr Hname.
    destruct (Hrec author r Hr Hname) as (Ha & Hrr & _). split; assumption.
  - intros Hdate.
    assert (HNaN := daysSince_unknown Date_parse now commitInfo Hdate).
    split; [exact HNaN|].
    intros author (r & Hr & Hname).
    destruct (Hrec author r Hr Hname) as (_ & _ & Hge & _).
    unfold A in Hge. rewrite HNaN in Hge. discriminate.
  - intros Hge Hi. split.
    + intros author (r & Hr & Hname).
      destruct (Hrec author r Hr Hname) as (_ & _ & _ & Hi'). congruence.
    + apply (Permutation_in _ (Permutation_sym (classify_log _ _ _ _ _ _ _))).
      apply in_flat_map. exists branch. split; [exact Hin|].
      unfold eventsOf. rewrite Hfetch. fold A. rewrite Hge, Hi. cbn [andb].
      apply in_or_app. right. left. reflexivity.
  - intros nowAt getCommit0 settle commitOf Hall A'.
    eexists. split;
      [exact (legacy_staleBranches_fetched Date_parse nowAt getCommit0 settle
                daysBeforeStale commitOf branches Hall)|].
    assert (Hmem : forall a,
               In (branch, a)
                  (filter (fun x => JS.ge (snd x) daysBeforeStale)
                     (map (fun b =>
                             (b, Legacy.getDaysSinceLastCommit Date_parse
                                   (nowAt (sha b)) (commitOf b)))
                          branches)) ->
               a = A' /\ JS.ge A' daysBeforeStale = true).
    { intros a Ha. apply filter_In in Ha. destruct Ha as [Ha Hge].
      apply in_map_iff in Ha. destruct Ha as (b & Hb & _).
      injection Hb as -> <-. cbn [snd] in Hge. split; [reflexivity | exact Hge]. }
    split; [|split].
    + split.
      * intros (a & Ha). exact (proj2 (Hmem a Ha)).
      * intros Hge. exists A'. apply filter_In. split; [|exact Hge].
        apply in_map_iff. exists branch. split; [reflexivity | exact Hin].
    + intros a Ha. exact (proj1 (Hmem a Ha)).
    + intros Hdate. unfold A', Legacy.getDaysSinceLastCommit.
      rewrite Hdate. reflexivity.
Qed.

Lemma stale_iff_threshold_witness :
  JS.ge (daysSince sampleDate_parse sampleNow
           (mkCommitInfo (Some "2024-01-01T00:00:00Z") (Some "constructor")))
        (JS.of_Z 30) = true /\
  ((forall author,
       ~ exists r,
           In r (group (digest sample_parseInt sampleDate_parse sampleNow
                          sample_getCommit sequential (JS.of_Z 30) inheritedAuthor)
                   author) /\
           branchName r = "legacy-api") /\
   In (Warning ("Failed to process branch " ++ "legacy-api"
                ++ ": TypeError: staleBranchesByAuthor[author].push is not a function"))
      (snd (classify sample_parseInt sampleDate_parse sampleNow sample_getCommit
              sequential (JS.of_Z 30) inheritedAuthor))).
Proof.
  exact (conj eq_refl
           (proj1 (proj2 (proj2 (proj2
              (stale_iff_threshold sample_parseInt sampleDate_parse sampleNow
                 sample_getCommit sequential (JS.of_Z 30) inheritedAuthor
                 (mkBranch "legacy-api" "sha-ctor" false)
                 (mkCommitInfo (Some "2024-01-01T00:00:00Z") (Some "constructor")) []
                 ltac:(repeat constructor; cbn; intuition discriminate)
                 (or_intror (or_introl eq_refl)) eq_refl))))
              eq_refl eq_refl)).
Defined.

(** C7.  In the digest the group of every author is in non-increasing order
    of days since the last commit.  Records aged 5, 40 and 12 days come out
    in the order 40, 12, 5. *)
Theorem groups_sorted_descending :
  forall (parseInt : string -> JS.number) (Date_parse : string -> option Z) (now : Z)
         (getCommit : string -> nat -> Error + CommitInfo)
         (completion : nat -> list nat) (daysBeforeStale : JS.number)
         (branches : list Branch) (author : string) (n1 n2 n3 : string),
    StronglySorted descending
      (group (digest parseInt Date_parse now getCommit completion daysBeforeStale
                     branches) author) /\
    sort [mkStaleBranch n1 (JS.of_Z 5); mkStaleBranch n2 (JS.of_Z 40);
          mkStaleBranch n3 (JS.of_Z 12)] =
      [mkStaleBranch n2 (JS.of_Z 40); mkStaleBranch n3 (JS.of_Z 12);
       mkStaleBranch n1 (JS.of_Z 5)] /\
    digest sample_parseInt sampleDate_parse sampleNow sample_getCommit completion
           (JS.of_Z 3) threeBranches =
      [("dave", [mkStaleBranch "forty" (JS.of_Z 40); mkStaleBranch "twelve" (JS.of_Z 12);
                 mkStaleBranch "five" (JS.of_Z 5)])].
Proof.
  intros parseInt Date_parse now getCommit completion daysBeforeStale
         branches author n1 n2 n3.
  split; [|split].
  - unfold digest. rewrite group_sortGroups. apply sort_sorted.
    apply Forall_forall. intros r Hr.
    apply (Permutation_in _ (classify_group _ _ _ _ _ _ _ _)) in Hr.
    apply in_records in Hr.
    destruct Hr as (branch & commitInfo & evs & _ & _ & Hge & _ & _ & ->).
    exact (proj1 (ge_finite _ _ Hge)).
  - reflexivity.
  - unfold digest.
    change (classify sample_parseInt sampleDate_parse sampleNow sample_getCommit
              completion (JS.of_Z 3) threeBranches)
      with (fold_left
              (processBranch sample_parseInt sampleDate_parse sampleNow
                 sample_getCommit (JS.of_Z 3))
              (arrange (completion 0%nat) threeBranches) ([], [])).
    destruct (arrange_three (completion 0%nat)
                (mkBranch "five" "sha-5" false) (mkBranch "forty" "sha-40" false)
                (mkBranch "twelve" "sha-12" false))
      as [H|[H|[H|[H|[H|[H|[]]]]]]];
      unfold threeBranches; rewrite <- H; vm_compute; reflexivity.
Qed.

(** C8.  When the task of a branch throws, because its retried fetch throws
    or because the push of its record throws, the error is caught in that
    task: a warning naming the branch and the error is logged, the branch
    contributes no record, and the other branches are classified as if the
    failing branch were absent: for every author the group is the same, up to
    the order of ties, whatever the completion orders of the two runs; in
    particular every other branch that meets the threshold and whose own push
    does not throw is still in the group of its author. *)
Theorem failed_branch_is_skipped :
  forall (parseInt : string -> JS.number) (Date_parse : string -> option Z) (now : Z)
         (getCommit : string -> nat -> Error + CommitInfo)
         (completion completion' : nat -> list nat) (daysBeforeStale : JS.number)
         (before after : list Branch) (branch : Branch) (thrown : string),
    ((exists error evs,
         fetchCommit parseInt getCommit branch = (inl error, evs) /\
         thrown = failure_toString error) \/
     (exists commitInfo evs,
         fetchCommit parseInt getCommit branch = (inr commitInfo, evs) /\
         JS.ge (daysSince Date_parse now commitInfo) daysBeforeStale = true /\
         JS.inherited (authorOf commitInfo) = true /\
         thrown = Error_toString push_is_not_a_function)) ->
    In (Warning ("Failed to process branch " ++ name branch ++ ": " ++ thrown))
       (snd (classify parseInt Date_parse now getCommit completion daysBeforeStale
               (before ++ branch :: after))) /\
    (forall author,
        Permutation
          (group (digest parseInt Date_parse now getCommit completion
                    daysBeforeStale (before ++ branch :: after)) author)
          (group (digest parseInt Date_parse now getCommit completion'
                    daysBeforeStale (before ++ after)) author)) /\
    (forall other commitInfo evs',
        In other (before ++ after) ->
        fetchCommit parseInt getCommit other = (inr commitInfo, evs') ->
        JS.ge (daysSince Date_parse now commitInfo) daysBeforeStale = true ->
        JS.inherited (authorOf commitInfo) = false ->
        In (mkStaleBranch (name other) (daysSince Date_parse now commitInfo))
           (group (digest parseInt Date_parse now getCommit completion
                     daysBeforeStale (before ++ branch :: after))
              (authorOf commitInfo))).
Proof.
  intros parseInt Date_parse now getCommit completion completion' daysBeforeStale
         before after branch thrown Hthrows.
  assert (Hnone : forall author,
             recordsOf parseInt Date_parse now getCommit daysBeforeStale author branch
             = []).
  { intros author. unfold recordsOf.
    destruct Hthrows as [(error & evs & Hfetch & _)
                        |(commitInfo & evs & Hfetch & Hge & Hi & _)];
      rewrite Hfetch; [reflexivity|].
    rewrite Hge. cbn [andb].
    destruct (String.eqb (authorOf commitInfo) author) eqn:Ha; [|reflexivity].
    apply String.eqb_eq in Ha. subst author. rewrite Hi. reflexivity. }
  assert (Hwarn : In (Warning ("Failed to process branch " ++ name branch ++ ": "
                               ++ thrown))
                     (eventsOf parseInt Date_parse now getCommit daysBeforeStale branch)).
  { unfold eventsOf.
    destruct Hthrows as [(error & evs & Hfetch & ->)
                        |(commitInfo & evs & Hfetch & Hge & Hi & ->)];
      rewrite Hfetch; [|rewrite Hge, Hi; cbn [andb]];
      apply in_or_app; right; left; reflexivity. }
  split; [|split].
  - apply (Permutation_in _ (Permutation_sym (classify_log _ _ _ _ _ _ _))).
    apply in_flat_map. exists branch. split; [|exact Hwarn].
    apply in_or_app. right. left. reflexivity.
  - intros author. rewrite !digest_group.
    rewrite !flat_map_app. cbn [flat_map]. rewrite Hnone. reflexivity.
  - intros other commitInfo evs' Hin Hother Hge Hi.
    apply (Permutation_in _ (Permutation_sym (digest_group _ _ _ _ _ _ _ _))).
    apply in_records. exists other, commitInfo, evs'. repeat split; try assumption.
    apply in_app_or in Hin. apply in_or_app.
    destruct Hin as [Hin|Hin]; [left | right; right]; exact Hin.
Qed.

Lemma failed_branch_is_skipped_witness :
  In (Warning ("Failed to process branch " ++ "ghost" ++ ": "
               ++ "HttpError: Not Found"))
     (snd (classify sample_parseInt sampleDate_parse sampleNow sample_getCommit
             sequential (JS.of_Z 30)
             ([mkBranch "young" "sha-young" false]
                ++ mkBranch "ghost" "sha-unknown" false
                :: [mkBranch "old" "sha-old" false]))) /\
  In (Warning ("Failed to process branch " ++ "legacy-api" ++ ": "
               ++ "TypeError: staleBranchesByAuthor[author].push is not a function"))
     (snd (classify sample_parseInt sampleDate_parse sampleNow sample_getCommit
             sequential (JS.of_Z 30)
             ([mkBranch "old" "sha-old" false]
                ++ mkBranch "legacy-api" "sha-ctor" false :: []))).
Proof.
  exact (conj
           (proj1
              (failed_branch_is_skipped sample_parseInt sampleDate_parse sampleNow
                 sample_getCommit sequential sequential (JS.of_Z 30)
                 [mkBranch "young" "sha-young" false] [mkBranch "old" "sha-old" false]
                 (mkBranch "ghost" "sha-unknown" false) "HttpError: Not Found"
                 (or_introl
                    (ex_intro _ (Rethrown notFound)
                       (ex_intro _
                          (snd (fetchCommit sample_parseInt sample_getCommit
                                  (mkBranch "ghost" "sha-unknown" false)))
                          (conj eq_refl eq_refl))))))
           (proj1
              (failed_branch_is_skipped sample_parseInt sampleDate_parse sampleNow
                 sample_getCommit sequential sequential (JS.of_Z 30)
                 [mkBranch "old" "sha-old" false] []
                 (mkBranch "legacy-api" "sha-ctor" false)
                 "TypeError: staleBranchesByAuthor[author].push is not a function"
                 (or_intror
                    (ex_intro _
                       (mkCommitInfo (Some "2024-01-01T00:00:00Z") (Some "constructor"))
                       (ex_intro _ []
                          (conj eq_refl (conj eq_refl (conj eq_refl eq_refl))))))))).
Defined.

(** ** Notification *)

Lemma posts_backoff (parseInt : string -> JS.number) (attempt : Z) (error : Error) :
  posts (backoff parseInt attempt error) = [].
Proof.
  unfold backoff.
  destruct (if rate_limited error then retryAfter_hint error else None); reflexivity.
Qed.

Lemma posts_retry_loop {W T : Type} (parseInt : string -> JS.number)
      (request : W -> (Error + T) * W) (maxRetries : Z) :
  forall (fuel : nat) (attempt : Z) (w : W),
    posts (snd (retry_loop parseInt request maxRetries fuel attempt w)) = [].
Proof.
  induction fuel as [|fuel IH]; intros attempt w; [reflexivity|].
  cbn [retry_loop].
  destruct (attempt <=? maxRetries); [|reflexivity].
  destruct (request w) as [[e|v] w']; [|reflexivity].
  destruct (attempt =? maxRetries); [reflexivity|].
  specialize (IH (attempt + 1) w').
  destruct (retry_loop _ _ _ _ _ _) as [[r w''] evs]. cbn [snd] in *.
  rewrite posts_app, posts_backoff, IH. reflexivity.
Qed.

Lemma posts_eventsOf (parseInt : string -> JS.number)
      (Date_parse : string -> option Z) (now : Z)
      (getCommit : string -> nat -> Error + CommitInfo)
      (daysBeforeStale : JS.number) (branch : Branch) :
  posts (eventsOf parseInt Date_parse now getCommit daysBeforeStale branch) = [].
Proof.
  unfold eventsOf, fetchCommit, makeRequestWithRetry.
  assert (H := posts_retry_loop parseInt
                 (fun calls : nat => (getCommit (sha branch) calls, S calls))
                 defaultMaxRetries (Z.to_nat defaultMaxRetries) 1 0%nat).
  destruct (retry_loop _ _ _ _ _ _) as [[[error|commitInfo] w] evs]; cbn [snd] in H.
  - rewrite posts_app, H. reflexivity.
  - destruct (_ && _)%bool; [|exact H].
    rewrite posts_app, H. reflexivity.
Qed.

(** Classification posts nothing. *)
Lemma posts_classify (parseInt : string -> JS.number) (Date_parse : string -> option Z)
      (now : Z) (getCommit : string -> nat -> Error + CommitInfo)
      (completion : nat -> list nat) (daysBeforeStale : JS.number)
      (branches : list Branch) :
  posts (snd (classify parseInt Date_parse now getCommit completion daysBeforeStale
                branches)) = [].
Proof.
  apply Permutation_nil. symmetry.
  unfold posts at 1.
  rewrite (Permutation_flat_map _ (classify_log _ _ _ _ _ _ _)).
  fold (posts (flat_map (eventsOf parseInt Date_parse now getCommit daysBeforeStale)
                 branches)).
  induction branches as [|b branches IH]; [reflexivity|].
  cbn [flat_map]. rewrite posts_app, posts_eventsOf. exact IH.
Qed.

Section NotifyFacts.

Context {W : Type}.
Variable post : string -> string -> W -> (Error + unit) * W.
Variable slackWebhookUrl : string.
Variable SLACK_USERS : option string.

Local Abbreviation send := (notify post slackWebhookUrl SLACK_USERS).
Local Abbreviation payload := (payloadFor SLACK_USERS).


(** When the webhook accepts every message, every author gets a POST. *)
Lemma notify_posts_all (o : JS.object (list StaleBranch)) :
  (forall body w, fst (post slackWebhookUrl body w) = inr tt) ->
  forall (authors : list string) (w : W),
    fst (fst (send authors o w)) = inr tt /\
    snd (send authors o w) =
      map (fun author => Post slackWebhookUrl (payload o author)) authors.
Proof.
  intros Haccept. induction authors as [|author authors IH]; intros w.
  - split; reflexivity.
  - cbn [notify]. specialize (Haccept (payload o author) w).
    destruct (post slackWebhookUrl (payload o author) w) as [[error|[]] w'];
      [discriminate|].
    destruct (IH w') as [Hr Hevs].
    destruct (send authors o w') as [[r w''] evs]. cbn [fst snd] in *.
    rewrite Hevs. split; [exact Hr | reflexivity].
Qed.


End NotifyFacts.

Lemma posts_map_Post (url : string) (bodies : list string) :
  posts (map (Post url) bodies) = map (pair url) bodies.
Proof. induction bodies as [|b bodies IH]; simpl; [|rewrite IH]; reflexivity. Qed.








(** ** The earlier revision *)

Section LegacyFacts.

Variable Date_parse : string -> option Z.
Variable now : Z.

(** A commit without a committer date has age [-1], which is below every
    threshold above [-1]: the branch is not stale. *)
Lemma legacy_no_date_not_stale (commitInfo : CommitInfo) (threshold : Q) :
  committer_date commitInfo = None ->
  (-1 < threshold)%Q ->
  Legacy.isStale Date_parse now (JS.Num threshold) commitInfo = false.
Proof.
  intros Hdate Hlt. unfold Legacy.isStale, Legacy.getDaysSinceLastCommit.
  rewrite Hdate. cbn [JS.ge JS.of_Z].
  destruct (Qle_bool threshold (inject_Z (-1))) eqn:E; [|reflexivity].
  apply Qle_bool_iff in E. unfold inject_Z in E. lra.
Qed.

(** With a threshold of [-1] or less the same branch passes the filter. *)
Lemma legacy_no_date_stale_below_sentinel (commitInfo : CommitInfo) (threshold : Q) :
  committer_date commitInfo = None ->
  (threshold <= -1)%Q ->
  Legacy.isStale Date_parse now (JS.Num threshold) commitInfo = true.
Proof.
  intros Hdate Hle. unfold Legacy.isStale, Legacy.getDaysSinceLastCommit.
  rewrite Hdate. cbn [JS.ge JS.of_Z]. apply Qle_bool_iff. unfold inject_Z. lra.
Qed.

(** A committer date that does not parse gives the age [NaN]: not stale. *)
Lemma legacy_bad_date_not_stale (commitInfo : CommitInfo) (s : string)
      (daysBeforeStale : JS.number) :
  committer_date commitInfo = Some s ->
  s = "" \/ Date_parse s = None ->
  Legacy.isStale Date_parse now daysBeforeStale commitInfo = false.
Proof.
  intros Hdate Hbad. unfold Legacy.isStale, Legacy.getDaysSinceLastCommit.
  rewrite Hdate.
  replace (getTime Date_parse s) with JS.NaN; [reflexivity|].
  unfold getTime. destruct Hbad as [-> | Hs]; [reflexivity|].
  rewrite Hs. destruct (String.eqb s ""); reflexivity.
Qed.

End LegacyFacts.

Section LegacyPagedServer.

Variable repository : list Branch.

Lemma legacy_pages_loop_pagedServer (j : nat) :
  forall (k fuel : nat) (requests : list ListBranchesParams),
    (length (visible repository) / 100 = k + j)%nat ->
    Legacy.pages_loop (pagedServer repository) (S j + fuel) (Z.of_nat (S k))
      (firstn (100 * k) (visible repository)) requests =
      Some (inr (visible repository),
            (requests ++ map pageRequest (seq (S k) (S j)))%list).
Proof.
  induction j as [|j IH]; intros k fuel requests Hpages.
  - cbn [Nat.add Legacy.pages_loop pagedServer].
    change (mkParams false 100 (Z.of_nat (S k))) with (pageRequest (S k)).
    assert (Hlen := length_served_page repository k).
    assert (Hshort : (length (visible repository) - 100 * k < 100)%nat).
    { assert (H := Nat.div_mod_eq (length (visible repository)) 100).
      assert (H' := Nat.mod_upper_bound (length (visible repository)) 100).
      lia. }
    replace (Z.of_nat (length (served repository (pageRequest (S k)))) =? 100)
      with false by (symmetry; apply Z.eqb_neq; lia).
    rewrite served_page, firstn_firstn_skipn, firstn_all2 by lia.
    reflexivity.
  - change (S (S j) + fuel)%nat with (S (S j + fuel)).
    cbn [Legacy.pages_loop pagedServer].
    change (mkParams false 100 (Z.of_nat (S k))) with (pageRequest (S k)).
    assert (Hlen := length_served_page repository k).
    assert (Hfull : (100 <= length (visible repository) - 100 * k)%nat).
    { assert (H := Nat.div_mod_eq (length (visible repository)) 100). lia. }
    replace (Z.of_nat (length (served repository (pageRequest (S k)))) =? 100)
      with true by (symmetry; apply Z.eqb_eq; lia).
    rewrite served_page, firstn_firstn_skipn.
    replace (100 * k + 100)%nat with (100 * S k)%nat by lia.
    replace (Z.of_nat (S k) + 1) with (Z.of_nat (S (S k))) by lia.
    rewrite IH by lia.
    rewrite <- app_assoc. reflexivity.
Qed.

(** Against the paged server the earlier enumeration returns the same
    branches from the same requests. *)
Lemma legacy_getAllBranches_pagedServer (fuel : nat) :
  (length (visible repository) / 100 < fuel)%nat ->
  Legacy.getAllBranches (pagedServer repository) fuel [] =
    Some (inr (visible repository),
          map pageRequest (seq 1 (S (length (visible repository) / 100)))).
Proof.
  intros Hfuel. unfold Legacy.getAllBranches.
  replace fuel with (S (length (visible repository) / 100)
                     + (fuel - S (length (visible repository) / 100)))%nat by lia.
  rewrite (legacy_pages_loop_pagedServer _ 0 _ []) by reflexivity.
  reflexivity.
Qed.

End LegacyPagedServer.

(** * Further properties *)

(** ** The retrying wrapper: calls and waits *)

Section RetryCalls.

Context {W T : Type}.
Variable parseInt : string -> JS.number.
Variable request : W -> (Error + T) * W.
Variable maxRetries : Z.

Lemma retry_loop_calls :
  forall (fuel : nat) (attempt : Z) (w : W),
    Z.of_nat fuel = maxRetries + 1 - attempt ->
    (1 <= fuel)%nat ->
    exists n,
      (1 <= n <= fuel)%nat /\
      snd (fst (retry_loop parseInt request maxRetries fuel attempt w)) =
        after_calls request n w /\
      length (sleeps (snd (retry_loop parseInt request maxRetries fuel attempt w))) =
        (n - 1)%nat /\
      (forall m, (m < n - 1)%nat -> exists e, outcome request m w = inl e) /\
      ((n < fuel)%nat -> exists v, outcome request (n - 1) w = inr v).
Proof.
  induction fuel as [|fuel IH]; intros attempt w Hfuel Hpos; [lia|].
  cbn [retry_loop].
  replace (attempt <=? maxRetries) with true by (symmetry; apply Z.leb_le; lia).
  destruct (request w) as [[e|v] w1] eqn:Hreq.
  - destruct (attempt =? maxRetries) eqn:Hlast.
    + apply Z.eqb_eq in Hlast. exists 1%nat. cbn [fst snd after_calls].
      rewrite Hreq.
      refine (conj _ (conj eq_refl (conj eq_refl (conj _ _)))); [lia| |lia].
      intros m Hm. lia.
    + apply Z.eqb_neq in Hlast.
      destruct (IH (attempt + 1) w1 ltac:(lia) ltac:(lia))
        as (n & Hn & Hw & Hs & Hfail & Hlast').
      exists (S n).
      destruct (retry_loop _ _ _ _ _ _) as [[r w'] evs]. cbn [fst snd] in *.
      refine (conj _ (conj _ (conj _ (conj _ _)))).
      * lia.
      * cbn [after_calls]. rewrite Hreq. exact Hw.
      * rewrite sleeps_app, length_app, sleeps_backoff, Hs. simpl. lia.
      * intros m Hm. destruct m as [|m].
        -- exists e. unfold outcome. simpl. rewrite Hreq. reflexivity.
        -- destruct (Hfail m ltac:(lia)) as (e' & He').
           exists e'. unfold outcome in *. cbn [after_calls]. rewrite Hreq. exact He'.
      * intros Hlt. destruct (Hlast' ltac:(lia)) as (v & Hv).
        exists v. replace (S n - 1)%nat with (S (n - 1)) by lia.
        unfold outcome in *. cbn [after_calls]. rewrite Hreq. exact Hv.
  - exists 1%nat. cbn [fst snd after_calls]. rewrite Hreq.
    refine (conj _ (conj eq_refl (conj eq_refl (conj _ _)))); [lia| |].
    + intros m Hm. lia.
    + intros _. exists v. unfold outcome. simpl. rewrite Hreq. reflexivity.
Qed.

End RetryCalls.

(** X1.  With a budget of at least one attempt the wrapper calls the operation
    [n] times, for some [n] between 1 and [maxRetries]: the calls before the
    last all failed, a run that stops before the budget is spent stopped on a
    success, and the wrapper waited exactly [n - 1] times: once between two
    calls, never before the first and never after the last. *)
Theorem makeRequestWithRetry_calls_and_waits :
  forall (W T : Type) (parseInt : string -> JS.number)
         (request : W -> (Error + T) * W) (maxRetries : Z) (w : W),
    1 <= maxRetries ->
    exists n,
      (1 <= n <= Z.to_nat maxRetries)%nat /\
      snd (fst (makeRequestWithRetry parseInt request maxRetries w)) =
        after_calls request n w /\
      length (sleeps (snd (makeRequestWithRetry parseInt request maxRetries w))) =
        (n - 1)%nat /\
      (forall m, (m < n - 1)%nat -> exists e, outcome request m w = inl e) /\
      ((n < Z.to_nat maxRetries)%nat -> exists v, outcome request (n - 1) w = inr v).
Proof.
  intros W T parseInt request maxRetries w Hmax.
  apply retry_loop_calls; lia.
Qed.

Lemma makeRequestWithRetry_calls_and_waits_witness :
  exists n,
    (1 <= n <= Z.to_nat 5)%nat /\
    snd (fst (makeRequestWithRetry sample_parseInt
                (flaky [serverError; rateLimited "7"] 42) 5 0%nat)) =
      after_calls (flaky [serverError; rateLimited "7"] 42) n 0%nat /\
    length (sleeps (snd (makeRequestWithRetry sample_parseInt
                           (flaky [serverError; rateLimited "7"] 42) 5 0%nat))) =
      (n - 1)%nat /\
    (forall m, (m < n - 1)%nat ->
               exists e, outcome (flaky [serverError; rateLimited "7"] 42) m 0%nat = inl e) /\
    ((n < Z.to_nat 5)%nat ->
     exists v, outcome (flaky [serverError; rateLimited "7"] 42) (n - 1) 0%nat = inr v).
Proof.
  exact (makeRequestWithRetry_calls_and_waits nat Z sample_parseInt
           (flaky [serverError; rateLimited "7"] 42) 5 0%nat
           ltac:(vm_compute; discriminate)).
Defined.

(** X2.  With a budget below one attempt the operation is never called: the
    world is unchanged, nothing is logged, and the wrapper throws its own
    "Max retries exceeded". *)
Theorem makeRequestWithRetry_without_budget :
  forall (W T : Type) (parseInt : string -> JS.number)
         (request : W -> (Error + T) * W) (maxRetries : Z) (w : W),
    maxRetries < 1 ->
    makeRequestWithRetry parseInt request maxRetries w = (inl MaxRetriesExceeded, w, []).
Proof.
  intros W T parseInt request maxRetries w H.
  unfold makeRequestWithRetry.
  replace (Z.to_nat maxRetries) with 0%nat by lia. reflexivity.
Qed.

Lemma makeRequestWithRetry_without_budget_witness :
  makeRequestWithRetry sample_parseInt (flaky [] 42) 0 0%nat =
    (inl MaxRetriesExceeded, 0%nat, []).
Proof.
  exact (makeRequestWithRetry_without_budget nat Z sample_parseInt (flaky [] 42) 0 0%nat
           ltac:(vm_compute; reflexivity)).
Defined.

(** ** Durations of fractional, negative and unknown ages *)

Lemma Qfloor_div_pos (q : Q) (k : positive) :
  Qfloor (q / inject_Z (Z.pos k)) = Qfloor q / Z.pos k.
Proof.
  destruct q as [n d]. unfold Qfloor, Qdiv, Qinv, Qmult, inject_Z.
  cbn [Qnum Qden]. rewrite Z.mul_1_r, Pos2Z.inj_mul.
  rewrite Z.div_div by lia. reflexivity.
Qed.

Lemma Math_floor_div (n : JS.number) (k : positive) :
  JS.Math_floor (JS.div n k) = option_map (fun z => z / Z.pos k) (JS.Math_floor n).
Proof.
  destruct n as [|q]; [reflexivity|].
  unfold JS.Math_floor, JS.div, option_map. f_equal.
  rewrite (Qfloor_comp _ _ (Qred_correct _)). apply Qfloor_div_pos.
Qed.

(** The floor of [q % k], for either sign of [q]. *)
Lemma Math_floor_rem (q : Q) (k : positive) :
  JS.Math_floor (JS.rem (JS.Num q) k) =
    Some (Z.rem (Qnum q) (Z.pos (Qden q * k)) / Z.pos (Qden q)).
Proof.
  destruct q as [n d]. unfold JS.Math_floor, JS.rem. f_equal.
  rewrite (Qfloor_comp _ _ (Qred_correct _)).
  unfold JS.Qtrunc, Qfloor, Qdiv, Qinv, Qmult, Qminus, Qplus, Qopp, inject_Z.
  cbn [Qnum Qden]. rewrite !Z.mul_1_r, !Pos.mul_1_l, !Pos.mul_1_r.
  f_equal. rewrite Pos2Z.inj_mul.
  assert (H := Z.quot_rem' n (Z.pos d * Z.pos k)).
  set (t := n ÷ (Z.pos d * Z.pos k)) in *.
  set (r := Z.rem n (Z.pos d * Z.pos k)) in *. nia.
Qed.

Lemma rem_div_nonneg (n : Z) (d k : positive) :
  0 <= n ->
  Z.rem n (Z.pos (d * k)) / Z.pos d = (n / Z.pos d) mod Z.pos k.
Proof.
  intros Hn. rewrite Z.rem_mod_nonneg by lia.
  rewrite Pos2Z.inj_mul, Z.rem_mul_r by lia.
  rewrite Z.mul_comm, Z.div_add by lia.
  rewrite Z.div_small by (apply Z.mod_pos_bound; lia). lia.
Qed.

(** X3.  On a non-negative age [parseTime] ignores the fraction of a day: with
    [f] the whole days of the age, the years are [f / 365], the months
    [(f mod 365) / 30] and the days [f mod 30]. *)
Theorem parseTime_whole_days :
  forall q : Q,
    (0 <= q)%Q ->
    parseTime (JS.Num q) = parseTime (JS.of_Z (Qfloor q)) /\
    parseTime (JS.Num q) =
      formatDuration (Qfloor q / 365) ((Qfloor q mod 365) / 30) (Qfloor q mod 30).
Proof.
  intros [n d] Hq.
  assert (Hn : 0 <= n).
  { unfold Qle in Hq. simpl in Hq. lia. }
  change (Qfloor (n # d)) with (n / Z.pos d).
  assert (Hf : 0 <= n / Z.pos d) by (apply Z.div_pos; lia).
  assert (Hform : parseTime (JS.Num (n # d)) =
                  formatDuration (n / Z.pos d / 365) ((n / Z.pos d) mod 365 / 30)
                    ((n / Z.pos d) mod 30)).
  { unfold parseTime.
    rewrite !Math_floor_div, !Math_floor_rem. cbn [JS.Math_floor option_map Qnum Qden].
    rewrite !rem_div_nonneg by exact Hn.
    change (Qfloor (n # d)) with (n / Z.pos d).
    unfold formatDuration, component, plural, JS.gt, JS.toString.
    destruct (0 <? n / Z.pos d / 365), (1 <? n / Z.pos d / 365),
      (0 <? (n / Z.pos d) mod 365 / 30), (1 <? (n / Z.pos d) mod 365 / 30),
      (0 <? (n / Z.pos d) mod 30), (1 <? (n / Z.pos d) mod 30);
      cbn [append]; rewrite ?append_assoc, ?append_nil_r; reflexivity. }
  split; [|exact Hform].
  rewrite Hform, parseTime_of_Z by exact Hf. reflexivity.
Qed.

Lemma parseTime_whole_days_witness :
  parseTime (JS.Num (907 # 20)) = parseTime (JS.of_Z (Qfloor (907 # 20))) /\
  parseTime (JS.Num (907 # 20)) =
    formatDuration (Qfloor (907 # 20) / 365) ((Qfloor (907 # 20) mod 365) / 30)
      (Qfloor (907 # 20) mod 30).
Proof.
  exact (parseTime_whole_days (907 # 20) ltac:(vm_compute; discriminate)).
Defined.

(** X4.  An age that is not at least one day (less than a day, negative, or
    [NaN]) is rendered ["0 days"]. *)
Theorem parseTime_under_a_day :
  forall n : JS.number,
    JS.ge n (JS.of_Z 1) = false -> parseTime n = "0 days".
Proof.
  intros [|q] Hge; [reflexivity|].
  assert (Hq : (q < 1)%Q).
  { cbn [JS.ge JS.of_Z] in Hge.
    destruct (Qlt_le_dec q 1) as [H|H]; [exact H|].
    apply Qle_bool_iff in H. unfold inject_Z in Hge. congruence. }
  destruct q as [n d]. unfold Qlt in Hq. cbn [Qnum Qden] in Hq.
  rewrite Z.mul_1_r, Z.mul_1_l in Hq.
  assert (Hrem : forall k : positive, Z.rem n (Z.pos (d * k)) / Z.pos d <= 0).
  { intros k. destruct (Z_lt_le_dec n 0) as [Hneg|Hpos].
    - apply Z.div_le_upper_bound; [lia|].
      assert (H := Z.rem_nonpos n (Z.pos (d * k)) ltac:(lia) ltac:(lia)). lia.
    - assert (Hk : Z.pos d * 1 <= Z.pos d * Z.pos k)
        by (apply Z.mul_le_mono_nonneg_l; lia).
      rewrite Z.rem_small by (rewrite Pos2Z.inj_mul; lia).
      rewrite Z.div_small by lia. lia. }
  assert (Hfloor : n / Z.pos d <= 0).
  { assert (H : n / Z.pos d < 1) by (apply Z.div_lt_upper_bound; lia). lia. }
  unfold parseTime.
  rewrite !Math_floor_div, !Math_floor_rem. cbn [JS.Math_floor option_map Qnum Qden].
  unfold Qfloor. cbn [Qnum Qden].
  assert (H1 : n / Z.pos d / 365 <= 0) by (apply Z.div_le_upper_bound; lia).
  assert (H2 : Z.rem n (Z.pos (d * 365)) / Z.pos d / 30 <= 0).
  { apply Z.div_le_upper_bound; [lia|]. specialize (Hrem 365%positive). lia. }
  assert (H3 := Hrem 30%positive).
  unfold JS.gt.
  replace (0 <? n / Z.pos d / 365) with false by (symmetry; apply Z.ltb_ge; exact H1).
  replace (0 <? Z.rem n (Z.pos (d * 365)) / Z.pos d / 30) with false
    by (symmetry; apply Z.ltb_ge; exact H2).
  replace (0 <? Z.rem n (Z.pos (d * 30)) / Z.pos d) with false
    by (symmetry; apply Z.ltb_ge; exact H3).
  reflexivity.
Qed.

Lemma parseTime_under_a_day_witness :
  parseTime (JS.Num (-7 # 2)) = "0 days".
Proof.
  exact (parseTime_under_a_day (JS.Num (-7 # 2)) eq_refl).
Defined.

(** ** The mapping from logins to mentions *)

Lemma split_free (sep : ascii) (a : string) :
  free_of sep a = true -> JS.split sep a = [a].
Proof.
  induction a as [|x a IH]; simpl; [reflexivity|].
  destruct (Ascii.eqb x sep); simpl; [discriminate|].
  intros H. rewrite (IH H). reflexivity.
Qed.

Lemma split_app (sep : ascii) (a rest : string) :
  free_of sep a = true ->
  JS.split sep (a ++ String sep rest) = a :: JS.split sep rest.
Proof.
  induction a as [|x a IH]; simpl.
  - intros _. rewrite Ascii.eqb_refl. reflexivity.
  - destruct (Ascii.eqb x sep); simpl; [discriminate|].
    intros H. rewrite (IH H). reflexivity.
Qed.

Lemma or_else_empty (s : string) : JS.or_else s "" = s.
Proof. destruct s; reflexivity. Qed.

Lemma get_app {V : Type} (a b : JS.object V) (k : string) :
  JS.get (a ++ b)%list k =
    match JS.get a k with
    | Some v => Some v
    | None => JS.get b k
    end.
Proof.
  induction a as [|[k0 v0] a IH]; simpl; [reflexivity|].
  destruct (String.eqb k0 k); [reflexivity | exact IH].
Qed.

(** [Object.fromEntries]: for a key that comes several times the last entry
    counts. *)
Lemma get_fold_set {V : Type} (entries : list (string * V)) :
  forall (o : JS.object V) (k : string),
    JS.get (fold_left (fun o kv => JS.set o (fst kv) (snd kv)) entries o) k =
      match JS.get (rev entries) k with
      | Some v => Some v
      | None => JS.get o k
      end.
Proof.
  induction entries as [|[k0 v0] entries IH]; intros o k; [reflexivity|].
  cbn [fold_left rev fst snd]. rewrite IH, get_app, get_set.
  destruct (JS.get (rev entries) k); [reflexivity|].
  simpl. destruct (String.eqb k0 k); reflexivity.
Qed.

Lemma get_In_NoDup {V : Type} (o : JS.object V) (k : string) (v : V) :
  NoDup (JS.keys o) -> In (k, v) o -> JS.get o k = Some v.
Proof.
  unfold JS.keys. induction o as [|[k0 v0] o IH]; simpl; [contradiction|].
  intros Hnodup [Heq|Hin].
  - injection Heq as -> ->. rewrite String.eqb_refl. reflexivity.
  - inversion Hnodup as [|? ? Hnotin Hrest]; subst.
    destruct (String.eqb k0 k) eqn:E; [|exact (IH Hrest Hin)].
    apply String.eqb_eq in E. subst k0. contradiction Hnotin.
    apply (in_map fst) in Hin. exact Hin.
Qed.

Lemma split_joinMappings (entries : list (string * string)) :
  Forall (fun kv => (plain (fst kv) && plain (snd kv))%bool = true) entries ->
  entries <> [] ->
  JS.split "," (joinMappings entries) =
    map (fun kv => fst kv ++ ":" ++ snd kv) entries.
Proof.
  induction entries as [|[k v] entries IH]; intros Hplain Hne; [contradiction Hne; reflexivity|].
  inversion Hplain as [|? ? Hkv Hrest]; subst. cbn [fst snd] in Hkv.
  apply andb_prop in Hkv. destruct Hkv as [Hk Hv].
  unfold plain in Hk, Hv.
  apply andb_prop in Hk. destruct Hk as [Hk _].
  apply andb_prop in Hv. destruct Hv as [Hv _].
  assert (Hfree : free_of "," (k ++ ":" ++ v) = true).
  { rewrite free_of_app, Hk. simpl. exact Hv. }
  destruct entries as [|e entries].
  - cbn [joinMappings map fst snd]. rewrite (split_free _ _ Hfree). reflexivity.
  - change (joinMappings ((k, v) :: e :: entries))
      with (k ++ ":" ++ v ++ "," ++ joinMappings (e :: entries)).
    replace (k ++ ":" ++ v ++ "," ++ joinMappings (e :: entries))
      with ((k ++ ":" ++ v) ++ String "," (joinMappings (e :: entries)))
      by (rewrite !append_assoc; reflexivity).
    rewrite (split_app _ _ _ Hfree), IH by (exact Hrest || discriminate).
    reflexivity.
Qed.

(** The lookup in the parsed [SLACK_USERS] is the lookup of the last mapping
    of the login. *)
Lemma slackUsers_lookup_joinMappings (entries : list (string * string))
      (gitUsername : string) :
  Forall (fun kv => (plain (fst kv) && plain (snd kv))%bool = true) entries ->
  slackUsers_lookup (Some (joinMappings entries)) gitUsername =
    match JS.get (rev entries) gitUsername with
    | Some handle => Some handle
    | None => JS.get JS.Object_prototype gitUsername
    end.
Proof.
  intros Hplain. unfold slackUsers_lookup, JS.index, slackUsers.
  destruct entries as [|e entries].
  - cbn [rev JS.get joinMappings JS.or_default JS.or_else String.eqb JS.split map
         hd nth_error JS.fromEntries fold_left JS.set fst snd].
    destruct gitUsername; [reflexivity|]. cbn [String.eqb].
    destruct (JS.get JS.Object_prototype _); reflexivity.
  - cbn [JS.or_default]. rewrite or_else_empty.
    rewrite split_joinMappings by (exact Hplain || discriminate).
    rewrite map_map. unfold JS.fromEntries.
    rewrite get_fold_set. cbn [JS.get].
    assert (Hentries :
              map (fun kv : string * string =>
                     (hd "" (JS.split ":" (fst kv ++ ":" ++ snd kv)),
                      nth_error (JS.split ":" (fst kv ++ ":" ++ snd kv)) 1))
                  (e :: entries)
              = map (fun kv => (fst kv, Some (snd kv))) (e :: entries)).
    { apply map_ext_in. intros [k v] Hin. cbn [fst snd].
      rewrite Forall_forall in Hplain. specialize (Hplain _ Hin).
      cbn [fst snd] in Hplain. apply andb_prop in Hplain. destruct Hplain as [Hk Hv].
      unfold plain in Hk, Hv.
      apply andb_prop in Hk. destruct Hk as [_ Hk].
      apply andb_prop in Hv. destruct Hv as [_ Hv].
      change (k ++ ":" ++ v) with (k ++ String ":" v).
      rewrite (split_app _ _ _ Hk), (split_free _ _ Hv). reflexivity. }
    rewrite Hentries, <- map_rev, get_map_snd.
    destruct (JS.get (rev (e :: entries)) gitUsername); cbn [option_map];
      [reflexivity|].
    destruct (JS.get JS.Object_prototype gitUsername); reflexivity.
Qed.

(** X5.  When [SLACK_USERS] is a comma-separated list of [login:handle]
    mappings (logins and handles without comma or colon), a login is rendered
    with the handle of its last mapping followed by the login in parentheses.
    A login without mapping is rendered with ["undefined"] in place of the
    handle, unless it names a member of [Object.prototype]: it is then
    rendered with that member, for ["constructor"] the text of the function
    [Object].  In particular, with distinct logins, each mapped login gets its
    own handle. *)
Theorem getSlackUsername_of_mappings :
  forall (entries : list (string * string)) (gitUsername : string),
    Forall (fun kv => (plain (fst kv) && plain (snd kv))%bool = true) entries ->
    getSlackUsername (Some (joinMappings entries)) gitUsername =
      match JS.get (rev entries) gitUsername with
      | Some handle => handle
      | None =>
          match JS.get JS.Object_prototype gitUsername with
          | Some member => member
          | None => "undefined"
          end
      end ++ " (" ++ gitUsername ++ ")" /\
    (forall handle,
        NoDup (map fst entries) ->
        In (gitUsername, handle) entries ->
        getSlackUsername (Some (joinMappings entries)) gitUsername =
          handle ++ " (" ++ gitUsername ++ ")") /\
    (~ In gitUsername (map fst entries) ->
     JS.inherited gitUsername = false ->
     getSlackUsername (Some (joinMappings entries)) gitUsername =
       "undefined (" ++ gitUsername ++ ")") /\
    (~ In "constructor" (map fst entries) ->
     getSlackUsername (Some (joinMappings entries)) "constructor" =
       "function Object() { [native code] } (constructor)").
Proof.
  intros entries gitUsername Hplain.
  assert (Hgen : forall u,
             getSlackUsername (Some (joinMappings entries)) u =
             match JS.get (rev entries) u with
             | Some handle => handle
             | None =>
                 match JS.get JS.Object_prototype u with
                 | Some member => member
                 | None => "undefined"
                 end
             end ++ " (" ++ u ++ ")").
  { intros u.
    rewrite getSlackUsername_no_fallback, slackUsers_lookup_joinMappings by exact Hplain.
    destruct (JS.get (rev entries) u); [reflexivity|].
    destruct (JS.get JS.Object_prototype u); reflexivity. }
  assert (Hnone : forall u, ~ In u (map fst entries) -> JS.get (rev entries) u = None).
  { intros u Hu. apply get_None_keys. unfold JS.keys. rewrite map_rev.
    intros Hin. apply Hu. apply in_rev. exact Hin. }
  split; [exact (Hgen gitUsername)|]. split; [|split].
  - intros handle Hnodup Hin. rewrite Hgen.
    rewrite (get_In_NoDup (rev entries) gitUsername handle).
    + reflexivity.
    + unfold JS.keys. rewrite map_rev.
      apply (Permutation_NoDup (Permutation_rev _)). exact Hnodup.
    + apply in_rev in Hin. exact Hin.
  - intros Hu Hi. rewrite Hgen, (Hnone _ Hu). unfold JS.inherited in Hi.
    destruct (JS.get JS.Object_prototype gitUsername); [discriminate | reflexivity].
  - intros Hu. rewrite Hgen, (Hnone _ Hu). reflexivity.
Qed.

Lemma getSlackUsername_of_mappings_witness :
  getSlackUsername (Some "alice:@al,bob:@bobby,alice:@a2") "alice" = "@a2 (alice)" /\
  getSlackUsername (Some "alice:@al,bob:@bobby,alice:@a2") "constructor" =
    "function Object() { [native code] } (constructor)".
Proof.
  exact (conj
           (proj1 (getSlackUsername_of_mappings
                     [("alice", "@al"); ("bob", "@bobby"); ("alice", "@a2")] "alice"
                     ltac:(repeat constructor)))
           (proj2 (proj2 (proj2 (getSlackUsername_of_mappings
                     [("alice", "@al"); ("bob", "@bobby"); ("alice", "@a2")] "alice"
                     ltac:(repeat constructor))))
              ltac:(cbn; intuition discriminate))).
Defined.

(** ** Enumeration: any repository size, transient failures *)

Lemma visible_not_protected (repository : list Branch) :
  Forall (fun b => protected b = false) (visible repository).
Proof.
  apply Forall_forall. intros b Hb. unfold visible in Hb.
  apply filter_In in Hb. destruct Hb as [_ Hb].
  destruct (protected b); [discriminate | reflexivity].
Qed.

(** X6.  Against a server that cuts the listing into pages of the requested
    size, for a repository of any size the enumeration returns exactly the
    non-protected branches, in the server's order, and makes [n / 100 + 1]
    requests, for the pages 1, 2, ... in turn, where [n] is the number of
    non-protected branches; when [n] is a multiple of 100 (an empty
    repository included) the last request is answered with an empty page. *)
Theorem getAllBranches_complete :
  forall (parseInt : string -> JS.number) (repository : list Branch) (fuel : nat),
    (length (visible repository) / 100 < fuel)%nat ->
    getAllBranches parseInt (pagedServer repository) fuel [] =
      Some (visible repository,
            map pageRequest (seq 1 (S (length (visible repository) / 100))), []) /\
    Forall (fun b => protected b = false) (visible repository) /\
    ((length (visible repository) mod 100 = 0)%nat ->
     served repository (pageRequest (S (length (visible repository) / 100))) = []).
Proof.
  intros parseInt repository fuel Hfuel. split; [|split].
  - apply getAllBranches_pagedServer. exact Hfuel.
  - apply visible_not_protected.
  - intros Hmod. apply length_zero_iff_nil.
    rewrite length_served_page.
    assert (H := Nat.div_mod_eq (length (visible repository)) 100). lia.
Qed.

Lemma getAllBranches_complete_witness :
  getAllBranches sample_parseInt (pagedServer mixedRepository) 1 [] =
    Some ([mkBranch "old" "sha-old" false; mkBranch "young" "sha-young" false],
          [pageRequest 1], []).
Proof.
  exact (proj1 (getAllBranches_complete sample_parseInt mixedRepository 1%nat
                  ltac:(vm_compute; repeat constructor))).
Defined.

Section FlakyServer.

Variable parseInt : string -> JS.number.
Variable repository : list Branch.
Variable failures : Z -> nat.

Lemma requestsFor_app (p : Z) (requests : list ListBranchesParams)
      (params : ListBranchesParams) :
  requestsFor p (requests ++ [params]) =
    (requestsFor p requests + if (page params =? p)%Z then 1 else 0)%nat.
Proof.
  unfold requestsFor. rewrite filter_app, length_app. simpl.
  destruct (page params =? p); reflexivity.
Qed.

Lemma flakyServer_fails (p : Z) (k : nat) :
  forall requests,
    (requestsFor p requests + k <= failures p)%nat ->
    fails_with (flakyServer repository failures (mkParams false 100 p))
      (repeat serverError k) requests.
Proof.
  induction k as [|k IH]; intros requests Hk; [exact I|].
  cbn [repeat fails_with flakyServer fst snd page].
  split.
  - replace (requestsFor p requests <? failures p)%nat with true
      by (symmetry; apply Nat.ltb_lt; lia).
    reflexivity.
  - apply IH. rewrite requestsFor_app. cbn [page]. rewrite Z.eqb_refl. lia.
Qed.

Lemma flakyServer_after_calls (p : Z) (k : nat) :
  forall requests,
    after_calls (flakyServer repository failures (mkParams false 100 p)) k requests =
      (requests ++ repeat (mkParams false 100 p) k)%list.
Proof.
  induction k as [|k IH]; intros requests; cbn [after_calls repeat].
  - rewrite app_nil_r. reflexivity.
  - cbn [flakyServer snd]. rewrite IH, <- app_assoc. reflexivity.
Qed.

Lemma requestsFor_repeat (p : Z) (k : nat) (requests : list ListBranchesParams) :
  requestsFor p (requests ++ repeat (mkParams false 100 p) k) =
    (requestsFor p requests + k)%nat.
Proof.
  induction k as [|k IH] in requests |- *; cbn [repeat].
  - rewrite app_nil_r. lia.
  - change (mkParams false 100 p :: repeat (mkParams false 100 p) k)
      with ([mkParams false 100 p] ++ repeat (mkParams false 100 p) k)%list.
    rewrite app_assoc, IH, requestsFor_app. cbn [page]. rewrite Z.eqb_refl. lia.
Qed.

Lemma requestsFor_older (p : Z) (requests : list ListBranchesParams) :
  Forall (fun r => page r < p) requests -> requestsFor p requests = 0%nat.
Proof.
  unfold requestsFor. induction 1 as [|r rs Hr _ IHr]; [reflexivity|].
  cbn [filter].
  replace (page r =? p) with false by (symmetry; apply Z.eqb_neq; lia).
  exact IHr.
Qed.

(** A page that was not requested before is fetched within the budget. *)
Lemma fetchPage_flakyServer (p : Z) (requests : list ListBranchesParams) :
  requestsFor p requests = 0%nat ->
  (failures p < 5)%nat ->
  exists evs,
    fetchPage parseInt (flakyServer repository failures) p requests =
      (inr (served repository (mkParams false 100 p)),
       (requests ++ repeat (mkParams false 100 p) (S (failures p)))%list, evs).
Proof.
  intros Hnone Hbudget. unfold fetchPage.
  change (mkParams false per_page_const p) with (mkParams false 100 p).
  destruct (retry_loop_succeeds parseInt
              (flakyServer repository failures (mkParams false 100 p))
              defaultMaxRetries (repeat serverError (failures p))
              (served repository (mkParams false 100 p)) requests)
    as (evs & Hres & _).
  - apply flakyServer_fails. lia.
  - unfold outcome. rewrite repeat_length, flakyServer_after_calls.
    cbn [flakyServer fst page]. rewrite requestsFor_repeat, Hnone.
    replace (0 + failures p <? failures p)%nat with false
      by (symmetry; apply Nat.ltb_ge; lia).
    reflexivity.
  - rewrite repeat_length. unfold defaultMaxRetries. lia.
  - exists evs. rewrite Hres, repeat_length, flakyServer_after_calls. reflexivity.
Qed.

Lemma pages_loop_flakyServer (j : nat) :
  forall (k fuel : nat) (requests : list ListBranchesParams),
    (forall p, (failures p < 5)%nat) ->
    (length (visible repository) / 100 = k + j)%nat ->
    Forall (fun r => page r < Z.of_nat (S k)) requests ->
    exists requests' evs,
      pages_loop parseInt (flakyServer repository failures) (S j + fuel)
        (Z.of_nat (S k)) (firstn (100 * k) (visible repository)) requests =
        Some (inr tt, visible repository, requests', evs).
Proof.
  induction j as [|j IH]; intros k fuel requests Hbudget Hpages Hold.
  - cbn [Nat.add pages_loop].
    destruct (fetchPage_flakyServer (Z.of_nat (S k)) requests) as (evs & Hfetch).
    { apply requestsFor_older. exact Hold. }
    { apply Hbudget. }
    rewrite Hfetch.
    change (mkParams false 100 (Z.of_nat (S k))) with (pageRequest (S k)).
    assert (Hlen := length_served_page repository k).
    assert (Hshort : (length (visible repository) - 100 * k < 100)%nat).
    { assert (H := Nat.div_mod_eq (length (visible repository)) 100).
      assert (H' := Nat.mod_upper_bound (length (visible repository)) 100).
      lia. }
    replace (Z.of_nat (length (served repository (pageRequest (S k)))) <? per_page_const)
      with true by (symmetry; apply Z.ltb_lt; unfold per_page_const; lia).
    rewrite served_page, firstn_firstn_skipn, firstn_all2 by lia.
    eexists _, _. reflexivity.
  - change (S (S j) + fuel)%nat with (S (S j + fuel)).
    cbn [pages_loop].
    destruct (fetchPage_flakyServer (Z.of_nat (S k)) requests) as (evs & Hfetch).
    { apply requestsFor_older. exact Hold. }
    { apply Hbudget. }
    rewrite Hfetch.
    change (mkParams false 100 (Z.of_nat (S k))) with (pageRequest (S k)).
    assert (Hlen := length_served_page repository k).
    assert (Hfull : (100 <= length (visible repository) - 100 * k)%nat).
    { assert (H := Nat.div_mod_eq (length (visible repository)) 100). lia. }
    replace (Z.of_nat (length (served repository (pageRequest (S k)))) <? per_page_const)
      with false by (symmetry; apply Z.ltb_ge; unfold per_page_const; lia).
    rewrite served_page, firstn_firstn_skipn.
    replace (100 * k + 100)%nat with (100 * S k)%nat by lia.
    replace (Z.of_nat (S k) + 1) with (Z.of_nat (S (S k))) by lia.
    destruct (IH (S k) fuel
                (requests ++ repeat (pageRequest (S k)) (S (failures (Z.of_nat (S k)))))%list
                Hbudget ltac:(lia)) as (requests' & evs' & Hloop).
    { apply Forall_app. split.
      - eapply Forall_impl; [|exact Hold]. cbv beta. intros r Hr. lia.
      - apply Forall_forall. intros r Hr. apply repeat_spec in Hr. subst r.
        unfold pageRequest. cbn [page]. lia. }
    rewrite Hloop. eexists _, _. reflexivity.
Qed.

End FlakyServer.

(** X7.  Transient failures below the retry budget do not lose branches: when
    every page fails fewer than five times before it is served, the
    enumeration still returns exactly the non-protected branches of the
    repository, in order. *)
Theorem getAllBranches_survives_transient_failures :
  forall (parseInt : string -> JS.number) (repository : list Branch)
         (failures : Z -> nat) (fuel : nat),
    (forall p, (failures p < 5)%nat) ->
    (length (visible repository) / 100 < fuel)%nat ->
    exists requests evs,
      getAllBranches parseInt (flakyServer repository failures) fuel [] =
        Some (visible repository, requests, evs).
Proof.
  intros parseInt repository failures fuel Hbudget Hfuel. unfold getAllBranches.
  replace fuel with (S (length (visible repository) / 100)
                     + (fuel - S (length (visible repository) / 100)))%nat by lia.
  destruct (pages_loop_flakyServer parseInt repository failures
              (length (visible repository) / 100) 0
              (fuel - S (length (visible repository) / 100)) [] Hbudget
              eq_refl (Forall_nil _)) as (requests & evs & Hloop).
  change (firstn (100 * 0) (visible repository)) with (@nil Branch) in Hloop.
  change (Z.of_nat 1) with 1 in Hloop.
  rewrite Hloop. exists requests, evs. reflexivity.
Qed.

Lemma sampleFailures_below_budget (p : Z) : (sampleFailures p < 5)%nat.
Proof. unfold sampleFailures. destruct (p =? 2); repeat constructor. Defined.

Lemma getAllBranches_survives_transient_failures_witness :
  exists requests evs,
    getAllBranches sample_parseInt (flakyServer (sampleRepository 250) sampleFailures)
      3 [] = Some (visible (sampleRepository 250), requests, evs).
Proof.
  exact (getAllBranches_survives_transient_failures sample_parseInt
           (sampleRepository 250) sampleFailures 3%nat
           sampleFailures_below_budget
           ltac:(vm_compute; repeat constructor)).
Defined.

(** ** What the wrapper logs *)

Lemma quiet_backoff (parseInt : string -> JS.number) (attempt : Z) (error : Error) :
  Forall quiet (backoff parseInt attempt error).
Proof.
  unfold backoff.
  destruct (if rate_limited error then retryAfter_hint error else None);
    repeat constructor.
Qed.

Lemma quiet_retry_loop {W T : Type} (parseInt : string -> JS.number)
      (request : W -> (Error + T) * W) (maxRetries : Z) :
  forall (fuel : nat) (attempt : Z) (w : W),
    Forall quiet (snd (retry_loop parseInt request maxRetries fuel attempt w)).
Proof.
  induction fuel as [|fuel IH]; intros attempt w; [constructor|].
  cbn [retry_loop].
  destruct (attempt <=? maxRetries); [|constructor].
  destruct (request w) as [[e|v] w']; [|constructor].
  destruct (attempt =? maxRetries); [constructor|].
  specialize (IH (attempt + 1) w').
  destruct (retry_loop _ _ _ _ _ _) as [[r w''] evs]. cbn [snd] in *.
  apply Forall_app. split; [apply quiet_backoff | exact IH].
Qed.

Lemma quiet_silent (evs : list event) :
  Forall quiet evs ->
  posts evs = [] /\ warnings evs = [] /\ forall m, ~ In (SetFailed m) evs.
Proof.
  induction 1 as [|e evs He _ (IHp & IHw & IHf)].
  - repeat split. intros m [].
  - destruct e; try contradiction; cbn [posts warnings flat_map app];
      (repeat split; [exact IHp | exact IHw |]);
      intros m [Hm|Hm]; try discriminate; exact (IHf m Hm).
Qed.

(** X8.  When the setup succeeds and every attempt for the first page fails,
    the run ends without a POST and without being marked failed: the only
    trace of the failure is the warning of the enumeration. *)
Theorem run_first_page_unavailable :
  forall (W : Type) (parseInt : string -> JS.number)
         (Date_parse : string -> option Z) (now : Z)
         (listBranches : ListBranchesParams -> W -> (Error + list Branch) * W)
         (getCommit : string -> nat -> Error + CommitInfo)
         (completion : nat -> list nat)
         (post : string -> string -> W -> (Error + unit) * W)
         (getInput : string -> Error + string)
         (getOctokit : string -> Error + unit) (context_repo : Error + unit)
         (days slackWebhookUrl : string)
         (SLACK_USERS : option string) (token : string) (fuel : nat) (w : W)
         (errors : list Error) (e : Error),
    setup getInput getOctokit context_repo (Some token) =
      inr (days, slackWebhookUrl) ->
    Z.of_nat (length errors) + 1 = defaultMaxRetries ->
    fails_with (listBranches (mkParams false 100 1)) (errors ++ [e]) w ->
    exists evs,
      run parseInt Date_parse now listBranches getCommit completion post
          getInput getOctokit context_repo SLACK_USERS (Some token) (S fuel) w =
        Some (after_calls (listBranches (mkParams false 100 1)) 5 w, evs) /\
      posts evs = [] /\
      warnings evs = ["Error fetching branches: " ++ Error_toString e] /\
      forall m, ~ In (SetFailed m) evs.
Proof.
  intros W parseInt Date_parse now listBranches getCommit completion post
         getInput getOctokit context_repo days slackWebhookUrl SLACK_USERS token
         fuel w errors e Hsetup Hbudget Hfails.
  destruct (retry_loop_exhausts parseInt (listBranches (mkParams false 100 1))
              defaultMaxRetries errors e w Hfails Hbudget) as (evs' & Hfetch & _).
  assert (Hquiet : Forall quiet evs').
  { assert (H := quiet_retry_loop parseInt (listBranches (mkParams false 100 1))
                   defaultMaxRetries (Z.to_nat defaultMaxRetries) 1 w).
    unfold makeRequestWithRetry in Hfetch. rewrite Hfetch in H. exact H. }
  assert (Henum := getAllBranches_failed_page parseInt listBranches w [] 1 w []
                     (Rethrown e) _ evs' (S fuel)
                     (fullPages_nil parseInt listBranches 1 w) Hfetch
                     ltac:(simpl; lia)).
  replace (S (length errors)) with 5%nat in Henum
    by (unfold defaultMaxRetries in Hbudget; lia).
  destruct (quiet_silent evs' Hquiet) as (Hp & Hw & Hf).
  eexists. split; [|split; [|split]].
  - unfold run. rewrite Hsetup, Henum. reflexivity.
  - cbn [concat app]. rewrite !posts_app, Hp. reflexivity.
  - cbn [concat app]. rewrite !warnings_app, Hw. reflexivity.
  - intros m Hin. cbn [concat app] in Hin.
    rewrite app_nil_r in Hin. apply in_app_or in Hin.
    destruct Hin as [Hin|[Hin|[]]]; [exact (Hf m Hin) | discriminate].
Qed.

Lemma run_first_page_unavailable_witness :
  exists evs,
    run sample_parseInt sampleDate_parse sampleNow
        (brokenServer (sampleRepository 250) 0) sample_getCommit sequential
        acceptingWebhook (sampleInputs "30" "https://hooks.example/T")
        sample_getOctokit (inr tt) None (Some "token") 1 [] =
      Some (after_calls (brokenServer (sampleRepository 250) 0 (mkParams false 100 1))
              5 [], evs) /\
    posts evs = [] /\
    warnings evs = ["Error fetching branches: " ++ Error_toString serverError] /\
    forall m, ~ In (SetFailed m) evs.
Proof.
  exact (run_first_page_unavailable (list ListBranchesParams) sample_parseInt
           sampleDate_parse sampleNow (brokenServer (sampleRepository 250) 0)
           sample_getCommit sequential acceptingWebhook
           (sampleInputs "30" "https://hooks.example/T") sample_getOctokit (inr tt)
           "30" "https://hooks.example/T" None "token" 0%nat []
           [serverError; serverError; serverError; serverError] serverError
           eq_refl eq_refl
           (conj eq_refl (conj eq_refl (conj eq_refl (conj eq_refl (conj eq_refl I)))))).
Defined.

(** ** Warnings of the classification *)

Lemma warnings_eventsOf (parseInt : string -> JS.number)
      (Date_parse : string -> option Z) (now : Z)
      (getCommit : string -> nat -> Error + CommitInfo)
      (daysBeforeStale : JS.number) (branch : Branch) :
  warnings (eventsOf parseInt Date_parse now getCommit daysBeforeStale branch) =
    warningOf parseInt Date_parse now getCommit daysBeforeStale branch.
Proof.
  unfold eventsOf, warningOf, fetchCommit, makeRequestWithRetry.
  assert (H := quiet_retry_loop parseInt
                 (fun calls : nat => (getCommit (sha branch) calls, S calls))
                 defaultMaxRetries (Z.to_nat defaultMaxRetries) 1 0%nat).
  destruct (retry_loop _ _ _ _ _ _) as [[[error|commitInfo] w] evs]; cbn [snd] in H.
  - rewrite warnings_app, (proj1 (proj2 (quiet_silent evs H))). reflexivity.
  - destruct (_ && _)%bool.
    + rewrite warnings_app, (proj1 (proj2 (quiet_silent evs H))). reflexivity.
    + exact (proj1 (proj2 (quiet_silent evs H))).
Qed.

(** X9.  The classification logs exactly one warning for every branch whose
    task throws, and no other warning, whatever the order in which the tasks
    complete.  The task of a branch throws when its retried fetch throws, and
    when its commit meets the threshold and the author names a member of
    [Object.prototype]; the warning names the branch and carries the error of
    the fetch in the first case, the [TypeError] of the push in the
    second. *)
Theorem one_warning_per_failed_branch :
  forall (parseInt : string -> JS.number) (Date_parse : string -> option Z) (now : Z)
         (getCommit : string -> nat -> Error + CommitInfo)
         (completion : nat -> list nat) (daysBeforeStale : JS.number)
         (branches : list Branch),
    Permutation
      (warnings (snd (classify parseInt Date_parse now getCommit completion
                        daysBeforeStale branches)))
      (flat_map (warningOf parseInt Date_parse now getCommit daysBeforeStale)
                branches) /\
    In (warnings (snd (classify sample_parseInt sampleDate_parse sampleNow
                         sample_getCommit completion (JS.of_Z 30)
                         [mkBranch "ghost" "sha-unknown" false;
                          mkBranch "legacy-api" "sha-ctor" false;
                          mkBranch "old" "sha-old" false])))
       [["Failed to process branch ghost: HttpError: Not Found";
         "Failed to process branch legacy-api: TypeError: staleBranchesByAuthor[author].push is not a function"];
        ["Failed to process branch legacy-api: TypeError: staleBranchesByAuthor[author].push is not a function";
         "Failed to process branch ghost: HttpError: Not Found"]].
Proof.
  intros parseInt Date_parse now getCommit completion daysBeforeStale branches.
  split.
  - unfold warnings at 1.
    rewrite (Permutation_flat_map _ (classify_log _ _ _ _ _ _ _)).
    fold (warnings (flat_map (eventsOf parseInt Date_parse now getCommit
                                daysBeforeStale) branches)).
    induction branches as [|b branches IH]; [reflexivity|].
    cbn [flat_map]. rewrite warnings_app, warnings_eventsOf.
    apply Permutation_app_head. exact IH.
  - change (classify sample_parseInt sampleDate_parse sampleNow sample_getCommit
              completion (JS.of_Z 30)
              [mkBranch "ghost" "sha-unknown" false;
               mkBranch "legacy-api" "sha-ctor" false;
               mkBranch "old" "sha-old" false])
      with (fold_left
              (processBranch sample_parseInt sampleDate_parse sampleNow
                 sample_getCommit (JS.of_Z 30))
              (arrange (completion 0%nat)
                 [mkBranch "ghost" "sha-unknown" false;
                  mkBranch "legacy-api" "sha-ctor" false;
                  mkBranch "old" "sha-old" false]) ([], [])).
    destruct (completion 0%nat) as [|c0 [|c1 [|c2 rest]]]; cbn [arrange hd tl];
      rewrite ?insert_at_nil;
      try destruct c1 as [|c1]; cbn [insert_at]; rewrite ?insert_at_nil;
      try destruct c0 as [|[|c0]]; cbn [insert_at]; rewrite ?insert_at_nil;
      first [left; vm_compute; reflexivity | right; left; vm_compute; reflexivity].
Qed.

(** ** The digest as a whole *)

Lemma flat_set_none {V : Type} (o : JS.object (list V)) (k : string) (v : list V) :
  JS.get o k = None ->
  flat_map snd (JS.set o k v) = (flat_map snd o ++ v)%list.
Proof.
  induction o as [|[k0 v0] o IH]; simpl.
  - intros _. rewrite app_nil_r. reflexivity.
  - destruct (String.eqb k0 k); [discriminate|].
    intros H. simpl. rewrite (IH H), app_assoc. reflexivity.
Qed.

Lemma flat_set_some {V : Type} (o : JS.object (list V)) (k : string)
      (g : list V) (r : V) :
  JS.get o k = Some g ->
  Permutation (flat_map snd (JS.set o k (g ++ [r])%list)) (flat_map snd o ++ [r]).
Proof.
  induction o as [|[k0 v0] o IH]; simpl; [discriminate|].
  destruct (String.eqb k0 k).
  - intros [= ->]. simpl. rewrite <- !app_assoc.
    apply Permutation_app_head, Permutation_app_comm.
  - intros H. simpl. rewrite (IH H), app_assoc. reflexivity.
Qed.

Lemma flat_pushOwn (o : JS.object (list StaleBranch)) (author : string)
      (r : StaleBranch) :
  Permutation (flat_map snd (pushOwn o author r)) (flat_map snd o ++ [r]).
Proof.
  unfold pushOwn. destruct (JS.get o author) as [g|] eqn:Hget.
  - apply flat_set_some. exact Hget.
  - rewrite (flat_set_none o author [r] Hget). reflexivity.
Qed.

Lemma flat_sortGroups (o : JS.object (list StaleBranch)) :
  Permutation (flat_map snd (sortGroups o)) (flat_map snd o).
Proof.
  unfold sortGroups. induction o as [|[k g] o IH]; simpl; [constructor|].
  apply Permutation_app; [apply Permutation_sort | exact IH].
Qed.

Section Partition.

Variable parseInt : string -> JS.number.
Variable Date_parse : string -> option Z.
Variable now : Z.
Variable getCommit : string -> nat -> Error + CommitInfo.
Variable completion : nat -> list nat.
Variable daysBeforeStale : JS.number.

Local Abbreviation process :=
  (processBranch parseInt Date_parse now getCommit daysBeforeStale).
Local Abbreviation stale :=
  (staleRecords parseInt Date_parse now getCommit daysBeforeStale).
Local Abbreviation loop :=
  (batches_loop parseInt Date_parse now getCommit completion daysBeforeStale).

Lemma processBranch_flat (st : JS.object (list StaleBranch) * list event)
      (branch : Branch) :
  plain_keys (fst st) ->
  Permutation (flat_map snd (fst (process st branch)))
              (flat_map snd (fst st) ++ stale branch).
Proof.
  destruct st as [o log]. cbn [fst]. intros Hplain.
  rewrite processBranch_cases by exact Hplain. unfold staleRecords.
  destruct (fetchCommit parseInt getCommit branch) as [[error|commitInfo] evs];
    cbn [fst].
  - rewrite app_nil_r. reflexivity.
  - destruct (JS.ge (daysSince Date_parse now commitInfo) daysBeforeStale);
      cbn [fst andb].
    + destruct (JS.inherited (authorOf commitInfo)); cbn [fst negb].
      * rewrite app_nil_r. reflexivity.
      * apply flat_pushOwn.
    + rewrite app_nil_r. reflexivity.
Qed.

Lemma fold_left_flat (branches : list Branch)
      (st : JS.object (list StaleBranch) * list event) :
  plain_keys (fst st) ->
  Permutation (flat_map snd (fst (fold_left process branches st)))
              (flat_map snd (fst st) ++ flat_map stale branches).
Proof.
  revert st. induction branches as [|b branches IH]; intros st Hplain; simpl.
  - rewrite app_nil_r. reflexivity.
  - rewrite IH by (apply processBranch_plain_keys, Hplain).
    rewrite processBranch_flat, <- app_assoc by exact Hplain. reflexivity.
Qed.

Lemma batches_loop_flat (branches : list Branch) :
  forall (fuel i : nat) (st : JS.object (list StaleBranch) * list event),
    plain_keys (fst st) ->
    (length branches <= i + fuel * batchSize)%nat ->
    Permutation (flat_map snd (fst (loop fuel i branches st)))
                (flat_map snd (fst st) ++ flat_map stale (skipn i branches)).
Proof.
  induction fuel as [|fuel IH]; intros i st Hplain Hfuel.
  - simpl. rewrite skipn_all2 by (simpl in Hfuel; lia).
    rewrite app_nil_r. reflexivity.
  - cbn [batches_loop].
    destruct (i <? length branches)%nat eqn:Hi.
    + rewrite IH by (try apply fold_left_plain_keys; try exact Hplain;
                     unfold batchSize in *; lia).
      rewrite fold_left_flat, <- app_assoc by exact Hplain.
      apply Permutation_app_head.
      assert (Hsplit : skipn i branches =
                       (slice i (i + batchSize) branches
                          ++ skipn (i + batchSize) branches)%list).
      { unfold slice. replace (i + batchSize - i)%nat with batchSize by lia.
        replace (i + batchSize)%nat with (batchSize + i)%nat by lia.
        rewrite <- skipn_skipn. symmetry. apply firstn_skipn. }
      rewrite Hsplit, flat_map_app.
      apply Permutation_app_tail, Permutation_flat_map, Permutation_arrange.
    + apply Nat.ltb_ge in Hi. rewrite skipn_all2 by lia.
      rewrite app_nil_r. reflexivity.
Qed.

Lemma digest_flat (branches : list Branch) :
  Permutation
    (flat_map snd (digest parseInt Date_parse now getCommit completion
                     daysBeforeStale branches))
    (flat_map stale branches).
Proof.
  unfold digest, classify. rewrite flat_sortGroups.
  rewrite batches_loop_flat by (try exact plain_keys_nil; unfold batchSize; lia).
  reflexivity.
Qed.

End Partition.

(** X10.  Taken together, the groups of the digest hold exactly the records
    of the branches that were fetched, meet the threshold and have an author
    that names no member of [Object.prototype]: every such branch is in the
    digest once, under one author, and the digest holds nothing else; the
    authors of the digest are distinct and none of them names a member of
    [Object.prototype]. *)
Theorem digest_partition :
  forall (parseInt : string -> JS.number) (Date_parse : string -> option Z) (now : Z)
         (getCommit : string -> nat -> Error + CommitInfo)
         (completion : nat -> list nat) (daysBeforeStale : JS.number)
         (branches : list Branch),
    Permutation
      (flat_map snd (digest parseInt Date_parse now getCommit completion
                       daysBeforeStale branches))
      (flat_map (staleRecords parseInt Date_parse now getCommit daysBeforeStale)
                branches) /\
    NoDup (JS.keys (digest parseInt Date_parse now getCommit completion
                      daysBeforeStale branches)) /\
    Forall (fun author => JS.inherited author = false)
           (JS.keys (digest parseInt Date_parse now getCommit completion
                       daysBeforeStale branches)).
Proof.
  intros. split; [|split].
  - apply digest_flat.
  - exact (proj1 (digest_well_formed _ _ _ _ _ _ _)).
  - apply Forall_forall. apply digest_plain_keys.
Qed.

Lemma ge_NaN_r (a : JS.number) : JS.ge a JS.NaN = false.
Proof. destruct a; reflexivity. Qed.

(** X11.  When no fetched branch has a record to contribute (none meets the
    threshold, or those that do have an author named like a member of
    [Object.prototype]) the digest is empty: nothing is posted and the webhook
    is not called.  This is the case, for every list of branches, when the
    threshold is [NaN], the value of a [days-before-stale] input that is not a
    number. *)
Theorem nothing_stale_nothing_posted :
  forall (W : Type) (parseInt : string -> JS.number)
         (Date_parse : string -> option Z) (now : Z)
         (getCommit : string -> nat -> Error + CommitInfo)
         (completion : nat -> list nat)
         (post : string -> string -> W -> (Error + unit) * W)
         (slackWebhookUrl : string) (SLACK_USERS : option string)
         (branches : list Branch) (w : W),
    (forall daysBeforeStale,
        (forall b, In b branches ->
                   staleRecords parseInt Date_parse now getCommit daysBeforeStale b = []) ->
        digest parseInt Date_parse now getCommit completion daysBeforeStale branches = []
        /\
        notifyStale parseInt Date_parse now getCommit completion post daysBeforeStale
          slackWebhookUrl SLACK_USERS branches w =
          (w, snd (classify parseInt Date_parse now getCommit completion
                     daysBeforeStale branches))) /\
    digest parseInt Date_parse now getCommit completion JS.NaN branches = [] /\
    posts (snd (notifyStale parseInt Date_parse now getCommit completion post JS.NaN
                  slackWebhookUrl SLACK_USERS branches w)) = [].
Proof.
  intros W parseInt Date_parse now getCommit completion post slackWebhookUrl
         SLACK_USERS branches w.
  assert (Hgen : forall daysBeforeStale,
             (forall b, In b branches ->
                        staleRecords parseInt Date_parse now getCommit
                          daysBeforeStale b = []) ->
             digest parseInt Date_parse now getCommit completion daysBeforeStale
               branches = []
             /\
             notifyStale parseInt Date_parse now getCommit completion post
               daysBeforeStale slackWebhookUrl SLACK_USERS branches w =
               (w, snd (classify parseInt Date_parse now getCommit completion
                          daysBeforeStale branches))).
  { intros T Hnone.
    assert (Hempty : digest parseInt Date_parse now getCommit completion T branches = []).
    { assert (Hflat := digest_flat parseInt Date_parse now getCommit completion T
                         branches).
      replace (flat_map (staleRecords parseInt Date_parse now getCommit T) branches)
        with (@nil StaleBranch) in Hflat.
      - apply Permutation_sym, Permutation_nil in Hflat.
        destruct (digest_well_formed parseInt Date_parse now getCommit T completion
                    branches) as [_ Hgroups].
        destruct (digest parseInt Date_parse now getCommit completion T branches)
          as [|[k g] rest]; [reflexivity|].
        exfalso. apply (Hgroups k g).
        + simpl. rewrite String.eqb_refl. reflexivity.
        + simpl in Hflat. apply app_eq_nil in Hflat. exact (proj1 Hflat).
      - symmetry. clear Hflat. induction branches as [|b bs IH]; [reflexivity|].
        cbn [flat_map]. rewrite (Hnone b (or_introl eq_refl)).
        apply IH. intros b' Hb'. apply Hnone. right. exact Hb'. }
    split; [exact Hempty|].
    unfold notifyStale. unfold digest in Hempty.
    destruct (classify parseInt Date_parse now getCommit completion T branches)
      as [o log]. cbn [fst snd] in *. rewrite Hempty.
    cbn. rewrite app_nil_r. reflexivity. }
  split; [exact Hgen|].
  destruct (Hgen JS.NaN) as [Hd Hn].
  - intros b _. unfold staleRecords.
    destruct (fetchCommit parseInt getCommit b) as [[error|commitInfo] evs];
      [reflexivity|].
    rewrite ge_NaN_r. reflexivity.
  - split; [exact Hd|]. rewrite Hn. cbn [snd]. apply posts_classify.
Qed.

Lemma nothing_stale_nothing_posted_witness :
  digest sample_parseInt sampleDate_parse sampleNow sample_getCommit sequential
         (JS.of_Z 100) twoBranches = [] /\
  notifyStale sample_parseInt sampleDate_parse sampleNow sample_getCommit sequential
    acceptingWebhook (JS.of_Z 100) "https://hooks.example/T" None twoBranches 0%nat =
    (0%nat, snd (classify sample_parseInt sampleDate_parse sampleNow sample_getCommit
                   sequential (JS.of_Z 100) twoBranches)).
Proof.
  exact (proj1 (nothing_stale_nothing_posted nat sample_parseInt sampleDate_parse
                  sampleNow sample_getCommit sequential acceptingWebhook
                  "https://hooks.example/T" None twoBranches 0%nat)
           (JS.of_Z 100)
           ltac:(intros b [<-|[<-|[]]]; reflexivity)).
Defined.

(** X12.  Raising the threshold only removes records: a record in the group
    of an author under a threshold is in the author's group under every lower
    threshold, whatever the completion orders of the two runs. *)
Theorem raising_threshold_only_removes :
  forall (parseInt : string -> JS.number) (Date_parse : string -> option Z) (now : Z)
         (getCommit : string -> nat -> Error + CommitInfo)
         (completion completion' : nat -> list nat) (lower higher : JS.number)
         (branches : list Branch) (author : string) (r : StaleBranch),
    JS.ge higher lower = true ->
    In r (group (digest parseInt Date_parse now getCommit completion higher branches)
            author) ->
    In r (group (digest parseInt Date_parse now getCommit completion' lower branches)
            author).
Proof.
  intros parseInt Date_parse now getCommit completion completion' lower higher
         branches author r Hle Hin.
  apply (Permutation_in _ (digest_group _ _ _ _ _ _ _ _)) in Hin.
  apply in_records in Hin.
  destruct Hin as (branch & commitInfo & evs & H1 & H2 & H3 & H4 & H5 & H6).
  apply (Permutation_in _ (Permutation_sym (digest_group _ _ _ _ _ _ _ _))).
  apply in_records. exists branch, commitInfo, evs.
  repeat split; try assumption. exact (ge_trans _ _ _ H3 Hle).
Qed.

Lemma raising_threshold_only_removes_witness :
  In (mkStaleBranch "old" (JS.of_Z 45))
     (group (digest sample_parseInt sampleDate_parse sampleNow sample_getCommit
               sequential (JS.of_Z 3) twoBranches) "carol").
Proof.
  exact (raising_threshold_only_removes sample_parseInt sampleDate_parse sampleNow
           sample_getCommit sequential sequential (JS.of_Z 3) (JS.of_Z 30)
           twoBranches "carol" (mkStaleBranch "old" (JS.of_Z 45))
           eq_refl (or_introl eq_refl)).
Defined.

(** ** The earlier revision *)

(** X13.  In the earlier revision a commit without committer date has the age
    [-1]: its branch passes the staleness filter exactly when the threshold is
    [-1] or less, so never under a threshold of zero or more. *)
Theorem legacy_no_date_stale_iff :
  forall (Date_parse : string -> option Z) (now : Z) (commitInfo : CommitInfo)
         (threshold : Q),
    committer_date commitInfo = None ->
    (Legacy.isStale Date_parse now (JS.Num threshold) commitInfo = true <->
     (threshold <= -1)%Q).
Proof.
  intros Date_parse now commitInfo threshold Hdate. split.
  - intros Hstale. destruct (Qlt_le_dec (-1) threshold) as [Hlt|Hle]; [|exact Hle].
    rewrite (legacy_no_date_not_stale Date_parse now commitInfo threshold Hdate Hlt)
      in Hstale.
    discriminate.
  - apply legacy_no_date_stale_below_sentinel. exact Hdate.
Qed.

Lemma legacy_no_date_stale_iff_witness :
  Legacy.isStale sampleDate_parse sampleNow (JS.Num (-1)) (mkCommitInfo None (Some "erin"))
    = true <-> (-1 <= -1)%Q.
Proof.
  exact (legacy_no_date_stale_iff sampleDate_parse sampleNow
           (mkCommitInfo None (Some "erin")) (-1) eq_refl).
Defined.

Lemma fetchPage_first_attempt {W : Type} (parseInt : string -> JS.number)
      (listBranches : ListBranchesParams -> W -> (Error + list Branch) * W)
      (p : Z) (w : W) (data : list Branch) :
  fst (listBranches (mkParams false 100 p) w) = inr data ->
  fetchPage parseInt listBranches p w =
    (inr data, snd (listBranches (mkParams false 100 p) w), []).
Proof.
  intros H. unfold fetchPage, makeRequestWithRetry.
  change (mkParams false per_page_const p) with (mkParams false 100 p).
  change (Z.to_nat defaultMaxRetries) with 5%nat.
  cbn [retry_loop]. change (1 <=? defaultMaxRetries) with true. cbv iota.
  destruct (listBranches (mkParams false 100 p) w) as [o w'].
  cbn [fst snd] in *. subst o. reflexivity.
Qed.

(** X14.  Against a server that answers every request for a page of 100 with
    at most 100 branches, the two revisions of the enumeration return the same
    branches and leave the same world, and the wrapper of the later one logs
    nothing. *)
Theorem getAllBranches_revisions_agree :
  forall (W : Type) (parseInt : string -> JS.number)
         (listBranches : ListBranchesParams -> W -> (Error + list Branch) * W),
    (forall p w, exists data,
          fst (listBranches (mkParams false 100 p) w) = inr data /\
          (length data <= 100)%nat) ->
    forall (fuel : nat) (w : W),
      Legacy.getAllBranches listBranches fuel w =
        option_map (fun r => (inr (fst (fst r)), snd (fst r)))
                   (getAllBranches parseInt listBranches fuel w) /\
      (forall r, getAllBranches parseInt listBranches fuel w = Some r -> snd r = []).
Proof.
  intros W parseInt listBranches Hserver fuel w.
  assert (Hloop : forall fuel p branches w,
             match pages_loop parseInt listBranches fuel p branches w with
             | Some (inr _, branches', w', evs) =>
                 Legacy.pages_loop listBranches fuel p branches w =
                   Some (inr branches', w') /\ evs = []
             | Some (inl _, _, _, _) => False
             | None => Legacy.pages_loop listBranches fuel p branches w = None
             end).
  { clear fuel w. induction fuel as [|fuel IH]; intros p branches w; [reflexivity|].
    cbn [pages_loop Legacy.pages_loop].
    destruct (Hserver p w) as (data & Hdata & Hlen).
    rewrite (fetchPage_first_attempt parseInt listBranches p w data Hdata).
    destruct (listBranches (mkParams false 100 p) w) as [o w'].
    cbn [fst snd] in *. subst o.
    destruct (Z.of_nat (length data) <? per_page_const) eqn:Hshort.
    - apply Z.ltb_lt in Hshort. unfold per_page_const in Hshort.
      replace (Z.of_nat (length data) =? 100) with false
        by (symmetry; apply Z.eqb_neq; lia).
      split; reflexivity.
    - apply Z.ltb_ge in Hshort. unfold per_page_const in Hshort.
      replace (Z.of_nat (length data) =? 100) with true
        by (symmetry; apply Z.eqb_eq; lia).
      specialize (IH (p + 1) (branches ++ data)%list w').
      destruct (pages_loop parseInt listBranches fuel (p + 1) (branches ++ data) w')
        as [[[[[error|[]] branches'] w''] evs]|]; [contradiction| |exact IH].
      destruct IH as [IHl IHe]. split; [exact IHl | subst evs; reflexivity]. }
  specialize (Hloop fuel 1 [] w).
  unfold getAllBranches, Legacy.getAllBranches.
  destruct (pages_loop parseInt listBranches fuel 1 [] w)
    as [[[[[error|[]] branches'] w'] evs]|]; [contradiction| |].
  - destruct Hloop as [Hl He]. split; [exact Hl|].
    intros r [= <-]. exact He.
  - split; [exact Hloop|]. intros r Hr. discriminate.
Qed.

Lemma served_at_most (repository : list Branch) (p : Z) :
  (length (served repository (mkParams false 100 p)) <= 100)%nat.
Proof.
  unfold served, slice. cbn [param_protected per_page page].
  rewrite length_firstn. change (Z.to_nat 100) with 100%nat. lia.
Qed.

Lemma getAllBranches_revisions_agree_witness :
  Legacy.getAllBranches (pagedServer (sampleRepository 3)) 1 [] =
    option_map (fun r => (inr (fst (fst r)), snd (fst r)))
               (getAllBranches sample_parseInt (pagedServer (sampleRepository 3)) 1 []) /\
  (forall r, getAllBranches sample_parseInt (pagedServer (sampleRepository 3)) 1 [] =
             Some r -> snd r = []).
Proof.
  exact (getAllBranches_revisions_agree (list ListBranchesParams) sample_parseInt
           (pagedServer (sampleRepository 3))
           (fun p w =>
              ex_intro _ (served (sampleRepository 3) (mkParams false 100 p))
                (conj eq_refl (served_at_most (sampleRepository 3) p)))
           1%nat []).
Defined.

Lemma firstRejection_In {A : Type} (settled : list (Error + A)) (e : Error) :
  LegacyRun.firstRejection settled = Some e -> In (inl e) settled.
Proof.
  induction settled as [|[e'|a] settled IH]; simpl; [discriminate| |].
  - intros [= ->]. left. reflexivity.
  - intros H. right. exact (IH H).
Qed.

Lemma firstRejection_None {A : Type} (settled : list (Error + A)) :
  LegacyRun.firstRejection settled = None -> forall e, ~ In (inl e) settled.
Proof.
  induction settled as [|[e'|a] settled IH]; simpl; [intros _ e []|discriminate|].
  intros H e [Hin|Hin]; [discriminate | exact (IH H e Hin)].
Qed.

(** X15.  In the earlier revision one failing commit fetch fails the whole
    run: after a setup that succeeded, when the commit of some listed branch
    cannot be fetched, the run is marked failed with the message of such an
    error, no owner is looked up and nothing is posted, whatever the other
    branches are. *)
Theorem legacy_run_all_or_nothing :
  forall (W : Type) (parseInt : string -> JS.number)
         (Date_parse : string -> option Z) (nowAt : string -> Z)
         (listBranches : ListBranchesParams -> W -> (Error + list Branch) * W)
         (getCommit : string -> Error + CommitInfo) (settle : list nat)
         (getBranch : string -> W -> (Error + option string) * W)
         (post : string -> string -> W -> (Error + unit) * W)
         (getInput : string -> Error + string)
         (getOctokit : string -> Error + unit) (context_repo : Error + unit)
         (days slackWebhookUrl : string)
         (SLACK_USERS : option string) (token : string) (fuel : nat) (w w1 : W)
         (branches : list Branch) (branch : Branch) (e : Error),
    setup getInput getOctokit context_repo (Some token) =
      inr (days, slackWebhookUrl) ->
    Legacy.getAllBranches listBranches fuel w = Some (inr branches, w1) ->
    In branch branches ->
    getCommit (sha branch) = inl e ->
    exists failing e',
      In failing branches /\
      getCommit (sha failing) = inl e' /\
      LegacyRun.run parseInt Date_parse nowAt listBranches getCommit settle getBranch
        post getInput getOctokit context_repo SLACK_USERS (Some token) fuel w =
        Some (w1, [SetFailed (message e')]).
Proof.
  intros W parseInt Date_parse nowAt listBranches getCommit settle getBranch post
         getInput getOctokit context_repo days slackWebhookUrl SLACK_USERS token
         fuel w w1 branches branch e Hsetup Henum Hin Hfail.
  assert (Htask : In (inl e) (map (LegacyRun.task Date_parse nowAt getCommit) branches)).
  { apply in_map_iff. exists branch. split; [|exact Hin].
    unfold LegacyRun.task. rewrite Hfail. reflexivity. }
  destruct (LegacyRun.firstRejection
              (arrange settle (map (LegacyRun.task Date_parse nowAt getCommit) branches)))
    as [e'|] eqn:Hfirst.
  - assert (Hin' := firstRejection_In _ _ Hfirst).
    apply (Permutation_in _ (Permutation_arrange _ _)) in Hin'.
    apply in_map_iff in Hin'. destruct Hin' as (failing & Htaskf & Hinf).
    exists failing, e'. split; [exact Hinf|]. split.
    + unfold LegacyRun.task in Htaskf.
      destruct (getCommit (sha failing)) as [e0|c]; [|discriminate].
      injection Htaskf as ->. reflexivity.
    + unfold LegacyRun.run, LegacyRun.main, LegacyRun.staleBranches,
        LegacyRun.Promise_all.
      rewrite Hsetup, Henum, Hfirst. reflexivity.
  - exfalso. apply (firstRejection_None _ Hfirst e).
    apply (Permutation_in _ (Permutation_sym (Permutation_arrange _ _))).
    exact Htask.
Qed.

Lemma legacy_run_all_or_nothing_witness :
  exists failing e',
    In failing withGhost /\
    legacy_getCommit (sha failing) = inl e' /\
    LegacyRun.run sample_parseInt sampleDate_parse (fun _ => sampleNow)
      (pagedServer withGhost) legacy_getCommit [] legacy_getBranch acceptingWebhook
      (sampleInputs "30" "https://hooks.example/T") sample_getOctokit (inr tt)
      None (Some "token") 1 [] =
      Some ([pageRequest 1], [SetFailed (message e')]).
Proof.
  exact (legacy_run_all_or_nothing (list ListBranchesParams) sample_parseInt
           sampleDate_parse (fun _ => sampleNow) (pagedServer withGhost)
           legacy_getCommit [] legacy_getBranch acceptingWebhook
           (sampleInputs "30" "https://hooks.example/T") sample_getOctokit (inr tt)
           "30" "https://hooks.example/T"
           None "token" 1%nat [] [pageRequest 1] withGhost
           (mkBranch "ghost" "sha-unknown" false) notFound
           eq_refl eq_refl (or_intror (or_introl eq_refl)) eq_refl).
Defined.

(** ** When the run is marked failed *)

Lemma quiet_not_failed (evs : list event) :
  Forall quiet evs -> Forall not_failed evs.
Proof.
  apply Forall_impl. intros [] H; try contradiction; exact I.
Qed.

Lemma not_failed_fetchPage {W : Type} (parseInt : string -> JS.number)
      (listBranches : ListBranchesParams -> W -> (Error + list Branch) * W)
      (p : Z) (w : W) :
  Forall not_failed (snd (fetchPage parseInt listBranches p w)).
Proof.
  apply quiet_not_failed. unfold fetchPage, makeRequestWithRetry.
  apply quiet_retry_loop.
Qed.

Lemma not_failed_pages_loop {W : Type} (parseInt : string -> JS.number)
      (listBranches : ListBranchesParams -> W -> (Error + list Branch) * W) :
  forall (fuel : nat) (p : Z) (branches : list Branch) (w : W) r,
    pages_loop parseInt listBranches fuel p branches w = Some r ->
    Forall not_failed (snd r).
Proof.
  induction fuel as [|fuel IH]; intros p branches w r; [discriminate|].
  cbn [pages_loop].
  assert (Hfetch := not_failed_fetchPage parseInt listBranches p w).
  destruct (fetchPage parseInt listBranches p w) as [[[error|data] w'] evs];
    cbn [snd] in Hfetch.
  - intros [= <-]. exact Hfetch.
  - destruct (Z.of_nat (length data) <? per_page_const).
    + intros [= <-]. exact Hfetch.
    + specialize (IH (p + 1) (branches ++ data)%list w').
      destruct (pages_loop parseInt listBranches fuel (p + 1) (branches ++ data) w')
        as [[[[r0 b0] w0] evs0]|]; [|discriminate].
      intros [= <-]. cbn [snd]. apply Forall_app. split; [exact Hfetch|].
      exact (IH _ eq_refl).
Qed.

Lemma not_failed_getAllBranches {W : Type} (parseInt : string -> JS.number)
      (listBranches : ListBranchesParams -> W -> (Error + list Branch) * W)
      (fuel : nat) (w : W) r :
  getAllBranches parseInt listBranches fuel w = Some r ->
  Forall not_failed (snd r).
Proof.
  unfold getAllBranches.
  assert (H := not_failed_pages_loop parseInt listBranches fuel 1 [] w).
  destruct (pages_loop parseInt listBranches fuel 1 [] w)
    as [[[[[error|[]] b0] w0] evs0]|]; [| |discriminate].
  - intros [= <-]. cbn [snd]. apply Forall_app. split.
    + exact (H _ eq_refl).
    + repeat constructor.
  - intros [= <-]. exact (H _ eq_refl).
Qed.

Lemma not_failed_eventsOf (parseInt : string -> JS.number)
      (Date_parse : string -> option Z) (now : Z)
      (getCommit : string -> nat -> Error + CommitInfo)
      (daysBeforeStale : JS.number) (branch : Branch) :
  Forall not_failed (eventsOf parseInt Date_parse now getCommit daysBeforeStale branch).
Proof.
  unfold eventsOf, fetchCommit, makeRequestWithRetry.
  assert (H := quiet_retry_loop parseInt
                 (fun calls : nat => (getCommit (sha branch) calls, S calls))
                 defaultMaxRetries (Z.to_nat defaultMaxRetries) 1 0%nat).
  destruct (retry_loop _ _ _ _ _ _) as [[[error|commitInfo] w] evs]; cbn [snd] in H.
  - apply Forall_app. split; [exact (quiet_not_failed _ H) | repeat constructor].
  - destruct (_ && _)%bool; [|exact (quiet_not_failed _ H)].
    apply Forall_app. split; [exact (quiet_not_failed _ H) | repeat constructor].
Qed.

Lemma not_failed_classify (parseInt : string -> JS.number)
      (Date_parse : string -> option Z) (now : Z)
      (getCommit : string -> nat -> Error + CommitInfo)
      (completion : nat -> list nat) (daysBeforeStale : JS.number)
      (branches : list Branch) :
  Forall not_failed
    (snd (classify parseInt Date_parse now getCommit completion daysBeforeStale
            branches)).
Proof.
  apply (Permutation_Forall (Permutation_sym (classify_log _ _ _ _ _ _ _))).
  induction branches as [|b branches IH]; [constructor|].
  cbn [flat_map]. apply Forall_app. split; [apply not_failed_eventsOf | exact IH].
Qed.

(** X16.  The run is marked failed only by its setup and by a POST.  When
    the setup throws (a required input is not supplied, the token is not
    defined, no client can be built from it, or the repository is not known)
    the run does nothing else than [setFailed] with the message of that
    error: no request is made.  When the setup succeeds and the webhook
    accepts every message, the trace of the run holds no [setFailed],
    whatever pages cannot be fetched and whatever branches cannot be
    classified. *)
Theorem run_failed_by_setup_or_post :
  forall (W : Type) (parseInt : string -> JS.number)
         (Date_parse : string -> option Z) (now : Z)
         (listBranches : ListBranchesParams -> W -> (Error + list Branch) * W)
         (getCommit : string -> nat -> Error + CommitInfo)
         (completion : nat -> list nat)
         (post : string -> string -> W -> (Error + unit) * W)
         (getInput : string -> Error + string)
         (getOctokit : string -> Error + unit) (context_repo : Error + unit)
         (SLACK_USERS : option string) (STALE_BRANCH_TOKEN : option string)
         (fuel : nat) (w : W),
    (forall error,
        setup getInput getOctokit context_repo STALE_BRANCH_TOKEN = inl error ->
        run parseInt Date_parse now listBranches getCommit completion post
            getInput getOctokit context_repo SLACK_USERS STALE_BRANCH_TOKEN fuel w =
          Some (w, [SetFailed (message error)])) /\
    (forall error,
        getInput "days-before-stale" = inl error \/
        (exists days, getInput "days-before-stale" = inr days /\
                      getInput "slack-webhook-url" = inl error) ->
        setup getInput getOctokit context_repo STALE_BRANCH_TOKEN = inl error) /\
    (forall days slackWebhookUrl,
        getInput "days-before-stale" = inr days ->
        getInput "slack-webhook-url" = inr slackWebhookUrl ->
        setup getInput getOctokit context_repo None = inl token_not_defined) /\
    (forall days slackWebhookUrl w' evs,
        setup getInput getOctokit context_repo STALE_BRANCH_TOKEN =
          inr (days, slackWebhookUrl) ->
        (forall body w0, fst (post slackWebhookUrl body w0) = inr tt) ->
        run parseInt Date_parse now listBranches getCommit completion post
            getInput getOctokit context_repo SLACK_USERS STALE_BRANCH_TOKEN fuel w =
          Some (w', evs) ->
        Forall not_failed evs).
Proof.
  intros W parseInt Date_parse now listBranches getCommit completion post
         getInput getOctokit context_repo SLACK_USERS STALE_BRANCH_TOKEN fuel w.
  split; [|split; [|split]].
  - intros error Hsetup. unfold run. rewrite Hsetup. reflexivity.
  - intros error [H | (days & Hd & Hu)]; unfold setup.
    + rewrite H. reflexivity.
    + rewrite Hd, Hu. reflexivity.
  - intros days slackWebhookUrl Hd Hu. unfold setup. rewrite Hd, Hu. reflexivity.
  - intros days slackWebhookUrl w' evs Hsetup Haccept Hrun.
    unfold run in Hrun. rewrite Hsetup in Hrun.
    assert (Henum := not_failed_getAllBranches parseInt listBranches fuel w).
    destruct (getAllBranches parseInt listBranches fuel w) as [[[branches w1] evs1]|];
      [|discriminate].
    specialize (Henum _ eq_refl). cbn [snd] in Henum.
    unfold notifyStale in Hrun.
    assert (Hlog := not_failed_classify parseInt Date_parse now getCommit completion
                      (parseInt days) branches).
    destruct (classify parseInt Date_parse now getCommit completion (parseInt days)
                branches) as [o log]. cbn [snd] in Hlog.
    destruct (notify_posts_all post slackWebhookUrl SLACK_USERS (sortGroups o) Haccept
                (JS.for_in_keys (sortGroups o)) w1) as [Hok Hposts].
    destruct (notify post slackWebhookUrl SLACK_USERS (JS.for_in_keys (sortGroups o))
                (sortGroups o) w1) as [[[error|[]] w2] evs2];
      cbn [fst snd] in *; [discriminate|].
    injection Hrun as <- <-.
    apply Forall_app. split; [exact Henum|].
    apply Forall_app. split; [exact Hlog|].
    rewrite Hposts. apply Forall_forall. intros e He.
    apply in_map_iff in He. destruct He as (a & <- & _). exact I.
Qed.

Lemma run_failed_by_setup_or_post_witness :
  Forall not_failed
    (snd (notifyStale sample_parseInt sampleDate_parse sampleNow sample_getCommit
            sequential acceptingWebhook (JS.of_Z 30) "https://hooks.example/T"
            None withGhost [pageRequest 1])) /\
  run sample_parseInt sampleDate_parse sampleNow (pagedServer withGhost)
      sample_getCommit sequential acceptingWebhook
      noInputs sample_getOctokit (inr tt) None (Some "token") 1 [] =
    Some ([], [SetFailed "Input required and not supplied: days-before-stale"]).
Proof.
  exact (conj
           (proj2 (proj2 (proj2
              (run_failed_by_setup_or_post (list ListBranchesParams) sample_parseInt
                 sampleDate_parse sampleNow (pagedServer withGhost) sample_getCommit
                 sequential acceptingWebhook
                 (sampleInputs "30" "https://hooks.example/T") sample_getOctokit
                 (inr tt) None (Some "token") 1%nat [])))
              "30" "https://hooks.example/T"
              (fst (notifyStale sample_parseInt sampleDate_parse sampleNow
                      sample_getCommit sequential acceptingWebhook (JS.of_Z 30)
                      "https://hooks.example/T" None withGhost [pageRequest 1]))
              (snd (notifyStale sample_parseInt sampleDate_parse sampleNow
                      sample_getCommit sequential acceptingWebhook (JS.of_Z 30)
                      "https://hooks.example/T" None withGhost [pageRequest 1]))
              eq_refl (fun body w0 => eq_refl) eq_refl)
           (proj1
              (run_failed_by_setup_or_post (list ListBranchesParams) sample_parseInt
                 sampleDate_parse sampleNow (pagedServer withGhost) sample_getCommit
                 sequential acceptingWebhook noInputs
                 sample_getOctokit (inr tt) None (Some "token") 1%nat [])
              (mkError "Error" "Input required and not supplied: days-before-stale"
                 None)
              eq_refl)).
Defined.

(** ** The threshold, to the millisecond *)

(** X17.  For a commit whose committer date parses to the time [t] and a
    whole threshold of [T] days, the branch meets the threshold exactly when
    the commit is at least [T] times 86 400 000 milliseconds old: a commit
    made exactly [T] days ago is stale, one made a millisecond later is
    not. *)
Theorem stale_to_the_millisecond :
  forall (Date_parse : string -> option Z) (now : Z) (commitInfo : CommitInfo)
         (s : string) (t T : Z),
    committer_date commitInfo = Some s ->
    s <> "" ->
    Date_parse s = Some t ->
    (JS.ge (daysSince Date_parse now commitInfo) (JS.of_Z T) = true <->
     T * 86400000 <= now - t).
Proof.
  intros Date_parse now commitInfo s t T Hdate Hne Hparse.
  unfold daysSince. rewrite Hdate. cbn [JS.or_default]. rewrite or_else_empty.
  unfold getTime. replace (String.eqb s "") with false
    by (symmetry; apply String.eqb_neq; exact Hne).
  rewrite Hparse. unfold JS.of_Z, JS.sub, JS.div, JS.ge, msPerDay.
  rewrite Qle_bool_iff, !Qred_correct.
  unfold Qle, Qdiv, Qmult, Qinv, Qminus, Qplus, Qopp, inject_Z. cbn [Qnum Qden].
  cbn [Pos.mul]. lia.
Qed.

Lemma stale_to_the_millisecond_witness :
  JS.ge (daysSince sampleDate_parse sampleNow
           (mkCommitInfo (Some "2024-01-01T00:00:00Z") (Some "carol")))
        (JS.of_Z 45) = true <->
  45 * 86400000 <= sampleNow - 1704067200000.
Proof.
  exact (stale_to_the_millisecond sampleDate_parse sampleNow
           (mkCommitInfo (Some "2024-01-01T00:00:00Z") (Some "carol"))
           "2024-01-01T00:00:00Z" 1704067200000 45
           eq_refl ltac:(discriminate) eq_refl).
Defined.

(** ** The earlier enumeration does not keep partial results *)

Lemma legacy_pages_loop_full {W : Type}
      (listBranches : ListBranchesParams -> W -> (Error + list Branch) * W)
      (p : Z) (w : W) (pages : list (list Branch)) (p' : Z) (w' : W) :
  legacyFullPages listBranches p w pages p' w' ->
  forall (fuel : nat) (branches : list Branch),
    Legacy.pages_loop listBranches (length pages + fuel) p branches w =
      Legacy.pages_loop listBranches fuel p' (branches ++ concat pages) w'.
Proof.
  induction 1 as [p w | p w data w1 rest p' w' Hreq Hlen _ IH]; intros fuel branches.
  - simpl. rewrite app_nil_r. reflexivity.
  - cbn [length Nat.add Legacy.pages_loop]. rewrite Hreq, Hlen.
    change (Z.of_nat 100 =? 100) with true. cbv iota.
    rewrite IH. cbn [concat]. rewrite app_assoc. reflexivity.
Qed.

(** X18.  In the earlier revision a page request that fails after some full
    pages loses them: the enumeration throws the error instead of returning
    the branches fetched so far, and the run, after a setup that succeeded,
    is marked failed with its message without any other effect. *)
Theorem legacy_failed_page_fails_run :
  forall (W : Type) (parseInt : string -> JS.number)
         (Date_parse : string -> option Z) (nowAt : string -> Z)
         (listBranches : ListBranchesParams -> W -> (Error + list Branch) * W)
         (getCommit : string -> Error + CommitInfo) (settle : list nat)
         (getBranch : string -> W -> (Error + option string) * W)
         (post : string -> string -> W -> (Error + unit) * W)
         (getInput : string -> Error + string)
         (getOctokit : string -> Error + unit) (context_repo : Error + unit)
         (days slackWebhookUrl : string)
         (SLACK_USERS : option string) (token : string) (fuel : nat) (w : W)
         (pages : list (list Branch)) (p' : Z) (w' w'' : W) (e : Error),
    setup getInput getOctokit context_repo (Some token) =
      inr (days, slackWebhookUrl) ->
    legacyFullPages listBranches 1 w pages p' w' ->
    listBranches (mkParams false 100 p') w' = (inl e, w'') ->
    (length pages < fuel)%nat ->
    Legacy.getAllBranches listBranches fuel w = Some (inl e, w'') /\
    LegacyRun.run parseInt Date_parse nowAt listBranches getCommit settle getBranch
      post getInput getOctokit context_repo SLACK_USERS (Some token) fuel w =
      Some (w'', [SetFailed (message e)]).
Proof.
  intros W parseInt Date_parse nowAt listBranches getCommit settle getBranch post
         getInput getOctokit context_repo days slackWebhookUrl SLACK_USERS token
         fuel w pages p' w' w'' e Hsetup Hfull Hreq Hfuel.
  assert (Henum : Legacy.getAllBranches listBranches fuel w = Some (inl e, w'')).
  { unfold Legacy.getAllBranches.
    replace fuel with (length pages + S (fuel - S (length pages)))%nat by lia.
    rewrite (legacy_pages_loop_full listBranches 1 w pages p' w' Hfull).
    cbn [Legacy.pages_loop]. rewrite Hreq. reflexivity. }
  split; [exact Henum|].
  unfold LegacyRun.run, LegacyRun.main. rewrite Hsetup, Henum. reflexivity.
Qed.

Lemma legacy_failed_page_fails_run_witness :
  Legacy.getAllBranches (brokenServer (sampleRepository 250) 1) 2 [] =
    Some (inl serverError, [pageRequest 1; pageRequest 2]) /\
  LegacyRun.run sample_parseInt sampleDate_parse (fun _ => sampleNow)
    (brokenServer (sampleRepository 250) 1) legacy_getCommit [] legacy_getBranch
    acceptingWebhook (sampleInputs "30" "https://hooks.example/T") sample_getOctokit
    (inr tt) None (Some "token") 2 [] =
    Some ([pageRequest 1; pageRequest 2], [SetFailed (message serverError)]).
Proof.
  exact (legacy_failed_page_fails_run (list ListBranchesParams) sample_parseInt
           sampleDate_parse (fun _ => sampleNow)
           (brokenServer (sampleRepository 250) 1)
           legacy_getCommit [] legacy_getBranch acceptingWebhook
           (sampleInputs "30" "https://hooks.example/T") sample_getOctokit (inr tt)
           "30" "https://hooks.example/T" None "token" 2%nat []
           [served (sampleRepository 250) (pageRequest 1)] 2 [pageRequest 1]
           [pageRequest 1; pageRequest 2] serverError eq_refl
           (legacyFullPages_cons (brokenServer (sampleRepository 250) 1) 1 []
              (served (sampleRepository 250) (pageRequest 1)) [pageRequest 1] []
              2 [pageRequest 1] eq_refl ltac:(vm_compute; reflexivity)
              (legacyFullPages_nil (brokenServer (sampleRepository 250) 1)
                 2 [pageRequest 1]))
           eq_refl ltac:(vm_compute; repeat constructor)).
Defined.

(** ** Transient failures of a commit fetch *)

Lemma counter_fails_with {T : Type} (f : nat -> Error + T) (errors : list Error) :
  forall start,
    (forall k e, nth_error errors k = Some e -> f (start + k)%nat = inl e) ->
    fails_with (fun calls : nat => (f calls, S calls)) errors start.
Proof.
  induction errors as [|e errors IH]; intros start H; [exact I|].
  cbn [fails_with fst snd]. split.
  - rewrite <- (Nat.add_0_r start). apply H. reflexivity.
  - apply IH. intros k e' Hk. rewrite Nat.add_succ_comm. apply H. exact Hk.
Qed.

Lemma counter_after_calls {T : Type} (f : nat -> Error + T) (n : nat) :
  forall start,
    after_calls (fun calls : nat => (f calls, S calls)) n start = (n + start)%nat.
Proof.
  induction n as [|n IH]; intros start; [reflexivity|].
  cbn [after_calls snd]. rewrite IH. lia.
Qed.

(** X19.  A commit fetch that fails fewer than five times before it succeeds
    does not drop the branch: the branch is classified on the commit finally
    fetched; when the author of that commit names no member of
    [Object.prototype], the task of the branch adds no warning to the log,
    whatever the author map and the log it finds, and when the commit meets
    the threshold the record of the branch is in the group of the commit's
    author. *)
Theorem transient_failures_keep_the_branch :
  forall (parseInt : string -> JS.number) (Date_parse : string -> option Z) (now : Z)
         (getCommit : string -> nat -> Error + CommitInfo)
         (completion : nat -> list nat) (daysBeforeStale : JS.number)
         (branches : list Branch) (branch : Branch) (errors : list Error)
         (commitInfo : CommitInfo),
    In branch branches ->
    (forall k e, nth_error errors k = Some e -> getCommit (sha branch) k = inl e) ->
    getCommit (sha branch) (length errors) = inr commitInfo ->
    (length errors < 5)%nat ->
    JS.inherited (authorOf commitInfo) = false ->
    fst (fetchCommit parseInt getCommit branch) = inr commitInfo /\
    (forall o log,
        warnings (snd (processBranch parseInt Date_parse now getCommit daysBeforeStale
                         (o, log) branch)) = warnings log) /\
    (JS.ge (daysSince Date_parse now commitInfo) daysBeforeStale = true ->
     In (mkStaleBranch (name branch) (daysSince Date_parse now commitInfo))
        (group (digest parseInt Date_parse now getCommit completion daysBeforeStale
                  branches)
           (authorOf commitInfo))).
Proof.
  intros parseInt Date_parse now getCommit completion daysBeforeStale branches
         branch errors commitInfo Hin Hfail Hok Hbudget Hi.
  destruct (retry_loop_succeeds parseInt
              (fun calls : nat => (getCommit (sha branch) calls, S calls))
              defaultMaxRetries errors commitInfo 0%nat) as (evs & Hres & _).
  - apply counter_fails_with. exact Hfail.
  - unfold outcome. rewrite counter_after_calls, Nat.add_0_r. exact Hok.
  - unfold defaultMaxRetries. lia.
  - assert (Hfetch : fetchCommit parseInt getCommit branch = (inr commitInfo, evs)).
    { unfold fetchCommit. rewrite Hres. reflexivity. }
    assert (Hquiet : warnings evs = []).
    { assert (H := quiet_retry_loop parseInt
                     (fun calls : nat => (getCommit (sha branch) calls, S calls))
                     defaultMaxRetries (Z.to_nat defaultMaxRetries) 1 0%nat).
      unfold makeRequestWithRetry in Hres. rewrite Hres in H. cbn [snd] in H.
      exact (proj1 (proj2 (quiet_silent evs H))). }
    split; [rewrite Hfetch; reflexivity|]. split.
    + intros o log. unfold processBranch. rewrite Hfetch.
      destruct (JS.ge (daysSince Date_parse now commitInfo) daysBeforeStale).
      * rewrite pushStale_own by exact Hi. cbn [snd].
        rewrite warnings_app, Hquiet, app_nil_r. reflexivity.
      * cbn [snd]. rewrite warnings_app, Hquiet, app_nil_r. reflexivity.
    + intros Hge.
      apply (Permutation_in _ (Permutation_sym (digest_group _ _ _ _ _ _ _ _))).
      apply in_records. exists branch, commitInfo, evs. repeat split; assumption.
Qed.

Lemma transient_failures_keep_the_branch_witness :
  fst (fetchCommit sample_parseInt recovering_getCommit (mkBranch "old" "sha-old" false))
    = inr (mkCommitInfo (Some "2024-01-01T00:00:00Z") (Some "carol")) /\
  In (mkStaleBranch "old" (JS.of_Z 45))
     (group (digest sample_parseInt sampleDate_parse sampleNow recovering_getCommit
               sequential (JS.of_Z 30) twoBranches) "carol").
Proof.
  exact ((fun H => conj (proj1 H) (proj2 (proj2 H) eq_refl))
           (transient_failures_keep_the_branch sample_parseInt sampleDate_parse
              sampleNow recovering_getCommit sequential (JS.of_Z 30) twoBranches
              (mkBranch "old" "sha-old" false) [serverError; serverError]
              (mkCommitInfo (Some "2024-01-01T00:00:00Z") (Some "carol"))
              (or_intror (or_introl eq_refl))
              ltac:(intros [|[|[|k]]] e H; try discriminate H;
                    injection H as <-; reflexivity)
              eq_refl ltac:(repeat constructor) eq_refl)).
Defined.

(** ** A POST that fails *)




(** ** The stale list of the earlier revision *)

(** X21.  In the earlier revision, when every commit is fetched, the stale
    list is the listing, each branch with the age of its commit, filtered by
    the threshold, in the order of the listing: it does not depend on the
    order in which the fetches settle. *)
Theorem legacy_stale_list_in_listing_order :
  forall (Date_parse : string -> option Z) (nowAt : string -> Z)
         (getCommit : string -> Error + CommitInfo) (settle : list nat)
         (daysBeforeStale : JS.number) (commitOf : Branch -> CommitInfo)
         (branches : list Branch),
    (forall b, In b branches -> getCommit (sha b) = inr (commitOf b)) ->
    let age b :=
      Legacy.getDaysSinceLastCommit Date_parse (nowAt (sha b)) (commitOf b) in
    LegacyRun.staleBranches Date_parse nowAt getCommit settle daysBeforeStale branches
      = inr (map (fun b => (b, age b))
               (filter (fun b => JS.ge (age b) daysBeforeStale) branches)).
Proof.
  intros Date_parse nowAt getCommit settle daysBeforeStale commitOf branches Hall age.
  rewrite (legacy_staleBranches_fetched Date_parse nowAt getCommit settle
             daysBeforeStale commitOf branches Hall).
  f_equal. clear Hall. induction branches as [|b bs IH]; [reflexivity|].
  cbn [map filter snd]. fold (age b).
  destruct (JS.ge (age b) daysBeforeStale); cbn [map]; rewrite IH; reflexivity.
Qed.

Lemma legacy_stale_list_in_listing_order_witness :
  LegacyRun.staleBranches sampleDate_parse (fun _ => sampleNow) legacy_getCommit
    [1%nat] (JS.of_Z 30) twoBranches
    = inr [(mkBranch "old" "sha-old" false, JS.of_Z 45)].
Proof.
  exact (legacy_stale_list_in_listing_order sampleDate_parse (fun _ => sampleNow)
           legacy_getCommit [1%nat] (JS.of_Z 30)
           (fun b => match legacy_getCommit (sha b) with
                     | inr c => c
                     | inl _ => mkCommitInfo None None
                     end)
           twoBranches
           ltac:(intros b [<-|[<-|[]]]; reflexivity)).
Defined.
